(** * Fitness tracker: the metrics and inference pipeline

    A shallow embedding of [metrics.py], [activity.py], the session loop
    and the KPI header of [app.py], the series of [plots.py] and the
    session loader of [loader.py].

    Every numeric function of the program works on Python / NumPy floats.
    The functions are written once, over an interface [Num] of the float
    operations they use, and read at two instances:

    - [float]: IEEE 754 binary64, the arithmetic CPython and NumPy run
      (rounding, signed zeros, infinities and NaN included); every
      definition computes there;
    - [xreal]: the real numbers extended with the three non-finite values,
      the arithmetic the formulas denote when no rounding happens. *)

From Stdlib Require Import Bool ZArith QArith Reals Lra Lia List String Ascii.
From Stdlib Require Import Sorted.
From Stdlib Require Import Floats.
Import ListNotations.

Set Warnings "-inexact-float".
Open Scope string_scope.

(** ** The float interface *)

Class Num (T : Type) : Type := {
  lit : Q -> T;                  (* a decimal literal of the source *)
  of_int : Z -> T;               (* int -> float conversion *)
  nan : T;                       (* float('nan') *)
  add : T -> T -> T;
  sub : T -> T -> T;
  mul : T -> T -> T;
  div : T -> T -> T;
  ltb : T -> T -> bool;          (* a < b *)
  leb : T -> T -> bool;          (* a <= b *)
  isfinite : T -> bool;          (* np.isfinite *)
  isnan : T -> bool;             (* np.isnan *)
  py_round : T -> option Z       (* round(x); raises on inf and nan *)
}.

(** The transcendental functions of [haversine_distance_km]. *)
Class Trig (T : Type) : Type := {
  np_radians : T -> T;
  np_sin : T -> T;
  np_cos : T -> T;
  np_sqrt : T -> T;
  np_arctan2 : T -> T -> T
}.

Arguments lit {T _} q%_Q.

Declare Scope num_scope.
Delimit Scope num_scope with num.
Infix "+" := add : num_scope.
Infix "-" := sub : num_scope.
Infix "*" := mul : num_scope.
Infix "/" := div : num_scope.
Infix "<?" := ltb : num_scope.
Infix "<=?" := leb : num_scope.
Notation "a >? b" := (ltb b a) (at level 70) : num_scope.
Notation "a >=? b" := (leb b a) (at level 70) : num_scope.

(** ** Python and NumPy helpers *)

(** Elementwise application of a binary operation to two arrays. *)
Fixpoint zip_with {A B C : Type} (f : A -> B -> C) (l1 : list A) (l2 : list B)
  : list C :=
  match l1, l2 with
  | a :: l1', b :: l2' => f a b :: zip_with f l1' l2'
  | _, _ => []
  end.

Section Helpers.
Context {T : Type} {N : Num T}.
Local Open Scope num_scope.

(** Builtin [max(a, b)]: [b] replaces [a] only when [b > a]. *)
Definition py_max (a b : T) : T := if b >? a then b else a.

(** Builtin [min(a, b)]: [b] replaces [a] only when [b < a]. *)
Definition py_min (a b : T) : T := if b <? a then b else a.

(** [np.maximum(a, b)]: a NaN in either argument is returned. *)
Definition np_maximum (a b : T) : T :=
  if isnan a then a else if a >? b then a else b.

(** [np.sum]: [0.0] for an empty array, else accumulation from the first
    element on.  (NumPy adds long arrays in blocks; the grouping only
    matters to rounding.) *)
Definition np_sum (l : list T) : T :=
  match l with
  | [] => lit 0.0
  | x :: l' => fold_left add l' x
  end.

(** [np.nansum]: NaN entries count as zero. *)
Definition np_nansum (l : list T) : T :=
  np_sum (map (fun x => if isnan x then lit 0 else x) l).

(** [np.dot] of two vectors. *)
Definition np_dot (l1 l2 : list T) : T := np_sum (zip_with mul l1 l2).

(** [np.mean]. *)
Definition np_mean (l : list T) : T :=
  np_sum l / of_int (Z.of_nat (List.length l)).

(** [np.diff]: consecutive differences [l[i+1] - l[i]]. *)
Fixpoint np_diff (l : list T) : list T :=
  match l with
  | a :: (b :: _) as l' => (b - a) :: np_diff l'
  | _ => []
  end.
End Helpers.

(** Subtraction of [np.int64] values wraps around modulo [2^64]. *)
Definition wrap64 (z : Z) : Z :=
  ((z + 2 ^ 63) mod 2 ^ 64 - 2 ^ 63)%Z.

Definition int64_sub (a b : Z) : Z := wrap64 (a - b).

Fixpoint int64_diff (l : list Z) : list Z :=
  match l with
  | a :: (b :: _) as l' => int64_sub b a :: int64_diff l'
  | _ => []
  end.

(** ** metrics.py *)

(** A position log: the rows of the [pos] data frame, and whether the frame
    has an [altitude] column. *)
Record Sample (T : Type) : Type := {
  timestamp : Z;                 (* int64 milliseconds *)
  latitude : T;
  longitude : T;
  altitude : T
}.

Record PosLog (T : Type) : Type := {
  rows : list (Sample T);
  has_altitude : bool
}.

Arguments timestamp {T} _.
Arguments latitude {T} _.
Arguments longitude {T} _.
Arguments altitude {T} _.
Arguments Build_Sample {T} _ _ _ _.
Arguments rows {T} _.
Arguments has_altitude {T} _.
Arguments Build_PosLog {T} _ _.

Section Metrics.
Context {T : Type} {N : Num T}.
Local Open Scope num_scope.

Section Gps.
Context {G : Trig T}.

Definition haversine_distance_km (lat1 lon1 lat2 lon2 : T) : T :=
  let R := lit 6371.0 in
  let p1 := np_radians lat1 in
  let p2 := np_radians lat2 in
  let dphi := np_radians (lat2 - lat1) in
  let dl := np_radians (lon2 - lon1) in
  let sq x := x * x in                                   (* x ** 2 *)
  let a := sq (np_sin (dphi / lit 2.0))
           + np_cos p1 * np_cos p2 * sq (np_sin (dl / lit 2.0)) in
  let c := of_int 2 * np_arctan2 (np_sqrt a) (np_sqrt (of_int 1 - a)) in
  R * c.

(** The array form of [haversine_distance_km]: one distance per pair of
    consecutive rows. *)
Definition haversine_steps_km (lat lon : list T) : list T :=
  zip_with (fun p q => haversine_distance_km (fst p) (snd p) (fst q) (snd q))
    (combine (removelast lat) (removelast lon))
    (combine (tl lat) (tl lon)).

Definition track_distance_speed_from_gps (pos : PosLog T) : T * list T :=
  let lat := map (@latitude T) (rows pos) in
  let lon := map (@longitude T) (rows pos) in
  let ts := map (@timestamp T) (rows pos) in
  if (List.length lat <? 2)%nat then
    (lit 0.0, map (fun _ => lit 0.0) lat)
  else
    let d_km := haversine_steps_km lat lon in
    let d_m := map (fun d => d * lit 1000.0) d_km in
    let dt_s :=
      map (fun d => np_maximum (lit 1e-6) (of_int d / lit 1000.0))
        (int64_diff ts) in
    let speed_ms := lit 0.0 :: zip_with div d_m dt_s in
    let total_km := np_nansum d_km in
    (total_km, speed_ms).
End Gps.

Definition floors_from_gain (gain_m : T) : T := gain_m / lit 3.0.

Definition elevation_gain_m (pos : PosLog T) : T :=
  if has_altitude pos then
    let alt := map (@altitude T) (rows pos) in
    let diffs := np_diff alt in
    match diffs with
    | [] => lit 0.0
    | _ => np_sum (map (np_maximum (lit 0.0)) diffs)
    end
  else lit 0.0.

Definition avg_speed_kmh (total_km : T) (pos : PosLog T) : T :=
  let ts := map (@timestamp T) (rows pos) in
  match ts with
  | [] | [_] => nan
  | t0 :: _ =>
      let duration_h :=
        of_int (int64_sub (last ts t0) t0) / lit 1000.0 / lit 3600.0 in
      if duration_h <=? lit 0 then nan else total_km / duration_h
  end.

Definition minutes_from_pos (pos : PosLog T) : T :=
  let ts := map (@timestamp T) (rows pos) in
  match ts with
  | [] | [_] => lit 0.0
  | t0 :: _ => of_int (int64_sub (last ts t0) t0) / lit 1000.0 / lit 60.0
  end.

Definition met_for_activity (activity : string) (avg_speed_kmh_val : T) : T :=
  if String.eqb activity "sitting/idle" then lit 1.5
  else if String.eqb activity "walking" then
    py_max (lit 3.0) (py_min (lit 5.0)
      (lit 3.0 + lit 0.4 * (avg_speed_kmh_val - lit 3)))
  else if String.eqb activity "running" then
    py_max (lit 7.0) (py_min (lit 12.0) (lit 6.0 + lit 0.6 * avg_speed_kmh_val))
  else if String.eqb activity "cycling" then
    py_max (lit 6.0) (py_min (lit 12.0) (lit 2.0 + lit 0.5 * avg_speed_kmh_val))
  else if String.eqb activity "stairs" then lit 8.0
  else lit 3.5.

Definition calories_from_met (met minutes weight_kg : T) : T :=
  met * lit 3.5 * weight_kg / lit 200.0 * py_max (lit 0.0) minutes.

Definition estimate_life_expectancy_gain (weekly_met_min : T) : T :=
  let w := weekly_met_min in
  if negb (isfinite w) || (w <=? lit 0) then lit 0.0
  else if w <? lit 150 then lit 0.5 * (w / lit 150.0)
  else if w <? lit 300 then lit 1.0 + (w - lit 150.0) / lit 150.0 * lit 2.0
  else if w <? lit 600 then lit 3.0 + (w - lit 300.0) / lit 300.0 * lit 1.2
  else
    let extra := py_min (w - lit 600.0) (lit 900.0) in
    lit 4.2 + (extra / lit 900.0) * lit 2.5.
End Metrics.

(** ** activity.py *)

Section Activity.
Context {T : Type} {N : Num T}.
Local Open Scope num_scope.

Definition guess_activity (avg_speed_kmh : T) : string :=
  if negb (isfinite avg_speed_kmh) || (avg_speed_kmh <? lit 1.5)
  then "sitting/idle"
  else if avg_speed_kmh <? lit 6.0 then "walking"
  else if avg_speed_kmh <? lit 12.0 then "running"
  else "cycling".

(** The loop of [ema]: [prev] is [y[i - 1]]. *)
Fixpoint ema_from (prev : T) (values : list T) (alpha : T) : list T :=
  match values with
  | [] => []
  | v :: values' =>
      let y := alpha * v + (lit 1.0 - alpha) * prev in
      y :: ema_from y values' alpha
  end.

Definition ema (values : list T) (alpha : T) : list T :=
  match values with
  | [] => []
  | v0 :: values' => v0 :: ema_from v0 values' alpha
  end.

(** [None] stands for the exception [round] raises on a non-finite
    quotient (a horizon too large for a float makes the quotient
    non-finite as well). *)
Definition predict_speed_next_kmh
    (speed_kmh : list T) (dt_sec : T) (horizon_sec : Z) : option T :=
  if (List.length speed_kmh <? 6)%nat || (dt_sec <=? lit 0) then Some nan
  else
    let alpha := py_min (lit 0.5) (py_max (lit 0.05) (dt_sec / lit 5.0)) in
    let smooth := ema speed_kmh alpha in
    let x := tl smooth in
    let y := removelast smooth in
    let denom := np_dot y y + lit 1e-12 in
    let phi := np_dot y x / denom in
    match py_round (of_int horizon_sec / py_max (lit 0.1) dt_sec) with
    | None => None
    | Some r =>
        let steps := Z.max 1 r in
        let s := last smooth nan in
        let mean_tail :=
          np_mean (skipn (List.length smooth - 50) smooth) in
        let s :=
          Nat.iter (Z.to_nat steps)
            (fun s => phi * s + (lit 1.0 - phi) * mean_tail) s in
        Some (py_max (lit 0.0) s)
    end.
End Activity.

(** ** app.py: the body of the per-session loop *)

(** [str.strip] and [str.lower] on ASCII text. *)
Definition is_space (c : ascii) : bool :=
  let n := nat_of_ascii c in
  ((9 <=? n) && (n <=? 13) || (28 <=? n) && (n <=? 32))%nat.

Definition lower_char (c : ascii) : ascii :=
  let n := nat_of_ascii c in
  if ((65 <=? n) && (n <=? 90))%nat then ascii_of_nat (n + 32) else c.

Fixpoint lstrip (s : string) : string :=
  match s with
  | EmptyString => EmptyString
  | String c s' => if is_space c then lstrip s' else s
  end.

Fixpoint rstrip (s : string) : string :=
  match s with
  | EmptyString => EmptyString
  | String c s' =>
      match rstrip s' with
      | EmptyString => if is_space c then EmptyString else String c EmptyString
      | r => String c r
      end
  end.

Definition strip (s : string) : string := rstrip (lstrip s).

Fixpoint lower (s : string) : string :=
  match s with
  | EmptyString => EmptyString
  | String c s' => String (lower_char c) (lower s')
  end.

(** [n in (...)] for a tuple of strings. *)
Definition str_in (n : string) (names : list string) : bool :=
  existsb (String.eqb n) names.

Definition normalize_activity (name : string) : string :=
  let n := lower (strip name) in
  if str_in n ["stairs"; "stair"; "stairclimb"; "stair climbing"] then "stairs"
  else if str_in n ["running"; "run"; "jogging"] then "running"
  else if str_in n ["walking"; "walk"] then "walking"
  else if str_in n ["sitting/idle"; "idle"; "rest"; "sitting"] then "sitting"
  else "walking".

(** [np.median] of an integer array, as a float. *)
Fixpoint insert_sorted (z : Z) (l : list Z) : list Z :=
  match l with
  | [] => [z]
  | y :: l' => if (z <=? y)%Z then z :: l else y :: insert_sorted z l'
  end.

Definition sort_ints (l : list Z) : list Z := fold_right insert_sorted [] l.

Record SummaryRow (T : Type) : Type := {
  r_activity : string;
  r_duration_min : T;
  r_distance_km : T;
  r_elevation_gain_m : T;
  r_floors : T;
  r_avg_speed_kmh : T;
  r_met : T;
  r_met_minutes : T;
  r_calories_kcal : T;
  r_estimated_steps : Z;
  r_pred_next_30s_speed_kmh : T
}.

Arguments r_activity {T} _.
Arguments r_duration_min {T} _.
Arguments r_distance_km {T} _.
Arguments r_elevation_gain_m {T} _.
Arguments r_floors {T} _.
Arguments r_avg_speed_kmh {T} _.
Arguments r_met {T} _.
Arguments r_met_minutes {T} _.
Arguments r_calories_kcal {T} _.
Arguments r_estimated_steps {T} _.
Arguments r_pred_next_30s_speed_kmh {T} _.

Section App.
Context {T : Type} {N : Num T}.
Local Open Scope num_scope.

Definition np_median (l : list Z) : T :=
  let s := sort_ints l in
  let n := List.length s in
  match s with
  | [] => nan
  | _ =>
      if Nat.odd n then of_int (nth (n / 2) s 0%Z)
      else (of_int (nth (n / 2 - 1) s 0%Z) + of_int (nth (n / 2) s 0%Z))
           / of_int 2
  end.

Definition floors_per_min (floors minutes : T) : T :=
  if minutes >? lit 0 then floors / minutes else lit 0.0.

(** The classification of a session: stairs when the vertical rate is at
    least one floor per minute and the session is not fast, else the
    speed band. *)
Definition act_raw (avg_kmh floors_per_min : T) : string :=
  if isfinite floors_per_min && (floors_per_min >=? lit 1.0)
     && (negb (isfinite avg_kmh) || (avg_kmh <? lit 6.0))
  then "stairs"
  else guess_activity avg_kmh.

(** [int(round(x))]. *)
Definition est_steps (act : string) (km floors : T) : option Z :=
  if String.eqb act "walking" then py_round (km * of_int 1300)
  else if String.eqb act "running" then py_round (km * of_int 1000)
  else if String.eqb act "stairs" then py_round (floors * of_int 16)
  else py_round (km * of_int 1200).

(** Everything the loop body derives from the metrics of one session. *)
Definition session_row
    (total_km gain_m avg_kmh minutes weight : T) (pred30 : T)
  : option (SummaryRow T) :=
  let floors := floors_from_gain gain_m in
  let act := normalize_activity (act_raw avg_kmh (floors_per_min floors minutes)) in
  let met := met_for_activity act avg_kmh in
  match est_steps act total_km floors with
  | None => None
  | Some steps =>
      let kcal := calories_from_met met minutes weight in
      Some {| r_activity := act;
              r_duration_min := minutes;
              r_distance_km := total_km;
              r_elevation_gain_m := gain_m;
              r_floors := floors;
              r_avg_speed_kmh := avg_kmh;
              r_met := met;
              r_met_minutes := met * minutes;
              r_calories_kcal := kcal;
              r_estimated_steps := steps;
              r_pred_next_30s_speed_kmh := pred30 |}
  end.

(** One iteration of the loop over sessions, for a non-empty [pos]:
    the metrics of the track, then the row; [None] when [round] raises. *)
Definition summarize {G : Trig T} (pos : PosLog T) (weight : T)
  : option (SummaryRow T) :=
  let '(total_km, speed_ms) := track_distance_speed_from_gps pos in
  let speed_kmh := map (fun v => v * lit 3.6) speed_ms in
  let gain_m := elevation_gain_m pos in
  let avg_kmh := avg_speed_kmh total_km pos in
  let minutes := minutes_from_pos pos in
  let dt_sec :=
    py_max (lit 0.1)
      (np_median (int64_diff (map (@timestamp T) (rows pos))) / lit 1000.0) in
  match predict_speed_next_kmh speed_kmh dt_sec 30 with
  | None => None
  | Some pred30 => session_row total_km gain_m avg_kmh minutes weight pred30
  end.
End App.

(** ** app.py: the session loop and the KPI header *)

(** The totals of the KPI header.  A pandas column sum skips NaN entries. *)
Record Kpi (T : Type) : Type := {
  k_total_min : T;
  k_total_km : T;
  k_total_gain : T;
  k_total_floors : T;
  k_total_kcal : T;
  k_total_met_min : T;
  k_weekly_projected : T;
  k_years_gained : T
}.

Arguments k_total_min {T} _.
Arguments k_total_km {T} _.
Arguments k_total_gain {T} _.
Arguments k_total_floors {T} _.
Arguments k_total_kcal {T} _.
Arguments k_total_met_min {T} _.
Arguments k_weekly_projected {T} _.
Arguments k_years_gained {T} _.

Section Header.
Context {T : Type} {N : Num T}.
Local Open Scope num_scope.

Definition kpi_header (summary : list (SummaryRow T)) : Kpi T :=
  let total_met_min := np_nansum (map (@r_met_minutes T) summary) in
  let weekly_projected := total_met_min * lit 7.0 in
  {| k_total_min := np_nansum (map (@r_duration_min T) summary);
     k_total_km := np_nansum (map (@r_distance_km T) summary);
     k_total_gain := np_nansum (map (@r_elevation_gain_m T) summary);
     k_total_floors := np_nansum (map (@r_floors T) summary);
     k_total_kcal := np_nansum (map (@r_calories_kcal T) summary);
     k_total_met_min := total_met_min;
     k_weekly_projected := weekly_projected;
     k_years_gained := estimate_life_expectancy_gain weekly_projected |}.
End Header.

(** ** plots.py *)

(** What [px.line] is handed: the two series, the axis labels, the title. *)
Record LineFigure (T : Type) : Type := {
  fig_x : list T;
  fig_y : list T;
  fig_labels : string * string;
  fig_title : string
}.

Arguments fig_x {T} _.
Arguments fig_y {T} _.
Arguments fig_labels {T} _.
Arguments fig_title {T} _.
Arguments Build_LineFigure {T} _ _ _ _.

Section Plots.
Context {T : Type} {N : Num T}.
Local Open Scope num_scope.

(** [px.line(x=..., y=...)]: series of different lengths raise
    [ValueError] ([None]). *)
Definition px_line (x y : list T) (labels : string * string) (title : string)
  : option (LineFigure T) :=
  if (List.length x =? List.length y)%nat
  then Some {| fig_x := x; fig_y := y; fig_labels := labels;
               fig_title := title |}
  else None.

(** [(ts - ts[0]) / 1000.0]; [ts[0]] raises [IndexError] ([None]) on an
    empty array. *)
Definition seconds_since_start (ts : list Z) : option (list T) :=
  match ts with
  | [] => None
  | t0 :: _ => Some (map (fun t => of_int (int64_sub t t0) / lit 1000.0) ts)
  end.

Definition plot_speed_time (pos : PosLog T) (speed_kmh : list T)
  : option (LineFigure T) :=
  let ts := map (@timestamp T) (rows pos) in
  let '(ts, speed_kmh) :=
    if negb (List.length ts =? List.length speed_kmh)%nat then
      let n := Nat.min (List.length ts) (List.length speed_kmh) in
      (firstn n ts, firstn n speed_kmh)
    else (ts, speed_kmh) in
  match seconds_since_start ts with
  | None => None
  | Some t_s =>
      px_line t_s speed_kmh ("Time (s)", "Speed (km/h)") "Speed vs Time"
  end.

(** The outer [None] is an exception, the inner one the value [None] the
    function returns for a log without altitudes. *)
Definition plot_elevation (pos : PosLog T) : option (option (LineFigure T)) :=
  if negb (has_altitude pos) then Some None
  else
    let ts := map (@timestamp T) (rows pos) in
    match seconds_since_start ts with
    | None => None
    | Some t_s =>
        option_map Some
          (px_line t_s (map (@altitude T) (rows pos))
             ("Time (s)", "Altitude (m)") "Elevation vs Time")
    end.
End Plots.

(** ** loader.py *)

(** *** Strings *)

(** [s.startswith(p)] and [s.endswith(p)]. *)
Definition startswith (s p : string) : bool := String.prefix p s.

Fixpoint endswith (s p : string) : bool :=
  String.eqb s p
  || match s with
     | EmptyString => false
     | String _ s' => endswith s' p
     end.

(** [sub in s]. *)
Fixpoint substr_in (sub s : string) : bool :=
  String.prefix sub s
  || match s with
     | EmptyString => false
     | String _ s' => substr_in sub s'
     end.

(** [s.split(sep)] for a one-character separator. *)
Fixpoint split_on (sep : ascii) (s : string) : list string :=
  match s with
  | EmptyString => [EmptyString]
  | String c s' =>
      if Ascii.eqb c sep then EmptyString :: split_on sep s'
      else
        match split_on sep s' with
        | [] => [String c EmptyString]
        | p :: ps => String c p :: ps
        end
  end.

(** The split of [s] at the last [sep] it holds, as [s.rfind(sep)] finds
    it; [None] when there is none. *)
Fixpoint rsplit1 (sep : ascii) (s : string) : option (string * string) :=
  match s with
  | EmptyString => None
  | String c s' =>
      match rsplit1 sep s' with
      | Some (a, b) => Some (String c a, b)
      | None => if Ascii.eqb c sep then Some (EmptyString, s') else None
      end
  end.

Fixpoint all_dots (s : string) : bool :=
  match s with
  | EmptyString => true
  | String c s' => Ascii.eqb c "." && all_dots s'
  end.

(** *** The path functions of [os.path] *)

Class OsPath : Type := {
  os_path_join : string -> string -> string;
  os_path_basename : string -> string;
  os_path_splitext : string -> string * string
}.

(** [posixpath.join], [posixpath.basename] and [posixpath.splitext]. *)
Definition posix_join (a b : string) : string :=
  if startswith b "/" then b
  else if String.eqb a "" || endswith a "/" then a ++ b
  else a ++ "/" ++ b.

Definition posix_basename (p : string) : string :=
  match rsplit1 "/" p with
  | Some (_, name) => name
  | None => p
  end.

(** The extension starts at the last dot of the file name, unless only
    dots precede it. *)
Definition posix_splitext (p : string) : string * string :=
  let '(dir, name) :=
    match rsplit1 "/" p with
    | Some (d, name) => (d ++ "/", name)
    | None => ("", p)
    end in
  match rsplit1 "." name with
  | Some (root, ext) =>
      if all_dots root then (p, "") else (dir ++ root, "." ++ ext)
  | None => (p, "")
  end.

Definition posix_OsPath : OsPath := {|
  os_path_join := posix_join;
  os_path_basename := posix_basename;
  os_path_splitext := posix_splitext
|}.

(** *** The file system *)

(** The calls that reach the file system, over its state [FS] and the
    type [D] of a data frame. *)
Class FileSystem (FS D : Type) : Type := {
  os_path_isdir : FS -> string -> bool;
  (* [None]: the listing raises [OSError] *)
  os_listdir : FS -> string -> option (list string);
  (* the state after [ZipFile(zip_path).extractall(out_dir)] was tried,
     whether it raised or not *)
  zip_extractall : FS -> string -> string -> FS;
  (* [None]: the read raises *)
  pd_read_csv : FS -> string -> option D
}.

Record Session (D : Type) : Type := {
  s_folder : string;
  s_session_key : string;
  s_files : list string;
  s_pos : option D;
  s_accel : option D;
  s_orient : option D;
  s_angvel : option D;
  s_magfield : option D
}.

Arguments s_folder {D} _.
Arguments s_session_key {D} _.
Arguments s_files {D} _.
Arguments s_pos {D} _.
Arguments s_accel {D} _.
Arguments s_orient {D} _.
Arguments s_angvel {D} _.
Arguments s_magfield {D} _.
Arguments Build_Session {D} _ _ _ _ _ _ _ _.

(** [sorted(set(l))]: one copy of each string, in increasing order. *)
Fixpoint insert_string (x : string) (l : list string) : list string :=
  match l with
  | [] => [x]
  | y :: l' => if String.leb x y then x :: l else y :: insert_string x l'
  end.

Definition sorted_set (l : list string) : list string :=
  fold_right insert_string [] (nodup string_dec l).

(** [groups.setdefault(key, []).append(path)] on a dict kept in insertion
    order. *)
Fixpoint setdefault_append (groups : list (string * list string))
    (key path : string) : list (string * list string) :=
  match groups with
  | [] => [(key, [path])]
  | (k, paths) :: groups' =>
      if String.eqb k key then (k, (paths ++ [path])%list) :: groups'
      else (k, paths) :: setdefault_append groups' key path
  end.

Section Loader.
Context {P : OsPath}.

(** The key of the loop body of [_group_by_session]. *)
Definition session_key_of (path : string) : string :=
  let base := os_path_basename path in
  let stem := fst (os_path_splitext base) in
  let parts := split_on "_" stem in
  let n := List.length parts in
  if (n <? 3)%nat then stem
  else nth (n - 2) parts "" ++ "_" ++ nth (n - 1) parts "".

Definition _group_by_session (csvs : list string)
  : list (string * list string) :=
  fold_left (fun groups path =>
               setdefault_append groups (session_key_of path) path)
    csvs [].

Context {FS D : Type} {W : FileSystem FS D}.

Definition unzip_one (folder : string) (fs : FS) (name : string) : FS :=
  if endswith (lower name) ".zip" then
    let zip_path := os_path_join folder name in
    let out_dir := os_path_join folder (name ++ "_unzipped") in
    if negb (os_path_isdir fs out_dir)
    then zip_extractall fs zip_path out_dir
    else fs
  else fs.

Definition _ensure_unzipped (fs : FS) (folder : string) : option FS :=
  match os_listdir fs folder with
  | None => None
  | Some names => Some (fold_left (unzip_one folder) names fs)
  end.

Definition is_sensorlog_csv (name : string) : bool :=
  startswith name "sensorlog_" && endswith name ".csv".

(** The paths [_collect_csvs] appends, before the deduplication. *)
Fixpoint collect_paths (fs : FS) (roots : list string)
  : option (list string) :=
  match roots with
  | [] => Some []
  | root :: roots' =>
      if negb (os_path_isdir fs root) then collect_paths fs roots'
      else
        match os_listdir fs root with
        | None => None
        | Some names =>
            match collect_paths fs roots' with
            | None => None
            | Some rest =>
                Some (map (os_path_join root) (filter is_sensorlog_csv names)
                      ++ rest)%list
            end
        end
  end.

Definition _collect_csvs (fs : FS) (roots : list string)
  : option (list string) :=
  option_map sorted_set (collect_paths fs roots).

Definition matches_kind (kind path : string) : bool :=
  substr_in ("_" ++ kind ++ "_") (os_path_basename path)
  || substr_in ("sensorlog_" ++ kind ++ "_") (os_path_basename path).

Fixpoint _read_if_exists (fs : FS) (files : list string) (kind : string)
  : option D :=
  match files with
  | [] => None
  | path :: files' =>
      if matches_kind kind path then pd_read_csv fs path
      else _read_if_exists fs files' kind
  end.

(** The loop over [groups.items()]: the keys seen so far and the sessions
    built so far. *)
Definition add_session (fs : FS) (folder : string)
    (st : list string * list (Session D)) (group : string * list string)
  : list string * list (Session D) :=
  let '(seen_keys, sessions) := st in
  let '(key, files) := group in
  let sess_key := folder ++ " | " ++ key in
  if str_in sess_key seen_keys then st
  else
    let sess :=
      {| s_folder := folder;
         s_session_key := sess_key;
         s_files := files;
         s_pos := _read_if_exists fs files "pos";
         s_accel := _read_if_exists fs files "accel";
         s_orient := _read_if_exists fs files "orient";
         s_angvel := _read_if_exists fs files "angvel";
         s_magfield := _read_if_exists fs files "magfield" |} in
    (sess_key :: seen_keys, (sessions ++ [sess])%list).

(** The sub-directories of [folder] that hold unzipped archives. *)
Definition unzipped_roots (fs : FS) (folder : string) (names : list string)
  : list string :=
  map (os_path_join folder)
    (filter (fun d => endswith d "_unzipped"
                      && os_path_isdir fs (os_path_join folder d)) names).

(** One iteration of the loop over [input_folders]. *)
Definition load_folder (fs : FS) (st : list string * list (Session D))
    (folder : string) : option (FS * (list string * list (Session D))) :=
  if negb (os_path_isdir fs folder) then Some (fs, st)
  else
    match _ensure_unzipped fs folder with
    | None => None
    | Some fs1 =>
        match os_listdir fs1 folder with
        | None => None
        | Some names =>
            let roots := folder :: unzipped_roots fs1 folder names in
            match _collect_csvs fs1 roots with
            | None => None
            | Some [] => Some (fs1, st)
            | Some csvs =>
                Some (fs1,
                      fold_left (add_session fs1 folder)
                        (_group_by_session csvs) st)
            end
        end
    end.

Fixpoint load_loop (fs : FS) (st : list string * list (Session D))
    (input_folders : list string) : option (FS * list (Session D)) :=
  match input_folders with
  | [] => Some (fs, snd st)
  | folder :: input_folders' =>
      match load_folder fs st folder with
      | None => None
      | Some (fs', st') => load_loop fs' st' input_folders'
      end
  end.

(** [None] when a directory listing raises; else the file system the
    unzipping leaves and the sessions. *)
Definition load_sessions (fs : FS) (input_folders : list string)
  : option (FS * list (Session D)) :=
  load_loop fs ([], []) input_folders.
End Loader.

(** ** app.py: from the form to the session rows *)

(** [str.splitlines] on ASCII text: a line ends at LF, VT, FF, CR, FS, GS
    or RS, and CR LF counts once. *)
Definition is_linebreak (c : ascii) : bool :=
  let n := nat_of_ascii c in
  ((10 <=? n) && (n <=? 13) || (28 <=? n) && (n <=? 30))%nat.

Fixpoint splitlines (s : string) : list string :=
  match s with
  | EmptyString => []
  | String c s' =>
      if is_linebreak c then
        EmptyString ::
        match s' with
        | String c' s'' =>
            if Ascii.eqb c "013" && Ascii.eqb c' "010" then splitlines s''
            else splitlines s'
        | EmptyString => []
        end
      else
        match splitlines s' with
        | [] => [String c EmptyString]
        | line :: lines => String c line :: lines
        end
  end.

(** [[line.strip() for line in folder_text.splitlines() if line.strip()]]. *)
Definition parse_folders (folder_text : string) : list string :=
  map strip
    (filter (fun line => negb (String.eqb (strip line) ""))
       (splitlines folder_text)).

Section SessionLoop.
Context {T : Type} {N : Num T} {G : Trig T}.

(** The rows of [summary_rows], each with its ['session'] entry; a session
    without a position log, or with an empty one, is skipped.  [None]
    when the body raises. *)
Fixpoint summary_rows (sessions : list (Session (PosLog T))) (weight : T)
  : option (list (string * SummaryRow T)) :=
  match sessions with
  | [] => Some []
  | sess :: sessions' =>
      match s_pos sess with
      | None => summary_rows sessions' weight
      | Some pos =>
          match rows pos with
          | [] => summary_rows sessions' weight
          | _ =>
              match summarize pos weight with
              | None => None
              | Some row =>
                  option_map (cons (s_session_key sess, row))
                    (summary_rows sessions' weight)
              end
          end
      end
  end.

(** [summary[summary['session'] == key].iloc[0]]; [None] is the
    [IndexError] of an empty selection. *)
Definition row_of_session (summary : list (string * SummaryRow T))
    (key : string) : option (SummaryRow T) :=
  option_map snd (find (fun r => String.eqb (fst r) key) summary).
End SessionLoop.

(** The badge of a session in the sessions tab,
    [{'walking': ..., ...}.get(act, act)]; the emoji of the source are
    kept byte for byte. *)
Definition bytes (l : list nat) : string :=
  string_of_list_ascii (map ascii_of_nat l).

Definition badges : list (string * string) :=
  [ ("walking", bytes [195; 176; 197; 184; 197; 184; 194; 169]%nat ++ " walking");
    ("stairs", bytes [195; 176; 197; 184; 197; 184; 194; 170]%nat ++ " stairs");
    ("running", bytes [195; 176; 197; 184; 197; 184; 194; 165]%nat ++ " running");
    ("cycling", bytes [195; 176; 197; 184; 197; 184; 194; 166]%nat ++ " cycling");
    ("sitting/idle", bytes [195; 162; 194; 172; 197; 147]%nat ++ " idle") ].

Definition badge (act : string) : string :=
  match find (fun entry => String.eqb (fst entry) act) badges with
  | Some entry => snd entry
  | None => act
  end.

(** ** The binary64 instance *)

Module Binary64.

(** Conversion of an integer: the nearest binary64 value, ties to even. *)
Definition of_Z (z : Z) : float :=
  SF2Prim (binary_normalize prec emax z 0 false).

(** A decimal literal [n/d] with [n] and [d] below [2^53]: the correctly
    rounded quotient of two exact values is the nearest binary64 value. *)
Definition of_Q (q : Q) : float :=
  PrimFloat.div (of_Z (Qnum q)) (of_Z (Zpos (Qden q))).

(** [round(x)] to an integer, ties to even; [None] where Python raises. *)
Definition round_half_even (x : float) : option Z :=
  match Prim2SF x with
  | S754_zero _ => Some 0%Z
  | S754_infinity _ | S754_nan => None
  | S754_finite s m e =>
      let mag :=
        match e with
        | Zneg p =>
            let d := Z.pow_pos 2 p in
            let q := (Zpos m / d)%Z in
            let r := (Zpos m mod d)%Z in
            match (2 * r ?= d)%Z with
            | Lt => q
            | Gt => (q + 1)%Z
            | Eq => if Z.even q then q else (q + 1)%Z
            end
        | _ => (Zpos m * 2 ^ e)%Z
        end in
      Some (if s then (- mag)%Z else mag)
  end.

#[export] Instance float_Num : Num float := {
  lit := of_Q;
  of_int := of_Z;
  nan := PrimFloat.nan;
  add := PrimFloat.add;
  sub := PrimFloat.sub;
  mul := PrimFloat.mul;
  div := PrimFloat.div;
  ltb := PrimFloat.ltb;
  leb := PrimFloat.leb;
  isfinite := PrimFloat.is_finite;
  isnan := PrimFloat.is_nan;
  py_round := round_half_even
}.

End Binary64.
Export Binary64.

(** ** The exact instance: extended reals *)

Module Exact.

Inductive xreal : Type :=
| Fin (r : R)
| PosInf
| NegInf
| Nan.

Local Open Scope R_scope.

Definition Rltb (a b : R) : bool := if Rlt_dec a b then true else false.
Definition Rleb (a b : R) : bool := if Rle_dec a b then true else false.

Definition xadd (a b : xreal) : xreal :=
  match a, b with
  | Nan, _ | _, Nan => Nan
  | Fin x, Fin y => Fin (x + y)
  | PosInf, NegInf | NegInf, PosInf => Nan
  | PosInf, _ | _, PosInf => PosInf
  | NegInf, _ | _, NegInf => NegInf
  end.

Definition xsub (a b : xreal) : xreal :=
  match a, b with
  | Nan, _ | _, Nan => Nan
  | Fin x, Fin y => Fin (x - y)
  | PosInf, PosInf | NegInf, NegInf => Nan
  | PosInf, _ | _, NegInf => PosInf
  | NegInf, _ | _, PosInf => NegInf
  end.

(** The infinity with the sign of [x]; Nan for zero. *)
Definition signed_inf (x : R) (positive : xreal) (negative : xreal) : xreal :=
  if Rltb 0 x then positive else if Rltb x 0 then negative else Nan.

Definition xmul (a b : xreal) : xreal :=
  match a, b with
  | Nan, _ | _, Nan => Nan
  | Fin x, Fin y => Fin (x * y)
  | Fin x, PosInf | PosInf, Fin x => signed_inf x PosInf NegInf
  | Fin x, NegInf | NegInf, Fin x => signed_inf x NegInf PosInf
  | PosInf, PosInf | NegInf, NegInf => PosInf
  | PosInf, NegInf | NegInf, PosInf => NegInf
  end.

(** NumPy division; a zero divisor counts as [+0]. *)
Definition xdiv (a b : xreal) : xreal :=
  match a, b with
  | Nan, _ | _, Nan => Nan
  | Fin x, Fin y =>
      if Req_dec_T y 0 then signed_inf x PosInf NegInf else Fin (x / y)
  | Fin _, (PosInf | NegInf) => Fin 0
  | (PosInf | NegInf), (PosInf | NegInf) => Nan
  | PosInf, Fin y => if Rltb y 0 then NegInf else PosInf
  | NegInf, Fin y => if Rltb y 0 then PosInf else NegInf
  end.

Definition xltb (a b : xreal) : bool :=
  match a, b with
  | Nan, _ | _, Nan => false
  | Fin x, Fin y => Rltb x y
  | NegInf, (Fin _ | PosInf) | Fin _, PosInf => true
  | _, _ => false
  end.

Definition xleb (a b : xreal) : bool :=
  match a, b with
  | Nan, _ | _, Nan => false
  | Fin x, Fin y => Rleb x y
  | NegInf, _ | _, PosInf => true
  | _, _ => false
  end.

Definition xisfinite (a : xreal) : bool :=
  match a with Fin _ => true | _ => false end.

Definition xisnan (a : xreal) : bool :=
  match a with Nan => true | _ => false end.

(** [round]: the nearest integer, ties to the even one. *)
Definition Rround_half_even (r : R) : Z :=
  let f := Int_part r in
  let d := r - IZR f in
  if Rltb d (1 / 2) then f
  else if Rltb (1 / 2) d then (f + 1)%Z
  else if Z.even f then f else (f + 1)%Z.

Definition xround (a : xreal) : option Z :=
  match a with
  | Fin r => Some (Rround_half_even r)
  | _ => None
  end.

#[export] Instance xreal_Num : Num xreal := {
  lit q := Fin (Q2R q);
  of_int z := Fin (IZR z);
  nan := Nan;
  add := xadd;
  sub := xsub;
  mul := xmul;
  div := xdiv;
  ltb := xltb;
  leb := xleb;
  isfinite := xisfinite;
  isnan := xisnan;
  py_round := xround
}.

(** [np.arctan2(y, x)] on finite arguments: the angle of the point
    [(x, y)], in [(-PI, PI]]. *)
Definition Ratan2 (y x : R) : R :=
  if Rltb 0 x then Ratan.atan (y / x)
  else if Rltb x 0 then
    if Rltb y 0 then Ratan.atan (y / x) - PI else Ratan.atan (y / x) + PI
  else if Rltb 0 y then PI / 2
  else if Rltb y 0 then - PI / 2
  else 0.

Definition xarctan2 (y x : xreal) : xreal :=
  match y, x with
  | Nan, _ | _, Nan => Nan
  | Fin y, Fin x => Fin (Ratan2 y x)
  | Fin y, PosInf => Fin 0
  | Fin y, NegInf => if Rltb y 0 then Fin (- PI) else Fin PI
  | PosInf, Fin _ => Fin (PI / 2)
  | NegInf, Fin _ => Fin (- PI / 2)
  | PosInf, PosInf => Fin (PI / 4)
  | NegInf, PosInf => Fin (- PI / 4)
  | PosInf, NegInf => Fin (3 * PI / 4)
  | NegInf, NegInf => Fin (- 3 * PI / 4)
  end.

#[export] Instance xreal_Trig : Trig xreal := {
  np_radians a := xmul a (Fin (PI / 180));
  np_sin a := match a with Fin x => Fin (Rtrigo_def.sin x) | _ => Nan end;
  np_cos a := match a with Fin x => Fin (Rtrigo_def.cos x) | _ => Nan end;
  np_sqrt a :=
    match a with
    | Fin x => if Rltb x 0 then Nan else Fin (R_sqrt.sqrt x)
    | PosInf => PosInf
    | _ => Nan
    end;
  np_arctan2 := xarctan2
}.

End Exact.
Export Exact.

(** ** Notions used in the statements *)

(** The real value of a finite result. *)
Definition value_of (x : xreal) : R :=
  match x with
  | Fin r => r
  | _ => 0%R
  end.

(** [f] tends to [l] as its argument tends to [a] from below. *)
Definition left_limit (f : xreal -> xreal) (a l : R) : Prop :=
  forall eps : R, (0 < eps)%R ->
  exists delta : R, (0 < delta)%R /\
    forall w : R, (a - delta < w < a)%R ->
      (Rabs (value_of (f (Fin w)) - l) < eps)%R.

(** [f] is continuous from the left at [a]. *)
Definition left_continuous_at (f : xreal -> xreal) (a : R) : Prop :=
  left_limit f a (value_of (f (Fin a))).

(** The binary64 value [+0.0], bit by bit. *)
Definition sf_zero : spec_float := S754_zero false.

(** Neither an infinity nor NaN. *)
Definition sf_is_finite (f : spec_float) : bool :=
  match f with
  | S754_zero _ | S754_finite _ _ _ => true
  | _ => false
  end.

(** What the haversine needs of a binary64 math library: [np.radians],
    [np.sin] and [np.arctan2] are exact at zero, as IEEE 754 and C require,
    a cosine has magnitude at most 1, and [np.sqrt] is the correctly
    rounded square root. *)
Record libm_exact_at_zero (G : Trig float) : Prop := {
  radians_zero : np_radians 0%float = 0%float;
  sin_zero : np_sin 0%float = 0%float;
  cos_bounded : forall x : float, PrimFloat.leb (abs (np_cos x)) 1 = true;
  sqrt_ieee : forall x : float, np_sqrt x = PrimFloat.sqrt x;
  arctan2_zero : np_arctan2 0%float 1%float = 0%float
}.

(** The sum of the rises between consecutive altitudes, starting at [a]. *)
Fixpoint climb (a : R) (alts : list R) : R :=
  match alts with
  | [] => 0
  | b :: alts' => Rmax 0 (b - a) + climb b alts'
  end.

(** What the loop of [_group_by_session] keeps true of the paths [l] read
    so far, [f] giving the key of a path: the keys of the dict are
    distinct, the group of a key is the paths of [l] with this key, in
    their order, and the key of every path of [l] is in the dict. *)
Definition grouped (f : string -> string) (l : list string)
    (g : list (string * list string)) : Prop :=
  NoDup (map fst g)
  /\ (forall k fs, In (k, fs) g ->
        fs <> [] /\ fs = filter (fun p => String.eqb (f p) k) l)
  /\ (forall p, In p l -> In (f p) (map fst g)).

Section LoaderNotions.
Context {P : OsPath} {D : Type}.

(** A session as [load_sessions] builds them from [input_folders]: its
    folder is one of them, its key is the folder, [" | "] and the key its
    files share, and each file is a [sensorlog_*.csv] entry of the folder
    or of one of its [*_unzipped] entries. *)
Definition session_wf (input_folders : list string) (s : Session D) : Prop :=
  In (s_folder s) input_folders
  /\ s_files s <> []
  /\ (exists key,
        s_session_key s = s_folder s ++ " | " ++ key
        /\ forall path, In path (s_files s) -> session_key_of path = key)
  /\ (forall path, In path (s_files s) ->
        exists root name,
          path = os_path_join root name
          /\ startswith name "sensorlog_" = true
          /\ endswith name ".csv" = true
          /\ (root = s_folder s
              \/ exists d, endswith d "_unzipped" = true
                           /\ root = os_path_join (s_folder s) d)).

(** The state of the loop of [load_sessions]: the session keys are
    distinct and all in [seen_keys], and every session satisfies [Q]. *)
Definition sessions_ok (Q : Session D -> Prop)
    (st : list string * list (Session D)) : Prop :=
  NoDup (map (@s_session_key D) (snd st))
  /\ (forall s, In s (snd st) -> In (s_session_key s) (fst st) /\ Q s).
End LoaderNotions.

(** No character of [chars] occurs in [s]. *)
Definition free_of (chars s : string) : bool :=
  forallb (fun c => negb (existsb (Ascii.eqb c) (list_ascii_of_string chars)))
    (list_ascii_of_string s).

(** ** Sample data *)

(** A math library of first-order approximations: [sin x] as [x], [cos x]
    as [1], [arctan2 y x] as [y / x], [np.radians] as the product by
    [pi / 180] and [np.sqrt] as the IEEE square root.  It only shows that
    [libm_exact_at_zero] can be met. *)
Definition first_order_Trig : Trig float := {|
  np_radians x := PrimFloat.mul x (PrimFloat.div 3.141592653589793 180);
  np_sin x := x;
  np_cos _ := 1%float;
  np_sqrt := PrimFloat.sqrt;
  np_arctan2 y x := PrimFloat.div y x
|}.

(** A single-sample log, read in the exact instance. *)
Definition one_sample_log : PosLog xreal :=
  {| rows := [ {| timestamp := 1700000000000; latitude := Fin 48;
                  longitude := Fin 2; altitude := Fin 35 |} ];
     has_altitude := true |}.

Definition empty_log : PosLog xreal :=
  {| rows := []; has_altitude := false |}.

(** A log of two samples, 2.5 seconds and one metre of climb apart. *)
Definition two_sample_log : PosLog float :=
  {| rows := [ {| timestamp := 1000; latitude := 48; longitude := 2;
                  altitude := 35 |};
               {| timestamp := 3500; latitude := 48; longitude := 2;
                  altitude := 36 |} ]%float;
     has_altitude := true |}.

(** A file system as the list of its directories, each with the names it
    holds; an archive extracts to an empty directory, and [read] says what
    a path reads as. *)
Definition toy_FileSystem {D : Type} (read : string -> option D)
  : FileSystem (list (string * list string)) D := {|
  os_path_isdir fs d := existsb (fun e => String.eqb (fst e) d) fs;
  os_listdir fs d := option_map snd (find (fun e => String.eqb (fst e) d) fs);
  zip_extractall fs _ out_dir := (fs ++ [(out_dir, [])])%list;
  pd_read_csv _ path := read path
|}.

(** Every position file reads as [two_sample_log], no other file reads. *)
Definition read_two_samples (path : string) : option (PosLog float) :=
  if substr_in "_pos_" path then Some two_sample_log else None.

Definition toy_disk : list (string * list string) :=
  [("/data", ["sensorlog_pos_20240101_120000.csv"; "notes.txt";
              "sensorlog_accel_20240101_120000.csv"; "old.ZIP";
              "sensorlog_pos_20240102_080000.csv"])].

(** A log of 90 seconds that falls five metres and then climbs six, read
    in the exact instance. *)
Definition valley_log : PosLog xreal :=
  {| rows := [ {| timestamp := 0; latitude := Fin 48; longitude := Fin 2;
                  altitude := Fin 35 |};
               {| timestamp := 45000; latitude := Fin 48; longitude := Fin 2;
                  altitude := Fin 30 |};
               {| timestamp := 90000; latitude := Fin 48; longitude := Fin 2;
                  altitude := Fin 36 |} ];
     has_altitude := true |}.

(** * Properties *)

(** ** Literals and constants of the two instances *)

(** Distinct binary64 values are told apart by their bit-level reading. *)
Ltac float_neq :=
  let H := fresh in
  intro H; apply (f_equal Prim2SF) in H; vm_compute in H; discriminate H.

Lemma nan_is_nan :
  isnan (nan : float) = true /\ isnan (nan : xreal) = true.
Proof. split; reflexivity. Qed.

(** The literals of the source read in binary64 are the values Python
    parses. *)
Example literals_binary64 :
  (lit 6.7 : float) = 6.7%float /\ (lit 1e-12 : float) = 1e-12%float
  /\ (lit 0.05 : float) = 0.05%float /\ (lit 3.6 : float) = 3.6%float
  /\ (lit 0.4 : float) = 0.4%float /\ (lit 1e-6 : float) = 1e-6%float
  /\ (lit 6371.0 : float) = 6371%float /\ (lit 0.0 : float) = 0%float.
Proof. repeat split; vm_compute; reflexivity. Qed.

(** The concrete values the spec lists, computed in binary64. *)
Example spec_values_binary64 :
  met_for_activity "walking" 5%float = 3.8%float
  /\ calories_from_met 3.8%float 30%float 75%float = 149.625%float
  /\ estimate_life_expectancy_gain 0%float = 0%float
  /\ elevation_gain_m
       {| rows := map (fun a => {| timestamp := 0; latitude := 0%float;
                                   longitude := 0%float; altitude := a |})
                    [10; 15; 12; 20]%float;
          has_altitude := true |}
     = 13%float
  /\ guess_activity 1.4%float = "sitting/idle"
  /\ guess_activity 3%float = "walking"
  /\ guess_activity 8%float = "running"
  /\ guess_activity 15%float = "cycling"
  /\ py_round 2.5%float = Some 2%Z /\ py_round 3.5%float = Some 4%Z
  /\ py_round PrimFloat.nan = None.
Proof. repeat split; vm_compute; reflexivity. Qed.

(** ** Reasoning in the exact instance *)

Lemma Rltb_spec (a b : R) : reflect (a < b)%R (Rltb a b).
Proof. unfold Rltb. destruct (Rlt_dec a b); constructor; assumption. Qed.

Lemma Rleb_spec (a b : R) : reflect (a <= b)%R (Rleb a b).
Proof. unfold Rleb. destruct (Rle_dec a b); constructor; assumption. Qed.

Lemma xadd_Fin (a b : R) : xadd (Fin a) (Fin b) = Fin (a + b).
Proof. reflexivity. Qed.

Lemma xsub_Fin (a b : R) : xsub (Fin a) (Fin b) = Fin (a - b).
Proof. reflexivity. Qed.

Lemma xmul_Fin (a b : R) : xmul (Fin a) (Fin b) = Fin (a * b).
Proof. reflexivity. Qed.

Lemma xdiv_Fin (a b : R) : b <> 0%R -> xdiv (Fin a) (Fin b) = Fin (a / b).
Proof.
  intros Hb. unfold xdiv.
  destruct (Req_dec_T b 0); [contradiction | reflexivity].
Qed.

Lemma xltb_Fin (a b : R) : xltb (Fin a) (Fin b) = Rltb a b.
Proof. reflexivity. Qed.

Lemma xleb_Fin (a b : R) : xleb (Fin a) (Fin b) = Rleb a b.
Proof. reflexivity. Qed.

(** Literals become quotients of integer constants. *)
Ltac lit_norm :=
  repeat match goal with
  | |- context [Q2R ?q] =>
      let q' := eval vm_compute in q in
      match q' with
      | Qmake ?n ?d => change (Q2R q) with (IZR n * / IZR (Zpos d))%R
      end
  | H : context [Q2R ?q] |- _ =>
      let q' := eval vm_compute in q in
      match q' with
      | Qmake ?n ?d => change (Q2R q) with (IZR n * / IZR (Zpos d))%R in H
      end
  end.

(** Arithmetic and comparisons on finite values become real ones. *)
Ltac xnorm :=
  cbn [lit of_int nan add sub mul div ltb leb isfinite isnan py_round xreal_Num];
  lit_norm;
  repeat first
    [ rewrite xadd_Fin | rewrite xsub_Fin | rewrite xmul_Fin
    | rewrite xdiv_Fin by lra
    | rewrite xltb_Fin | rewrite xleb_Fin
    | progress cbn [xisfinite xisnan negb orb andb] ].

Ltac xsplit :=
  match goal with
  | |- context [Rltb ?a ?b] => destruct (Rltb_spec a b)
  | |- context [Rleb ?a ?b] => destruct (Rleb_spec a b)
  end.

(** Case analysis on every comparison, absurd branches closed by [lra]. *)
Ltac xauto := xnorm; repeat (xsplit; try (exfalso; lra); xnorm).

(** ** Short tracks *)

Section ShortTrack.
Context {T : Type} {N : Num T} {G : Trig T}.

Lemma map_const_repeat (A : Type) (z : T) (l : list A) :
  map (fun _ => z) l = repeat z (List.length l).
Proof. induction l as [|a l IH]; simpl; [reflexivity | now rewrite IH]. Qed.

(** C9: a track with fewer than two samples has total distance [0.0] and a
    speed series of zeros, one per sample. *)
Theorem track_short_zero (pos : PosLog T) :
  (List.length (rows pos) < 2)%nat ->
  track_distance_speed_from_gps pos
  = (lit 0.0, repeat (lit 0.0) (List.length (rows pos))).
Proof.
  intros Hlen. unfold track_distance_speed_from_gps.
  rewrite length_map.
  destruct (Nat.ltb_spec (List.length (rows pos)) 2) as [_ | Hge]; [| lia].
  now rewrite map_const_repeat, length_map.
Qed.
End ShortTrack.

Lemma track_short_zero_witness :
  track_distance_speed_from_gps one_sample_log = (lit 0.0, [lit 0.0])
  /\ track_distance_speed_from_gps empty_log = (lit 0.0, []).
Proof.
  split.
  - exact (track_short_zero one_sample_log (Nat.lt_succ_diag_r 1)).
  - exact (track_short_zero empty_log Nat.lt_0_2).
Defined.

(** ** The forecast guard *)

(** C5: with fewer than six samples or a non-positive sampling interval the
    forecast is the NaN sentinel. *)
Theorem predict_insufficient_data
    (T : Type) (N : Num T) (speed_kmh : list T) (dt_sec : T) (horizon_sec : Z) :
  (List.length speed_kmh < 6)%nat \/ (dt_sec <=? lit 0)%num = true ->
  predict_speed_next_kmh speed_kmh dt_sec horizon_sec = Some nan.
Proof.
  intros [Hlen | Hdt]; unfold predict_speed_next_kmh.
  - destruct (Nat.ltb_spec (List.length speed_kmh) 6) as [_ | Hge]; [| lia].
    reflexivity.
  - rewrite Hdt. now rewrite orb_true_r.
Qed.

Lemma predict_insufficient_data_witness :
  predict_speed_next_kmh [3; 3.5; 4; 4; 3.5]%float 1%float 30 = Some PrimFloat.nan
  /\ predict_speed_next_kmh [3; 3.5; 4; 4; 3.5; 3; 4]%float 0%float 30
     = Some PrimFloat.nan
  /\ predict_speed_next_kmh [3; 3.5; 4; 4; 3.5; 3; 4]%float (-2)%float 30
     = Some PrimFloat.nan.
Proof.
  split; [| split].
  - apply (predict_insufficient_data float float_Num [3; 3.5; 4; 4; 3.5]%float 1%float 30).
    left. simpl. lia.
  - apply (predict_insufficient_data float float_Num
             [3; 3.5; 4; 4; 3.5; 3; 4]%float 0%float 30).
    right. reflexivity.
  - apply (predict_insufficient_data float float_Num
             [3; 3.5; 4; 4; 3.5; 3; 4]%float (-2)%float 30).
    right. reflexivity.
Defined.

(** ** The life-expectancy curve *)

Section GainCurve.
Local Open Scope R_scope.

Lemma gain_first_segment (w : R) :
  0 < w < 150 ->
  estimate_life_expectancy_gain (Fin w) = Fin (0.5 * (w / 150)).
Proof.
  intros Hw. unfold estimate_life_expectancy_gain. xauto. f_equal. lra.
Qed.

Lemma gain_second_segment (w : R) :
  150 <= w < 300 ->
  estimate_life_expectancy_gain (Fin w) = Fin (1 + (w - 150) / 150 * 2).
Proof.
  intros Hw. unfold estimate_life_expectancy_gain. xauto. f_equal. lra.
Qed.

Lemma gain_at_150_exact : estimate_life_expectancy_gain (Fin 150) = lit 1.0.
Proof. rewrite gain_second_segment by lra. xnorm. f_equal. lra. Qed.

Lemma gain_left_limit_150 : left_limit estimate_life_expectancy_gain 150 (1 / 2).
Proof.
  intros eps Heps. exists (Rmin eps 150). split.
  - apply Rmin_glb_lt; lra.
  - intros w [Hlo Hhi].
    pose proof (Rmin_l eps 150). pose proof (Rmin_r eps 150).
    rewrite gain_first_segment by lra. cbn [value_of].
    apply Rabs_def1; lra.
Qed.

(** C1, as the claim states it, fails: the curve is not continuous from the
    left at 150. *)
Lemma gain_not_continuous_at_150 :
  ~ left_continuous_at estimate_life_expectancy_gain 150.
Proof.
  unfold left_continuous_at, left_limit. intros Hcont.
  destruct (Hcont (1 / 4)) as (delta & Hdelta & Hnear); [lra |].
  assert (Hw : 150 - Rmin delta 150 / 2 < 150 /\ 0 < 150 - Rmin delta 150 / 2
               /\ 150 - delta < 150 - Rmin delta 150 / 2).
  { pose proof (Rmin_l delta 150). pose proof (Rmin_r delta 150).
    assert (0 < Rmin delta 150) by (apply Rmin_glb_lt; lra). lra. }
  destruct Hw as (Hw1 & Hw2 & Hw3).
  specialize (Hnear (150 - Rmin delta 150 / 2) (conj Hw3 Hw1)).
  rewrite gain_first_segment in Hnear by lra.
  rewrite gain_second_segment in Hnear by lra.
  cbn [value_of] in Hnear.
  apply Rabs_def2 in Hnear. lra.
Qed.

(** C1, amended: the value at 150 is exactly [1.0], in exact arithmetic and
    in binary64; below 150 the curve is [0.5 * (w / 150)], which stays under
    [0.5] and tends to [0.5], so the curve jumps by [0.5] at 150. *)
Theorem gain_at_150_jump :
  estimate_life_expectancy_gain (Fin 150) = lit 1.0
  /\ estimate_life_expectancy_gain 150%float = 1%float
  /\ (forall w : R, 0 < w < 150 ->
        estimate_life_expectancy_gain (Fin w) = Fin (0.5 * (w / 150))
        /\ 0.5 * (w / 150) < 0.5)
  /\ left_limit estimate_life_expectancy_gain 150 (1 / 2).
Proof.
  split; [exact gain_at_150_exact |].
  split; [vm_compute; reflexivity |].
  split; [| exact gain_left_limit_150].
  intros w Hw. split; [now apply gain_first_segment | lra].
Qed.

Lemma gain_at_150_jump_witness :
  estimate_life_expectancy_gain (Fin 120) = Fin (0.5 * (120 / 150))
  /\ 0.5 * (120 / 150) < 0.5.
Proof.
  destruct gain_at_150_jump as (_ & _ & Hseg & _).
  apply (Hseg 120). lra.
Defined.

(** The largest binary64 value below 150 is mapped just under 0.5. *)
Example gain_below_150_binary64 :
  estimate_life_expectancy_gain 149.99999999999997%float
  = 0.49999999999999989%float.
Proof. vm_compute. reflexivity. Qed.

Lemma gain_third_segment (w : R) :
  300 <= w < 600 ->
  estimate_life_expectancy_gain (Fin w) = Fin (3 + (w - 300) / 300 * 1.2).
Proof.
  intros Hw. unfold estimate_life_expectancy_gain. xauto. f_equal. lra.
Qed.

Lemma gain_fourth_segment (w : R) :
  600 <= w <= 1500 ->
  estimate_life_expectancy_gain (Fin w) = Fin (4.2 + (w - 600) / 900 * 2.5).
Proof.
  intros Hw. unfold estimate_life_expectancy_gain, py_min.
  xauto; f_equal; lra.
Qed.

(** At the breakpoints 300 and 600 the segments do meet. *)
Lemma gain_continuous_at_300_600 :
  left_continuous_at estimate_life_expectancy_gain 300
  /\ left_continuous_at estimate_life_expectancy_gain 600.
Proof.
  unfold left_continuous_at, left_limit. split; intros eps Heps.
  - exists (Rmin (75 * eps) 150). split; [apply Rmin_glb_lt; lra |].
    intros w [Hlo Hhi].
    pose proof (Rmin_l (75 * eps) 150). pose proof (Rmin_r (75 * eps) 150).
    rewrite gain_second_segment by lra. rewrite gain_third_segment by lra.
    cbn [value_of]. apply Rabs_def1; lra.
  - exists (Rmin (250 * eps) 300). split; [apply Rmin_glb_lt; lra |].
    intros w [Hlo Hhi].
    pose proof (Rmin_l (250 * eps) 300). pose proof (Rmin_r (250 * eps) 300).
    rewrite gain_third_segment by lra. rewrite gain_fourth_segment by lra.
    cbn [value_of]. apply Rabs_def1; lra.
Qed.

(** In binary64 the curve does not decrease across a breakpoint either. *)
Example gain_breakpoints_binary64 :
  estimate_life_expectancy_gain (next_down 300) = 2.9999999999999991%float
  /\ estimate_life_expectancy_gain 300%float = 3%float
  /\ estimate_life_expectancy_gain (next_down 600) = 4.1999999999999993%float
  /\ estimate_life_expectancy_gain 600%float = lit 4.2
  /\ estimate_life_expectancy_gain (next_down 1500) = 6.6999999999999993%float.
Proof. repeat split; vm_compute; reflexivity. Qed.


Lemma gain_monotone (w1 w2 : R) :
  0 < w1 -> w1 <= w2 -> w2 <= 1500 ->
  (estimate_life_expectancy_gain (Fin w1)
   <=? estimate_life_expectancy_gain (Fin w2))%num = true.
Proof.
  intros H1 H2 H3. unfold estimate_life_expectancy_gain, py_min.
  xauto; reflexivity.
Qed.

Lemma gain_saturates (w : R) :
  1500 <= w -> estimate_life_expectancy_gain (Fin w) = lit 6.7.
Proof.
  intros Hw. unfold estimate_life_expectancy_gain, py_min.
  xauto; f_equal; lra.
Qed.

Lemma gain_non_finite (T : Type) (N : Num T) (w : T) :
  isfinite w = false -> estimate_life_expectancy_gain w = lit 0.0.
Proof. intros Hw. unfold estimate_life_expectancy_gain. now rewrite Hw. Qed.



(** In binary64 the saturation value is the literal [6.7] as well. *)
Example gain_saturation_binary64 :
  estimate_life_expectancy_gain 1500%float = lit 6.7
  /\ estimate_life_expectancy_gain 250000%float = lit 6.7
  /\ estimate_life_expectancy_gain 1e308%float = lit 6.7.
Proof. repeat split; vm_compute; reflexivity. Qed.

End GainCurve.

(** ** The order of binary64 values *)

Ltac cmp_cases :=
  repeat match goal with
  | H : context [Z.compare ?x ?y] |- _ => destruct (Z.compare_spec x y)
  | |- context [Z.compare ?x ?y] => destruct (Z.compare_spec x y)
  | H : context [Pos.compare ?x ?y] |- _ => destruct (Pos.compare_spec x y)
  | |- context [Pos.compare ?x ?y] => destruct (Pos.compare_spec x y)
  end.

Lemma SFleb_not_gt (a b : spec_float) : SFleb a b = true -> SFltb b a = false.
Proof.
  unfold SFleb, SFltb, SFcompare.
  destruct a as [[] | [] | | [] ma ea], b as [[] | [] | | [] mb eb];
    try discriminate; try reflexivity;
    change (Pos.compare_cont Eq ?x ?y) with (Pos.compare x y);
    intros H; cmp_cases; subst; cbn [CompOpp] in *;
    try discriminate; try reflexivity; try lia.
Qed.

Lemma SFltb_leb_trans (a b c : spec_float) :
  SFltb a b = true -> SFleb b c = true -> SFltb a c = true.
Proof.
  unfold SFleb, SFltb, SFcompare.
  destruct a as [[] | [] | | [] ma ea], b as [[] | [] | | [] mb eb],
    c as [[] | [] | | [] mc ec];
    try discriminate; try reflexivity;
    change (Pos.compare_cont Eq ?x ?y) with (Pos.compare x y);
    intros H1 H2; cmp_cases; subst; cbn [CompOpp] in *;
    try discriminate; try reflexivity; try lia.
Qed.

Lemma float_leb_not_gt (a b : float) :
  PrimFloat.leb a b = true -> PrimFloat.ltb b a = false.
Proof. rewrite leb_spec, ltb_spec. apply SFleb_not_gt. Qed.

Lemma float_ltb_leb_trans (a b c : float) :
  PrimFloat.ltb a b = true -> PrimFloat.leb b c = true ->
  PrimFloat.ltb a c = true.
Proof. rewrite !ltb_spec, leb_spec. apply SFltb_leb_trans. Qed.

(** A value at or above [c] is not below any [c' <= c]. *)
Lemma float_not_below (x c c' : float) :
  PrimFloat.leb c x = true -> PrimFloat.leb c' c = true ->
  PrimFloat.ltb x c' = false.
Proof.
  intros Hcx Hc'c. destruct (PrimFloat.ltb x c') eqn:Hlt; [| reflexivity].
  pose proof (float_ltb_leb_trans _ _ _ Hlt Hc'c) as Hxc.
  pose proof (float_leb_not_gt _ _ Hcx) as Hnot. congruence.
Qed.

Lemma float_ltb_leb (a b : float) :
  PrimFloat.ltb a b = true -> PrimFloat.leb a b = true.
Proof.
  rewrite ltb_spec, leb_spec. unfold SFltb, SFleb.
  destruct (SFcompare (Prim2SF a) (Prim2SF b)) as [[] |]; congruence.
Qed.

Lemma is_nan_spec (x : float) : is_nan x = true <-> Prim2SF x = S754_nan.
Proof.
  unfold is_nan. rewrite eqb_spec. unfold SFeqb, SFcompare.
  destruct (Prim2SF x) as [[] | [] | | [] m e]; cbn;
    try (split; [discriminate | discriminate]);
    try (split; reflexivity);
    rewrite ?Z.compare_refl, ?Pos.compare_cont_refl; cbn;
    split; discriminate.
Qed.

(** ** Signs of binary64 products and quotients *)

Lemma binary_round_aux_nonneg (m e : Z) (l : location) :
  let r := binary_round_aux prec emax false m e l in
  r = S754_nan \/ SFleb sf_zero r = true.
Proof.
  unfold binary_round_aux.
  destruct (shr_fexp prec emax m e l) as [mrs' e'].
  destruct (shr_fexp prec emax _ e' loc_Exact) as [mrs'' e''].
  destruct (shr_m mrs'') as [| p | p]; [right | | left]; try reflexivity.
  destruct (Z.leb e'' (emax - prec)); right; reflexivity.
Qed.

(** The product of two values [>= 0] is [>= 0], or NaN (zero times
    infinity). *)
Lemma SFmul_nonneg (a b : spec_float) :
  SFleb sf_zero a = true -> SFleb sf_zero b = true ->
  SFmul prec emax a b = S754_nan \/ SFleb sf_zero (SFmul prec emax a b) = true.
Proof.
  destruct a as [[] | [] | | [] ma ea], b as [[] | [] | | [] mb eb];
    try discriminate; intros _ _;
    try (right; reflexivity); try (left; reflexivity).
  apply binary_round_aux_nonneg.
Qed.

(** The quotient of a value [>= 0] by a value [> 0] is [>= 0], or NaN
    (infinity over infinity). *)
Lemma SFdiv_nonneg (a b : spec_float) :
  SFleb sf_zero a = true -> SFltb sf_zero b = true ->
  SFdiv prec emax a b = S754_nan \/ SFleb sf_zero (SFdiv prec emax a b) = true.
Proof.
  destruct a as [[] | [] | | [] ma ea], b as [[] | [] | | [] mb eb];
    try discriminate; intros _ _;
    try (right; reflexivity); try (left; reflexivity).
  cbn [SFdiv xorb].
  match goal with
  | |- context [SFdiv_core_binary ?p ?q ?a ?b ?c ?d] =>
      destruct (SFdiv_core_binary p q a b c d) as [[mz ez] lz]
  end.
  apply binary_round_aux_nonneg.
Qed.

(** ** Products of small binary64 values do not overflow *)

Section NoOverflow.
Local Open Scope Z_scope.

Lemma digits2_pos_size (p : positive) : digits2_pos p = Pos.size p.
Proof. induction p as [p IH | p IH |]; cbn; now rewrite ?IH. Qed.

Lemma Zdigits2_bound (z k : Z) : 0 <= z < 2 ^ k -> 0 <= k -> Zdigits2 z <= k.
Proof.
  intros [Hz Hk] Hk0. destruct z as [| p | p]; cbn; [lia | | lia].
  rewrite digits2_pos_size.
  pose proof (Pos.size_le p) as Hle.
  apply Pos2Z.pos_le_pos in Hle. rewrite Pos2Z.inj_pow in Hle.
  change (Z.pos p~0) with (2 * Z.pos p) in Hle.
  assert (Hlt : 2 ^ Z.pos (Pos.size p) < 2 ^ (k + 1)).
  { replace (k + 1) with (Z.succ k) by lia. rewrite Z.pow_succ_r by lia. lia. }
  apply Z.pow_lt_mono_r_iff in Hlt; lia.
Qed.

Lemma shr_1_bound (mrs : shr_record) :
  0 <= shr_m mrs -> 0 <= shr_m (shr_1 mrs) <= shr_m mrs.
Proof.
  destruct mrs as [m r s]. cbn [shr_m]. intros Hm.
  destruct m as [| [p | p |] | p]; cbn; lia.
Qed.

Lemma iter_shr_1_bound (p : positive) (mrs : shr_record) :
  0 <= shr_m mrs -> 0 <= shr_m (iter_pos shr_1 p mrs) <= shr_m mrs.
Proof.
  revert mrs. induction p as [p IH | p IH |]; intros mrs Hm; cbn [iter_pos].
  - pose proof (shr_1_bound mrs Hm) as H1.
    pose proof (IH (shr_1 mrs) (proj1 H1)) as H2.
    pose proof (IH _ (proj1 H2)) as H3. lia.
  - pose proof (IH mrs Hm) as H2.
    pose proof (IH _ (proj1 H2)) as H3. lia.
  - now apply shr_1_bound.
Qed.

(** A right shift keeps the mantissa between zero and its old value and
    raises the exponent by the shift. *)
Lemma shr_bound (mrs : shr_record) (e n : Z) :
  0 <= shr_m mrs ->
  0 <= shr_m (fst (shr mrs e n)) <= shr_m mrs
  /\ snd (shr mrs e n) = e + Z.max n 0.
Proof.
  intros Hm. unfold shr. destruct n as [| p | p]; cbn [fst snd].
  - split; lia.
  - split; [now apply iter_shr_1_bound | lia].
  - split; lia.
Qed.

Lemma shr_record_of_loc_m (m : Z) (l : location) :
  shr_m (shr_record_of_loc m l) = m.
Proof. destruct l as [| []]; reflexivity. Qed.

Lemma round_nearest_even_bound (m : Z) (l : location) :
  m <= round_nearest_even m l <= m + 1.
Proof.
  unfold round_nearest_even. destruct l as [| []]; try lia.
  destruct (Z.even m); lia.
Qed.

Lemma fexp_binary64 (x : Z) : fexp prec emax x = Z.max (x - 53) (-1074).
Proof. reflexivity. Qed.

(** Rounding a magnitude below [2^106 * 2^-104] gives a finite value. *)
Lemma binary_round_aux_finite (s : bool) (m e : Z) (l : location) :
  0 <= m < 2 ^ 106 -> e <= -104 ->
  sf_is_finite (binary_round_aux prec emax s m e l) = true.
Proof.
  intros Hm He. unfold binary_round_aux, shr_fexp.
  set (n1 := fexp prec emax (Zdigits2 m + e) - e).
  pose proof (shr_bound (shr_record_of_loc m l) e n1) as H1.
  rewrite shr_record_of_loc_m in H1. specialize (H1 (proj1 Hm)).
  destruct (shr (shr_record_of_loc m l) e n1) as [mrs1 e1].
  cbn [fst snd] in H1. destruct H1 as [Hm1 He1].
  set (m1 := round_nearest_even (shr_m mrs1) (loc_of_shr_record mrs1)).
  pose proof (round_nearest_even_bound (shr_m mrs1) (loc_of_shr_record mrs1))
    as Hr. fold m1 in Hr.
  set (n2 := fexp prec emax (Zdigits2 m1 + e1) - e1).
  pose proof (shr_bound (shr_record_of_loc m1 loc_Exact) e1 n2) as H2.
  rewrite shr_record_of_loc_m in H2.
  assert (Hm1' : 0 <= m1) by lia. specialize (H2 Hm1').
  destruct (shr (shr_record_of_loc m1 loc_Exact) e1 n2) as [mrs2 e2].
  cbn [fst snd] in H2. destruct H2 as [Hm2 He2].
  assert (Hd : Zdigits2 m <= 106) by (apply Zdigits2_bound; lia).
  assert (Hd1 : Zdigits2 m1 <= 107).
  { apply Zdigits2_bound; [| lia].
    change (2 ^ 107) with (2 * 2 ^ 106). lia. }
  assert (Hd0 : 0 <= Zdigits2 m) by (destruct m; cbn; lia).
  assert (Hd10 : 0 <= Zdigits2 m1) by (destruct m1; cbn; lia).
  unfold n1 in He1. unfold n2 in He2. rewrite fexp_binary64 in He1, He2.
  destruct (shr_m mrs2) as [| p | p]; [reflexivity | | lia].
  destruct (Z.leb_spec e2 (emax - prec)) as [_ | Hbig]; [reflexivity |].
  change (emax - prec) with 971 in Hbig. lia.
Qed.

(** The mantissa of a binary64 value has at most 53 bits. *)
Lemma valid_mantissa (s : bool) (m : positive) (e : Z) :
  valid_binary (S754_finite s m e) = true -> Z.pos m < 2 ^ 53.
Proof.
  cbn [SpecFloat.valid_binary]. unfold bounded, canonical_mantissa.
  intros H. apply andb_prop in H. destruct H as [Hc _].
  apply Z.eqb_eq in Hc. rewrite fexp_binary64 in Hc.
  pose proof (Pos.size_gt m) as Hgt.
  apply Pos2Z.pos_lt_pos in Hgt. rewrite Pos2Z.inj_pow in Hgt.
  rewrite digits2_pos_size in Hc.
  assert (Hs : Z.pos (Pos.size m) <= 53) by lia.
  assert (2 ^ Z.pos (Pos.size m) <= 2 ^ 53) by (apply Z.pow_le_mono_r; lia).
  lia.
Qed.

(** The product of two binary64 values of magnitude at most 1 is finite. *)
Lemma SFmul_small_finite (a b : spec_float) :
  valid_binary a = true -> valid_binary b = true ->
  SFleb (SFabs a) (Prim2SF 1) = true -> SFleb (SFabs b) (Prim2SF 1) = true ->
  sf_is_finite (SFmul prec emax a b) = true.
Proof.
  change (Prim2SF 1) with (S754_finite false 4503599627370496 (-52)).
  destruct a as [sa | sa | | sa ma ea], b as [sb | sb | | sb mb eb];
    try discriminate; try reflexivity.
  intros Hva Hvb Ha Hb.
  apply valid_mantissa in Hva, Hvb.
  unfold SFleb, SFabs, SFcompare in Ha, Hb.
  assert (Hea : ea <= -52).
  { destruct (Z.compare_spec ea (-52)); [lia | lia | discriminate]. }
  assert (Heb : eb <= -52).
  { destruct (Z.compare_spec eb (-52)); [lia | lia | discriminate]. }
  cbn [SFmul]. apply binary_round_aux_finite; [| lia].
  rewrite Pos2Z.inj_mul. change (2 ^ 106) with (2 ^ 53 * 2 ^ 53). nia.
Qed.

End NoOverflow.

Lemma float_mul_small (a b : float) :
  PrimFloat.leb (abs a) 1 = true -> PrimFloat.leb (abs b) 1 = true ->
  sf_is_finite (Prim2SF (a * b)%float) = true.
Proof.
  rewrite !leb_spec, !abs_spec, mul_spec. intros Ha Hb.
  apply SFmul_small_finite; auto using Prim2SF_valid.
Qed.

Lemma finite_cases (x : float) :
  is_finite x = true -> sf_is_finite (Prim2SF x) = true.
Proof.
  unfold is_finite, is_infinity. intros Hf.
  apply negb_true_iff, orb_false_iff in Hf. destruct Hf as [Hnan Hinf].
  rewrite eqb_spec, abs_spec in Hinf.
  destruct (Prim2SF x) as [s | s | | s m e] eqn:Hx; try reflexivity.
  - discriminate Hinf.
  - apply is_nan_spec in Hx. congruence.
Qed.

(** [x - x] is [+0.0] for every finite [x]. *)
Lemma float_sub_self (x : float) :
  is_finite x = true -> (x - x)%float = 0%float.
Proof.
  intros Hf. apply finite_cases in Hf. apply Prim2SF_inj.
  rewrite sub_spec. change (Prim2SF 0) with (S754_zero false).
  destruct (Prim2SF x) as [[] | s | | s m e]; try discriminate Hf;
    try reflexivity.
  unfold SF64sub, SFsub. rewrite Z.sub_diag. reflexivity.
Qed.

(** A finite value times [+0.0] is a zero. *)
Lemma float_mul_zero (t : float) :
  sf_is_finite (Prim2SF t) = true ->
  exists s : bool, Prim2SF (t * 0)%float = S754_zero s.
Proof.
  intros Hf. rewrite mul_spec. change (Prim2SF 0) with (S754_zero false).
  destruct (Prim2SF t) as [s | s | | s m e]; try discriminate Hf;
    eexists; reflexivity.
Qed.

(** [+0.0] plus a zero of either sign is [+0.0]. *)
Lemma float_zero_plus (t : float) (s : bool) :
  Prim2SF t = S754_zero s -> (0 + t)%float = 0%float.
Proof.
  intros Ht. apply Prim2SF_inj. rewrite add_spec, Ht.
  destruct s; reflexivity.
Qed.

(** ** Floors and calories *)

Section FloorsCalories.
Local Open Scope R_scope.


Example floors_negative_binary64 :
  floors_from_gain (-3)%float = (-1)%float
  /\ (py_max (lit 0) (-3)%float / lit 3.0)%num = 0%float.
Proof. split; vm_compute; reflexivity. Qed.

Lemma third_not_integer (z : Z) : IZR z <> 4 / 3.
Proof.
  intros Hz. assert (H3 : IZR (3 * z) = IZR 4) by (rewrite mult_IZR; lra).
  apply eq_IZR in H3. lia.
Qed.

Lemma floors_positive_gain (T : Type) (N : Num T) (gain_m : T) :
  (gain_m >? lit 0)%num = true ->
  floors_from_gain gain_m = (py_max (lit 0) gain_m / lit 3.0)%num.
Proof. intros Hpos. unfold floors_from_gain, py_max. now rewrite Hpos. Qed.



(** C7, as the claim states it, fails: with no condition on [met], a
    negative MET gives negative calories for a positive duration. *)
Lemma calories_negative_for_negative_met :
  ~ (forall met minutes weight_kg : float,
       (minutes >=? lit 0)%num = true ->
       (calories_from_met met minutes weight_kg >=? lit 0)%num = true).
Proof.
  intros Hpos. specialize (Hpos (-1)%float 10%float 70%float eq_refl).
  vm_compute in Hpos. discriminate Hpos.
Qed.

Example calories_binary64 :
  (calories_from_met (-1) 10 70 = -12.25)%float
  /\ (calories_from_met 3.5 10 (-70) = -42.875)%float
  /\ (calories_from_met 3.8 30 75 = 149.625)%float.
Proof. repeat split; vm_compute; reflexivity. Qed.

Lemma calories_nonneg_exact (met minutes weight_kg : R) :
  0 <= met -> 0 <= weight_kg -> 0 <= minutes ->
  (calories_from_met (Fin met) (Fin minutes) (Fin weight_kg) >=? lit 0)%num
  = true.
Proof.
  intros Hmet Hw Hmin. unfold calories_from_met, py_max.
  assert (Hmw : 0 <= met * weight_kg) by (apply Rmult_le_pos; assumption).
  assert (Hall : 0 <= met * weight_kg * minutes)
    by (apply Rmult_le_pos; assumption).
  xauto; reflexivity.
Qed.

Lemma calories_nonneg_binary64 (met minutes weight_kg : float) :
  (met >=? lit 0)%num = true -> (weight_kg >=? lit 0)%num = true ->
  isnan (calories_from_met met minutes weight_kg) = false ->
  (calories_from_met met minutes weight_kg >=? lit 0)%num = true.
Proof.
  unfold calories_from_met. cbn [leb ltb isnan mul div float_Num].
  intros Hmet Hw Hnan.
  assert (Hmax : PrimFloat.leb (lit 0) (py_max (lit 0.0) minutes) = true).
  { unfold py_max. cbn [ltb float_Num].
    destruct (PrimFloat.ltb (lit 0.0) minutes) eqn:Hlt; [| reflexivity].
    now apply float_ltb_leb. }
  revert Hmet Hw Hmax Hnan.
  generalize (py_max (lit 0.0) minutes). intros M.
  rewrite !leb_spec. intros Hmet Hw HM Hnan.
  assert (Hnn : Prim2SF (met * lit 3.5 * weight_kg / lit 200.0 * M)%float
                <> S754_nan).
  { intros Hn. apply is_nan_spec in Hn. congruence. }
  revert Hnn. rewrite !mul_spec, div_spec, !mul_spec.
  change (Prim2SF (lit 0)) with sf_zero in *.
  assert (H35 : SFleb sf_zero (Prim2SF (lit 3.5)) = true) by reflexivity.
  assert (H200 : SFltb sf_zero (Prim2SF (lit 200.0)) = true) by reflexivity.
  unfold SF64mul, SF64div.
  destruct (SFmul_nonneg _ _ Hmet H35) as [-> | H1]; [intros Hn; now elim Hn |].
  destruct (SFmul_nonneg _ _ H1 Hw) as [-> | H2]; [intros Hn; now elim Hn |].
  destruct (SFdiv_nonneg _ _ H2 H200) as [-> | H3]; [intros Hn; now elim Hn |].
  destruct (SFmul_nonneg _ _ H3 HM) as [-> | H4]; [intros Hn; now elim Hn |].
  intros _. exact H4.
Qed.

(** In binary64 an overflow can turn the product into NaN. *)
Example calories_overflow_binary64 :
  isnan (calories_from_met 1e308 0 1e308)%float = true.
Proof. vm_compute. reflexivity. Qed.

(** C7, amended: calories are non-negative whenever [minutes >= 0] and
    both [met] and [weight_kg] are non-negative: always so in exact
    arithmetic, and in binary64 whenever the result is a number. *)
Theorem calories_nonneg :
  (forall met minutes weight_kg : R,
     0 <= met -> 0 <= weight_kg -> 0 <= minutes ->
     (calories_from_met (Fin met) (Fin minutes) (Fin weight_kg) >=? lit 0)%num
     = true)
  /\ (forall met minutes weight_kg : float,
        (met >=? lit 0)%num = true -> (weight_kg >=? lit 0)%num = true ->
        (minutes >=? lit 0)%num = true ->
        isnan (calories_from_met met minutes weight_kg) = false ->
        (calories_from_met met minutes weight_kg >=? lit 0)%num = true).
Proof.
  split; [exact calories_nonneg_exact |].
  intros met minutes weight_kg Hmet Hw _ Hnan.
  now apply calories_nonneg_binary64.
Qed.

Lemma calories_nonneg_witness :
  (calories_from_met (Fin 3.8) (Fin 30) (Fin 75) >=? lit 0)%num = true
  /\ (calories_from_met 3.8%float 30%float 75%float >=? lit 0)%num = true.
Proof.
  destruct calories_nonneg as [Hexact Hbin].
  split.
  - apply (Hexact 3.8 30 75); lra.
  - apply (Hbin 3.8%float 30%float 75%float); reflexivity.
Defined.

End FloorsCalories.

(** ** Normalised labels and the MET lookup *)

Lemma normalize_idle : normalize_activity "sitting/idle" = "sitting".
Proof. reflexivity. Qed.

Lemma normalize_cycling : normalize_activity "cycling" = "walking".
Proof. reflexivity. Qed.

Lemma session_row_activity_met
    (T : Type) (N : Num T) (total_km gain_m avg_kmh minutes weight pred30 : T)
    (row : SummaryRow T) :
  session_row total_km gain_m avg_kmh minutes weight pred30 = Some row ->
  r_activity row
  = normalize_activity
      (act_raw avg_kmh (floors_per_min (floors_from_gain gain_m) minutes))
  /\ r_met row = met_for_activity (r_activity row) avg_kmh.
Proof.
  unfold session_row. intros Hrow.
  destruct (est_steps _ total_km (floors_from_gain gain_m)); [| discriminate].
  injection Hrow as <-. split; reflexivity.
Qed.

(** The loop body builds its row from the metrics of the track. *)
Lemma summarize_is_session_row
    (T : Type) (N : Num T) (G : Trig T) (pos : PosLog T) (weight : T)
    (row : SummaryRow T) :
  summarize pos weight = Some row ->
  exists pred30 : T,
    let total_km := fst (track_distance_speed_from_gps pos) in
    session_row total_km (elevation_gain_m pos) (avg_speed_kmh total_km pos)
      (minutes_from_pos pos) weight pred30
    = Some row.
Proof.
  unfold summarize.
  destruct (track_distance_speed_from_gps pos) as [total_km speed_ms].
  destruct (predict_speed_next_kmh _ _ 30) as [pred30 |]; [| discriminate].
  intros Hrow. exists pred30. exact Hrow.
Qed.

(** C2: the row of a session the classifier calls idle carries the label
    ["sitting"], which the MET lookup does not know, so its MET is the
    default [3.5] and not the idle constant [1.5]; the row of a session in
    the cycling band carries ["walking"] and the walking MET. *)
Theorem normalised_label_decides_met
    (T : Type) (N : Num T) (total_km gain_m avg_kmh minutes weight pred30 : T)
    (row : SummaryRow T) :
  session_row total_km gain_m avg_kmh minutes weight pred30 = Some row ->
  let raw :=
    act_raw avg_kmh (floors_per_min (floors_from_gain gain_m) minutes) in
  (raw = "sitting/idle" ->
     r_activity row = "sitting"
     /\ r_met row = met_for_activity "sitting" avg_kmh
     /\ r_met row = lit 3.5
     /\ met_for_activity "sitting/idle" avg_kmh = lit 1.5)
  /\ (raw = "cycling" ->
     r_activity row = "walking"
     /\ r_met row = met_for_activity "walking" avg_kmh
     /\ r_met row
        = py_max (lit 3.0)
            (py_min (lit 5.0) (lit 3.0 + lit 0.4 * (avg_kmh - lit 3)))%num).
Proof.
  intros Hrow raw.
  destruct (session_row_activity_met _ _ _ _ _ _ _ _ _ Hrow) as [Hact Hmet].
  fold raw in Hact. split; intros Hraw; rewrite Hraw in Hact.
  - rewrite normalize_idle in Hact. rewrite Hmet, Hact.
    split; [| split; [| split]]; reflexivity.
  - rewrite normalize_cycling in Hact. rewrite Hmet, Hact.
    split; [| split]; reflexivity.
Qed.

Lemma normalised_label_decides_met_witness :
  (exists row : SummaryRow float,
     session_row 1 0 1 60 75 1 = Some row
     /\ act_raw 1 (floors_per_min (floors_from_gain 0) 60) = "sitting/idle"
     /\ r_activity row = "sitting" /\ r_met row = 3.5)%float
  /\ (exists row : SummaryRow float,
     session_row 20 0 20 60 75 20 = Some row
     /\ act_raw 20 (floors_per_min (floors_from_gain 0) 60) = "cycling"
     /\ r_activity row = "walking" /\ r_met row = 5)%float.
Proof.
  split.
  - destruct (session_row 1 0 1 60 75 1)%float as [row |] eqn:Hrow;
      [| discriminate Hrow].
    exists row. split; [reflexivity |]. split; [reflexivity |].
    destruct (normalised_label_decides_met float float_Num _ _ _ _ _ _ row Hrow)
      as [Hidle _].
    destruct (Hidle eq_refl) as (Hact & _ & Hmet & _).
    split; [exact Hact | exact Hmet].
  - destruct (session_row 20 0 20 60 75 20)%float as [row |] eqn:Hrow;
      [| discriminate Hrow].
    exists row. split; [reflexivity |]. split; [reflexivity |].
    destruct (normalised_label_decides_met float float_Num _ _ _ _ _ _ row Hrow)
      as [_ Hcyc].
    destruct (Hcyc eq_refl) as (Hact & _ & Hmet).
    split; [exact Hact |]. rewrite Hmet. reflexivity.
Defined.

(** ** The activity classifier *)

Section Classifier.
Local Open Scope num_scope.

Lemma guess_activity_labels (T : Type) (N : Num T) (avg_kmh : T) :
  guess_activity avg_kmh <> "stairs".
Proof.
  unfold guess_activity.
  destruct (negb (isfinite avg_kmh) || (avg_kmh <? lit 1.5));
    [discriminate |].
  destruct (avg_kmh <? lit 6.0); [discriminate |].
  destruct (avg_kmh <? lit 12.0); discriminate.
Qed.

Lemma act_raw_stairs_iff (T : Type) (N : Num T) (avg_kmh fpm : T) :
  act_raw avg_kmh fpm = "stairs"
  <-> isfinite fpm = true /\ (fpm >=? lit 1.0) = true
      /\ (isfinite avg_kmh = false \/ (avg_kmh <? lit 6.0) = true).
Proof.
  unfold act_raw. split.
  - destruct (isfinite fpm), (fpm >=? lit 1.0), (isfinite avg_kmh),
      (avg_kmh <? lit 6.0); cbn [andb orb negb]; intros H;
      try (exfalso; exact (guess_activity_labels _ _ _ H));
      repeat split; auto.
  - intros (Hf & Hge & Havg). rewrite Hf, Hge. cbn [andb].
    destruct Havg as [Havg | Havg]; rewrite Havg; cbn [negb orb];
      [reflexivity | now rewrite orb_true_r].
Qed.

Lemma act_raw_band (T : Type) (N : Num T) (avg_kmh fpm : T) :
  act_raw avg_kmh fpm <> "stairs" ->
  act_raw avg_kmh fpm = guess_activity avg_kmh.
Proof.
  unfold act_raw.
  destruct (isfinite fpm && (fpm >=? lit 1.0)
            && (negb (isfinite avg_kmh) || (avg_kmh <? lit 6.0)));
    [intros H; now elim H | reflexivity].
Qed.

(** The bands of [guess_activity], read in binary64. *)
Lemma guess_activity_bands (avg_kmh : float) :
  (isfinite avg_kmh = false \/ (avg_kmh <? lit 1.5) = true ->
     guess_activity avg_kmh = "sitting/idle")
  /\ (isfinite avg_kmh = true -> (avg_kmh >=? lit 1.5) = true ->
      (avg_kmh <? lit 6.0) = true -> guess_activity avg_kmh = "walking")
  /\ (isfinite avg_kmh = true -> (avg_kmh >=? lit 6.0) = true ->
      (avg_kmh <? lit 12.0) = true -> guess_activity avg_kmh = "running")
  /\ (isfinite avg_kmh = true -> (avg_kmh >=? lit 12.0) = true ->
      guess_activity avg_kmh = "cycling").
Proof.
  unfold guess_activity. cbn [ltb leb float_Num].
  split; [| split; [| split]].
  - intros [Hnf | Hlt]; [rewrite Hnf | rewrite Hlt; rewrite orb_true_r];
      reflexivity.
  - intros Hf H15 H6. rewrite Hf.
    rewrite (float_not_below avg_kmh (lit 1.5) (lit 1.5) H15)
      by (vm_compute; reflexivity).
    now rewrite H6.
  - intros Hf H6 H12. rewrite Hf.
    rewrite (float_not_below avg_kmh (lit 6.0) (lit 1.5) H6)
      by (vm_compute; reflexivity).
    rewrite (float_not_below avg_kmh (lit 6.0) (lit 6.0) H6)
      by (vm_compute; reflexivity).
    now rewrite H12.
  - intros Hf H12. rewrite Hf.
    rewrite (float_not_below avg_kmh (lit 12.0) (lit 1.5) H12)
      by (vm_compute; reflexivity).
    rewrite (float_not_below avg_kmh (lit 12.0) (lit 6.0) H12)
      by (vm_compute; reflexivity).
    rewrite (float_not_below avg_kmh (lit 12.0) (lit 12.0) H12)
      by (vm_compute; reflexivity).
    reflexivity.
Qed.

(** C4, as the claim states it, fails: an infinite floors-per-minute value
    is [>= 1.0], yet the guard [isfinite] keeps the band label. *)
Lemma stairs_override_needs_finite_rate :
  ~ (forall avg_kmh fpm : float,
       act_raw avg_kmh fpm = "stairs"
       <-> (fpm >=? lit 1.0) = true
           /\ (isfinite avg_kmh = false \/ (avg_kmh <? lit 6.0) = true)).
Proof.
  intros Hclaim.
  destruct (Hclaim 3%float infinity) as [_ Hstairs].
  assert (Hlabel : act_raw 3%float infinity = "stairs").
  { apply Hstairs. split; [reflexivity | right; reflexivity]. }
  vm_compute in Hlabel. discriminate Hlabel.
Qed.

Example act_raw_binary64 :
  act_raw 3%float infinity = "walking"
  /\ act_raw 4%float 2%float = "stairs"
  /\ act_raw PrimFloat.nan 2%float = "stairs"
  /\ act_raw 8%float 2%float = "running"
  /\ act_raw 15%float 2%float = "cycling"
  /\ act_raw 1.4%float 0%float = "sitting/idle"
  /\ act_raw 6%float 1%float = "running".
Proof. repeat split. Qed.

(** C4, amended: the label is ["stairs"] exactly when the floors-per-minute
    value is finite and at least [1.0] and the average speed is non-finite
    or below [6.0]; otherwise it is the label of the speed band; a finite
    average speed of [6.0] or more is never relabelled. *)
Theorem act_raw_classification (avg_kmh fpm : float) :
  (act_raw avg_kmh fpm = "stairs"
   <-> isfinite fpm = true /\ (fpm >=? lit 1.0) = true
       /\ (isfinite avg_kmh = false \/ (avg_kmh <? lit 6.0) = true))
  /\ (act_raw avg_kmh fpm <> "stairs" ->
      act_raw avg_kmh fpm = guess_activity avg_kmh)
  /\ ((isfinite avg_kmh = false \/ (avg_kmh <? lit 1.5) = true ->
         guess_activity avg_kmh = "sitting/idle")
      /\ (isfinite avg_kmh = true -> (avg_kmh >=? lit 1.5) = true ->
          (avg_kmh <? lit 6.0) = true -> guess_activity avg_kmh = "walking")
      /\ (isfinite avg_kmh = true -> (avg_kmh >=? lit 6.0) = true ->
          (avg_kmh <? lit 12.0) = true -> guess_activity avg_kmh = "running")
      /\ (isfinite avg_kmh = true -> (avg_kmh >=? lit 12.0) = true ->
          guess_activity avg_kmh = "cycling"))
  /\ (isfinite avg_kmh = true -> (avg_kmh >=? lit 6.0) = true ->
      act_raw avg_kmh fpm = guess_activity avg_kmh
      /\ (act_raw avg_kmh fpm = "running" \/ act_raw avg_kmh fpm = "cycling")).
Proof.
  split; [apply act_raw_stairs_iff |].
  split; [apply act_raw_band |].
  split; [apply guess_activity_bands |].
  intros Hf H6.
  assert (Hband : act_raw avg_kmh fpm = guess_activity avg_kmh).
  { apply act_raw_band. rewrite act_raw_stairs_iff.
    intros (_ & _ & [Hnf | Hlt]); [congruence |].
    cbn [ltb leb float_Num] in *.
    rewrite (float_not_below avg_kmh (lit 6.0) (lit 6.0) H6) in Hlt
      by (vm_compute; reflexivity).
    discriminate Hlt. }
  split; [exact Hband |]. rewrite Hband.
  destruct (guess_activity_bands avg_kmh) as (_ & _ & Hrun & Hcyc).
  destruct (avg_kmh <? lit 12.0) eqn:H12.
  - left. now apply Hrun.
  - right. unfold guess_activity. rewrite Hf, H12.
    cbn [ltb leb float_Num] in *.
    rewrite (float_not_below avg_kmh (lit 6.0) (lit 1.5) H6)
      by (vm_compute; reflexivity).
    rewrite (float_not_below avg_kmh (lit 6.0) (lit 6.0) H6)
      by (vm_compute; reflexivity).
    reflexivity.
Qed.

Lemma act_raw_classification_witness :
  act_raw 4%float 2%float = "stairs"
  /\ act_raw 8%float 2%float = guess_activity 8%float
  /\ guess_activity 8%float = "running".
Proof.
  destruct (act_raw_classification 4%float 2%float) as ([_ Hst] & _).
  destruct (act_raw_classification 8%float 2%float)
    as (_ & _ & (_ & _ & Hrun & _) & Hfast).
  split; [| split].
  - apply Hst. split; [reflexivity |]. split; [reflexivity |].
    right. reflexivity.
  - apply (Hfast eq_refl eq_refl).
  - apply (Hrun eq_refl eq_refl eq_refl).
Defined.

End Classifier.

(** ** The forecast of a constant series *)

Section ConstantSeries.
Local Open Scope R_scope.

Lemma removelast_repeat_S (A : Type) (x : A) (n : nat) :
  removelast (repeat x (S n)) = repeat x n.
Proof.
  induction n as [| n IH]; [reflexivity |].
  change (repeat x (S (S n))) with (x :: repeat x (S n)).
  cbn [removelast]. cbn [repeat] in *. now rewrite IH.
Qed.

Lemma last_repeat_S (A : Type) (x d : A) (n : nat) :
  last (repeat x (S n)) d = x.
Proof.
  induction n as [| n IH]; [reflexivity |].
  change (repeat x (S (S n))) with (x :: repeat x (S n)).
  cbn [last]. cbn [repeat] in *. exact IH.
Qed.

Lemma skipn_repeat_sub (A : Type) (x : A) (k n : nat) :
  skipn k (repeat x n) = repeat x (n - k).
Proof.
  revert n. induction k as [| k IH]; intros n.
  - now rewrite Nat.sub_0_r.
  - destruct n as [| n]; [reflexivity |]. cbn [repeat skipn]. apply IH.
Qed.

Lemma zip_with_repeat (A B C : Type) (f : A -> B -> C) (a : A) (b : B) (n : nat) :
  zip_with f (repeat a n) (repeat b n) = repeat (f a b) n.
Proof. induction n as [| n IH]; [reflexivity |]. cbn. now rewrite IH. Qed.

Lemma fold_add_repeat (v acc : R) (k : nat) :
  fold_left add (repeat (Fin v) k) (Fin acc) = Fin (acc + INR k * v).
Proof.
  revert acc. induction k as [| k IH]; intros acc.
  - cbn. f_equal. lra.
  - change (repeat (Fin v) (S k)) with (Fin v :: repeat (Fin v) k).
    cbn [fold_left]. xnorm. rewrite IH. f_equal. rewrite S_INR. lra.
Qed.

Lemma np_sum_repeat (v : R) (k : nat) :
  np_sum (repeat (Fin v) (S k)) = Fin (INR (S k) * v).
Proof.
  unfold np_sum. cbn [repeat]. rewrite fold_add_repeat. f_equal.
  rewrite S_INR. lra.
Qed.

Lemma np_mean_repeat (v : R) (k : nat) :
  np_mean (repeat (Fin v) (S k)) = Fin v.
Proof.
  unfold np_mean. rewrite np_sum_repeat, repeat_length. xnorm.
  rewrite <- INR_IZR_INZ.
  assert (Hk : INR (S k) <> 0) by (apply not_0_INR; discriminate).
  rewrite xdiv_Fin by exact Hk. f_equal. field. exact Hk.
Qed.

(** A weighted mean of [c] with itself is [c]. *)
Lemma weighted_mean_same (p c : R) :
  (Fin p * Fin c + (lit 1.0 - Fin p) * Fin c)%num = Fin c.
Proof. xnorm. f_equal. lra. Qed.

Lemma ema_from_constant (c a : R) (k : nat) :
  ema_from (Fin c) (repeat (Fin c) k) (Fin a) = repeat (Fin c) k.
Proof.
  induction k as [| k IH]; [reflexivity |].
  cbn [repeat ema_from]. rewrite !weighted_mean_same. now rewrite IH.
Qed.

(** The EMA of a constant series is the same series. *)
Lemma ema_constant (c a : R) (n : nat) :
  ema (repeat (Fin c) n) (Fin a) = repeat (Fin c) n.
Proof.
  destruct n as [| n]; [reflexivity |].
  cbn [repeat ema]. now rewrite ema_from_constant.
Qed.

(** The smoothing factor is a finite number for every positive interval. *)
Lemma alpha_finite (dt_sec : xreal) :
  (dt_sec >? lit 0)%num = true ->
  exists a : R,
    py_min (lit 0.5) (py_max (lit 0.05) (dt_sec / lit 5.0)%num) = Fin a.
Proof.
  unfold py_min, py_max. destruct dt_sec as [d | | |]; intros Hdt;
    try discriminate Hdt.
  - revert Hdt. xauto; intros _; eexists; reflexivity.
  - cbn [div xreal_Num xdiv]. lit_norm.
    destruct (Rltb_spec (50 * / 10) 0); [exfalso; lra |].
    xauto; eexists; reflexivity.
Qed.

(** The number of AR steps is defined for every positive interval. *)
Lemma steps_defined (dt_sec : xreal) (horizon_sec : Z) :
  (dt_sec >? lit 0)%num = true ->
  exists r : Z,
    py_round (of_int horizon_sec / py_max (lit 0.1) dt_sec)%num = Some r.
Proof.
  unfold py_max. destruct dt_sec as [d | | |]; intros Hdt;
    try discriminate Hdt.
  - revert Hdt. xauto; intros _; eexists; reflexivity.
  - cbn [ltb xreal_Num xltb lit]. cbn. eexists; reflexivity.
Qed.

(** [c] is a fixed point of the iteration when the tail mean is [c]. *)
Lemma ar_iteration_fixed (phi c : R) (steps : nat) :
  Nat.iter steps (fun s => (Fin phi * s + (lit 1.0 - Fin phi) * Fin c)%num)
    (Fin c)
  = Fin c.
Proof.
  induction steps as [| k IH]; [reflexivity |].
  cbn [Nat.iter nat_rect]. unfold Nat.iter in IH. rewrite IH.
  apply weighted_mean_same.
Qed.

Lemma predict_constant_exact (c : R) (n : nat) (dt_sec : xreal) (horizon_sec : Z) :
  0 <= c -> (6 <= n)%nat -> (dt_sec >? lit 0)%num = true ->
  predict_speed_next_kmh (repeat (Fin c) n) dt_sec horizon_sec = Some (Fin c).
Proof.
  intros Hc Hn Hdt. unfold predict_speed_next_kmh.
  rewrite repeat_length.
  destruct (Nat.ltb_spec n 6) as [Hlt | _]; [lia |].
  assert (Hguard : (dt_sec <=? lit 0)%num = false).
  { destruct dt_sec as [d | | |]; try discriminate Hdt; [| reflexivity].
    revert Hdt. xauto; congruence. }
  rewrite Hguard. cbn [orb].
  destruct (alpha_finite dt_sec Hdt) as [a ->].
  destruct (steps_defined dt_sec horizon_sec Hdt) as [r ->].
  rewrite ema_constant, repeat_length.
  destruct n as [| m]; [lia |].
  rewrite removelast_repeat_S, last_repeat_S.
  change (tl (repeat (Fin c) (S m))) with (repeat (Fin c) m).
  rewrite skipn_repeat_sub.
  replace (S m - (S m - 50))%nat with (S (Nat.min m 49)) by lia.
  rewrite np_mean_repeat.
  unfold np_dot. rewrite zip_with_repeat.
  destruct m as [| k]; [lia |].
  change (mul (Fin c) (Fin c)) with (Fin (c * c)).
  rewrite np_sum_repeat.
  assert (Hphi : exists phi : R,
            (Fin (INR (S k) * (c * c))
             / (Fin (INR (S k) * (c * c)) + lit 1e-12))%num = Fin phi).
  { assert (Hsq : 0 <= INR (S k) * (c * c)).
    { apply Rmult_le_pos; [apply pos_INR | apply Rle_0_sqr]. }
    xnorm. eexists; reflexivity. }
  destruct Hphi as [phi ->].
  rewrite ar_iteration_fixed.
  unfold py_max. xauto; [reflexivity |]. do 2 f_equal. lra.
Qed.


(** The smoothing of that series, operation by operation:
    [alpha = max(0.05, 0.1 / 5.0) = 0.05], then
    [alpha * 25.1 + (1.0 - alpha) * 25.1] falls one unit in the last place
    short of 25.1, and the next two steps lose one more each. *)
Example ema_step_binary64 :
  (0.1 / 5 = 0.02)%float
  /\ (0.05 * 25.1 = 1.2550000000000001)%float
  /\ (1 - 0.05 = 0.94999999999999996)%float
  /\ (0.94999999999999996 * 25.1 = 23.844999999999999)%float
  /\ (1.2550000000000001 + 23.844999999999999 = next_down 25.1)%float
  /\ ema (repeat 25.1%float 6) 0.05%float
     = [25.1; next_down 25.1; next_down (next_down 25.1);
        next_down (next_down (next_down 25.1));
        next_down (next_down (next_down 25.1));
        next_down (next_down (next_down 25.1))]%float
  /\ predict_speed_next_kmh (repeat 25.1%float 6) 0.1%float 30
     = Some (next_down (next_down (next_down 25.1)))
  /\ next_down (next_down (next_down 25.1)) = 25.099999999999991%float.
Proof. repeat split; vm_compute; reflexivity. Qed.

(** Other constant series in binary64: exact for 10.0 sampled every second;
    not constant after smoothing for 10.0 sampled every 0.3 s; and [0.0]
    for a value whose square overflows, since [phi] is then
    [inf / inf = NaN] and [max(0.0, NaN)] is [0.0]. *)
Example predict_constant_binary64 :
  predict_speed_next_kmh (repeat 10%float 6) 1%float 30 = Some 10%float
  /\ ema (repeat 10%float 6) 0.06%float
     = 10%float :: repeat (next_down 10) 5
  /\ predict_speed_next_kmh (repeat 1e200%float 6) 1%float 30 = Some 0%float
  /\ predict_speed_next_kmh (repeat infinity 6) 1%float 30 = Some 0%float.
Proof. repeat split; vm_compute; reflexivity. Qed.



End ConstantSeries.

(** ** The haversine distance *)

Section Haversine.
Local Open Scope R_scope.

Lemma Ratan2_0_1 : Ratan2 0 1 = 0.
Proof.
  unfold Ratan2. destruct (Rltb_spec 0 1) as [_ | H]; [| exfalso; lra].
  replace (0 / 1) with 0 by lra. exact atan_0.
Qed.

Lemma haversine_same_point_exact (lat lon : R) :
  haversine_distance_km (Fin lat) (Fin lon) (Fin lat) (Fin lon) = Fin 0.
Proof.
  unfold haversine_distance_km.
  cbn [np_radians np_sin np_cos np_sqrt np_arctan2 xreal_Trig].
  xnorm.
  replace ((lat - lat) * (PI / 180) / (20 * / 10)) with 0 by lra.
  replace ((lon - lon) * (PI / 180) / (20 * / 10)) with 0 by lra.
  rewrite sin_0.
  replace (0 * 0 + Rtrigo_def.cos (lat * (PI / 180))
                   * Rtrigo_def.cos (lat * (PI / 180)) * (0 * 0))
    with 0 by lra.
  destruct (Rltb_spec 0 0) as [H | _]; [exfalso; lra |].
  xnorm.
  replace (1 - 0) with 1 by lra.
  destruct (Rltb_spec 1 0) as [H | _]; [exfalso; lra |].
  cbn [xarctan2]. rewrite sqrt_0, sqrt_1, Ratan2_0_1.
  xnorm. f_equal. lra.
Qed.

Lemma haversine_same_point_binary64
    (G : Trig float) (HG : libm_exact_at_zero G) (lat lon : float) :
  is_finite lat = true -> is_finite lon = true ->
  haversine_distance_km lat lon lat lon = 0%float.
Proof.
  intros Hlat Hlon. unfold haversine_distance_km.
  cbn [add sub mul div float_Num].
  rewrite (float_sub_self lat Hlat), (float_sub_self lon Hlon).
  rewrite (radians_zero G HG).
  change (0 / lit 2.0)%float with 0%float. rewrite (sin_zero G HG).
  change (0 * 0)%float with 0%float.
  destruct (float_mul_zero _
              (float_mul_small _ _ (cos_bounded G HG (np_radians lat))
                 (cos_bounded G HG (np_radians lat)))) as [s Hs].
  rewrite (float_zero_plus _ s Hs).
  rewrite !(sqrt_ieee G HG).
  change (of_int 1 - 0)%float with 1%float.
  change (PrimFloat.sqrt 0) with 0%float.
  change (PrimFloat.sqrt 1) with 1%float.
  rewrite (arctan2_zero G HG). reflexivity.
Qed.

Lemma first_order_libm : libm_exact_at_zero first_order_Trig.
Proof. split; try reflexivity; intros x; reflexivity. Qed.



End Haversine.

Section MetRange.
Local Open Scope num_scope.

Lemma SFleb_trans (a b c : spec_float) :
  SFleb a b = true -> SFleb b c = true -> SFleb a c = true.
Proof.
  unfold SFleb, SFcompare.
  destruct a as [[] | [] | | [] ma ea], b as [[] | [] | | [] mb eb],
    c as [[] | [] | | [] mc ec];
    try discriminate; try reflexivity;
    change (Pos.compare_cont Eq ?x ?y) with (Pos.compare x y);
    intros H1 H2; cmp_cases; subst; cbn [CompOpp] in *;
    try discriminate; try reflexivity; try lia.
Qed.

Lemma float_leb_trans (a b c : float) :
  PrimFloat.leb a b = true -> PrimFloat.leb b c = true ->
  PrimFloat.leb a c = true.
Proof. rewrite !leb_spec. apply SFleb_trans. Qed.

Lemma float_leb_refl (a b : float) :
  PrimFloat.leb a b = true ->
  PrimFloat.leb a a = true /\ PrimFloat.leb b b = true.
Proof.
  rewrite !leb_spec. unfold SFleb, SFcompare.
  destruct (Prim2SF a) as [[] | [] | | [] ma ea],
    (Prim2SF b) as [[] | [] | | [] mb eb];
    try discriminate; intros _; split; try reflexivity;
    rewrite ?Z.compare_refl, ?Pos.compare_cont_refl; reflexivity.
Qed.

(** [max(lo, min(hi, x))] lies between [lo] and [hi], whatever [x] is. *)
Lemma clamp_range (lo hi x : float) :
  PrimFloat.leb lo hi = true ->
  PrimFloat.leb lo (py_max lo (py_min hi x)) = true
  /\ PrimFloat.leb (py_max lo (py_min hi x)) hi = true.
Proof.
  intros Hle. destruct (float_leb_refl _ _ Hle) as [Hlo Hhi].
  unfold py_max, py_min. cbn [ltb float_Num].
  destruct (PrimFloat.ltb x hi) eqn:Hx.
  - destruct (PrimFloat.ltb lo x) eqn:Hl.
    + split; now apply float_ltb_leb.
    + split; assumption.
  - destruct (PrimFloat.ltb lo hi) eqn:Hl; split; assumption.
Qed.

Lemma clamp_nan (lo hi : float) :
  PrimFloat.ltb lo hi = true -> py_max lo (py_min hi PrimFloat.nan) = hi.
Proof.
  intros Hlt. unfold py_max, py_min. cbn [ltb float_Num].
  assert (Hn : PrimFloat.ltb PrimFloat.nan hi = false).
  { rewrite ltb_spec. reflexivity. }
  rewrite Hn, Hlt. reflexivity.
Qed.

Ltac by_computation := vm_compute; reflexivity.

Lemma met_walking_range (avg : float) :
  (lit 3.0 <=? met_for_activity "walking" avg) = true
  /\ (met_for_activity "walking" avg <=? lit 5.0) = true.
Proof.
  change (met_for_activity "walking" avg)
    with (py_max (lit 3.0) (py_min (lit 5.0)
            (lit 3.0 + lit 0.4 * (avg - lit 3)))).
  apply clamp_range. by_computation.
Qed.

Lemma met_running_range (avg : float) :
  (lit 7.0 <=? met_for_activity "running" avg) = true
  /\ (met_for_activity "running" avg <=? lit 12.0) = true.
Proof.
  change (met_for_activity "running" avg)
    with (py_max (lit 7.0) (py_min (lit 12.0) (lit 6.0 + lit 0.6 * avg))).
  apply clamp_range. by_computation.
Qed.

Lemma met_cycling_range (avg : float) :
  (lit 6.0 <=? met_for_activity "cycling" avg) = true
  /\ (met_for_activity "cycling" avg <=? lit 12.0) = true.
Proof.
  change (met_for_activity "cycling" avg)
    with (py_max (lit 6.0) (py_min (lit 12.0) (lit 2.0 + lit 0.5 * avg))).
  apply clamp_range. by_computation.
Qed.

Lemma met_for_activity_cases (activity : string) (avg : float) :
  met_for_activity activity avg = lit 1.5
  \/ met_for_activity activity avg = met_for_activity "walking" avg
  \/ met_for_activity activity avg = met_for_activity "running" avg
  \/ met_for_activity activity avg = met_for_activity "cycling" avg
  \/ met_for_activity activity avg = lit 8.0
  \/ met_for_activity activity avg = lit 3.5.
Proof.
  unfold met_for_activity at 1 2 4 6 8 9.
  destruct (String.eqb_spec activity "sitting/idle"); [now left |].
  destruct (String.eqb_spec activity "walking");
    [subst; right; left; reflexivity |].
  destruct (String.eqb_spec activity "running");
    [subst; right; right; left; reflexivity |].
  destruct (String.eqb_spec activity "cycling");
    [subst; right; right; right; left; reflexivity |].
  destruct (String.eqb activity "stairs"); tauto.
Qed.

Lemma met_overall_range (activity : string) (avg : float) :
  (lit 1.5 <=? met_for_activity activity avg) = true
  /\ (met_for_activity activity avg <=? lit 12.0) = true.
Proof.
  pose proof (met_walking_range avg) as [Hw1 Hw2].
  pose proof (met_running_range avg) as [Hr1 Hr2].
  pose proof (met_cycling_range avg) as [Hc1 Hc2].
  cbn [leb float_Num] in *.
  destruct (met_for_activity_cases activity avg)
    as [H | [H | [H | [H | [H | H]]]]]; rewrite H; cbn [leb float_Num];
    try (split; by_computation); split;
    (eapply float_leb_trans; [| eassumption]; by_computation)
    || (eapply float_leb_trans; [eassumption |]; by_computation)
    || assumption.
Qed.

(** X1: in binary64 the MET of every label and every speed, NaN and the
    infinities included, lies between 1.5 and 12: between 3 and 5 for
    walking, 7 and 12 for running, 6 and 12 for cycling.  A NaN speed
    gives the upper bound of the label. *)
Theorem met_for_activity_range (activity : string) (avg : float) :
  ((lit 1.5 <=? met_for_activity activity avg) = true
   /\ (met_for_activity activity avg <=? lit 12.0) = true)
  /\ ((lit 3.0 <=? met_for_activity "walking" avg) = true
      /\ (met_for_activity "walking" avg <=? lit 5.0) = true)
  /\ ((lit 7.0 <=? met_for_activity "running" avg) = true
      /\ (met_for_activity "running" avg <=? lit 12.0) = true)
  /\ ((lit 6.0 <=? met_for_activity "cycling" avg) = true
      /\ (met_for_activity "cycling" avg <=? lit 12.0) = true)
  /\ met_for_activity "walking" (nan : float) = lit 5.0
  /\ met_for_activity "running" (nan : float) = lit 12.0
  /\ met_for_activity "cycling" (nan : float) = lit 12.0.
Proof.
  split; [apply met_overall_range |].
  split; [apply met_walking_range |].
  split; [apply met_running_range |].
  split; [apply met_cycling_range |].
  repeat split; by_computation.
Qed.
End MetRange.

Lemma normalize_activity_labels (name : string) :
  In (normalize_activity name) ["stairs"; "running"; "walking"; "sitting"].
Proof.
  unfold normalize_activity.
  destruct (str_in _ ["stairs"; "stair"; "stairclimb"; "stair climbing"]);
    [cbn; tauto |].
  destruct (str_in _ ["running"; "run"; "jogging"]); [cbn; tauto |].
  destruct (str_in _ ["walking"; "walk"]); [cbn; tauto |].
  destruct (str_in _ ["sitting/idle"; "idle"; "rest"; "sitting"]); cbn; tauto.
Qed.

(** The entries of a row that the loop body copies or derives. *)
Lemma session_row_fields
    (T : Type) (N : Num T) (total_km gain_m avg_kmh minutes weight pred30 : T)
    (row : SummaryRow T) :
  session_row total_km gain_m avg_kmh minutes weight pred30 = Some row ->
  r_duration_min row = minutes
  /\ r_distance_km row = total_km
  /\ r_elevation_gain_m row = gain_m
  /\ r_floors row = floors_from_gain gain_m
  /\ r_avg_speed_kmh row = avg_kmh
  /\ r_met_minutes row = mul (r_met row) (r_duration_min row)
  /\ r_calories_kcal row = calories_from_met (r_met row) minutes weight
  /\ r_pred_next_30s_speed_kmh row = pred30.
Proof.
  unfold session_row. intros Hrow.
  destruct (est_steps _ total_km (floors_from_gain gain_m)); [| discriminate].
  injection Hrow as <-. repeat split; reflexivity.
Qed.

Section RowMet.
Local Open Scope num_scope.

(** X2: in binary64 every summary row carries one of the four labels with
    the MET that goes with it: 3.5 for sitting, 3 to 5 for walking, 7 to 12
    for running, 8 for stairs.  The idle MET 1.5 never reaches a row, and
    the MET-minutes are the MET times the duration. *)
Theorem session_row_label_and_met
    (total_km gain_m avg_kmh minutes weight pred30 : float)
    (row : SummaryRow float) :
  session_row total_km gain_m avg_kmh minutes weight pred30 = Some row ->
  ((r_activity row = "sitting" /\ r_met row = lit 3.5)
   \/ (r_activity row = "walking"
       /\ (lit 3.0 <=? r_met row) = true /\ (r_met row <=? lit 5.0) = true)
   \/ (r_activity row = "running"
       /\ (lit 7.0 <=? r_met row) = true /\ (r_met row <=? lit 12.0) = true)
   \/ (r_activity row = "stairs" /\ r_met row = lit 8.0))
  /\ r_met row <> lit 1.5
  /\ r_met_minutes row = r_met row * r_duration_min row.
Proof.
  intros Hrow.
  destruct (session_row_activity_met _ _ _ _ _ _ _ _ _ Hrow) as [Hact Hmet].
  assert (Hmm : r_met_minutes row = r_met row * r_duration_min row)
    by apply (session_row_fields _ _ _ _ _ _ _ _ _ Hrow).
  assert (Hcases :
    (r_activity row = "sitting" /\ r_met row = lit 3.5)
    \/ (r_activity row = "walking"
        /\ (lit 3.0 <=? r_met row) = true /\ (r_met row <=? lit 5.0) = true)
    \/ (r_activity row = "running"
        /\ (lit 7.0 <=? r_met row) = true /\ (r_met row <=? lit 12.0) = true)
    \/ (r_activity row = "stairs" /\ r_met row = lit 8.0)).
  { pose proof (normalize_activity_labels
      (act_raw avg_kmh (floors_per_min (floors_from_gain gain_m) minutes)))
      as Hin.
    rewrite <- Hact in Hin. rewrite Hmet.
    destruct Hin as [H | [H | [H | [H | []]]]]; rewrite <- H.
    - right; right; right. split; reflexivity.
    - right; right; left. split; [reflexivity | apply met_running_range].
    - right; left. split; [reflexivity | apply met_walking_range].
    - left. split; reflexivity. }
  split; [exact Hcases |]. split; [| exact Hmm].
  intros H15. cbn [leb float_Num] in Hcases.
  destruct Hcases as [[_ H] | [(_ & H & _) | [(_ & H & _) | [_ H]]]];
    rewrite H15 in H; vm_compute in H; try discriminate H.
  all: apply (f_equal Prim2SF) in H; vm_compute in H; discriminate H.
Qed.

Lemma session_row_label_and_met_witness :
  exists row : SummaryRow float,
    (session_row 5 0 5 60 75 5)%float = Some row
    /\ r_activity row = "walking"
    /\ r_met row <> lit 1.5.
Proof.
  destruct (session_row 5 0 5 60 75 5)%float as [row |] eqn:Hrow;
    [| discriminate Hrow].
  exists row. split; [reflexivity |].
  destruct (session_row_label_and_met _ _ _ _ _ _ row Hrow) as (_ & Hne & _).
  split; [| exact Hne].
  assert (Hact : option_map (@r_activity float) (session_row 5 0 5 60 75 5)%float
                 = Some "walking") by (vm_compute; reflexivity).
  rewrite Hrow in Hact. cbn [option_map] in Hact. congruence.
Defined.
End RowMet.

(** ** Shapes *)

Lemma zip_with_length (A B C : Type) (f : A -> B -> C) (l1 : list A) (l2 : list B) :
  List.length (zip_with f l1 l2) = Nat.min (List.length l1) (List.length l2).
Proof.
  revert l2. induction l1 as [| a l1 IH]; intros [| b l2]; cbn; auto.
Qed.

Lemma int64_diff_length (l : list Z) :
  List.length (int64_diff l) = (List.length l - 1)%nat.
Proof.
  induction l as [| a [| b l] IH]; cbn in *; auto. rewrite IH. lia.
Qed.

Lemma removelast_length (A : Type) (l : list A) :
  List.length (removelast l) = (List.length l - 1)%nat.
Proof.
  induction l as [| a [| b l] IH]; cbn in *; auto. rewrite IH. lia.
Qed.

Lemma tl_length (A : Type) (l : list A) :
  List.length (tl l) = (List.length l - 1)%nat.
Proof. destruct l; cbn; lia. Qed.

Section TrackShape.
Context {T : Type} {N : Num T} {G : Trig T}.

Lemma haversine_steps_length (lat lon : list T) :
  List.length lat = List.length lon ->
  List.length (haversine_steps_km lat lon) = (List.length lat - 1)%nat.
Proof.
  intros Hlen. unfold haversine_steps_km.
  rewrite zip_with_length, !length_combine, !removelast_length, !tl_length.
  lia.
Qed.

Lemma track_speed_length (pos : PosLog T) :
  List.length (snd (track_distance_speed_from_gps pos))
  = List.length (rows pos).
Proof.
  unfold track_distance_speed_from_gps.
  destruct (Nat.ltb_spec (List.length (map (@latitude T) (rows pos))) 2)
    as [Hshort | Hlong]; cbn [snd].
  - now rewrite !length_map.
  - cbn [List.length]. rewrite zip_with_length, !length_map.
    rewrite haversine_steps_length by now rewrite !length_map.
    rewrite int64_diff_length, !length_map in *. lia.
Qed.

(** X3: the speed array of a track has one entry per row of the log,
    and its first entry, when there is one, is [0.0]. *)
Theorem track_speed_shape (pos : PosLog T) :
  List.length (snd (track_distance_speed_from_gps pos))
  = List.length (rows pos)
  /\ hd_error (snd (track_distance_speed_from_gps pos))
     = match rows pos with [] => None | _ => Some (lit 0.0) end.
Proof.
  split; [apply track_speed_length |].
  unfold track_distance_speed_from_gps.
  destruct (rows pos) as [| r0 [| r1 rest]]; reflexivity.
Qed.
End TrackShape.

(** ** Elevation gain in exact arithmetic *)

Section ElevationGain.
Local Open Scope R_scope.

Lemma np_maximum_zero_Fin (d : R) :
  np_maximum (lit 0.0) (Fin d) = Fin (Rmax 0 d).
Proof.
  unfold np_maximum, Rmax. xnorm.
  xsplit; destruct (Rle_dec 0 d); f_equal; lra.
Qed.

Lemma fold_rises (alts : list R) (a acc : R) :
  fold_left add
    (map (np_maximum (lit 0.0)) (np_diff (map Fin (a :: alts)))) (Fin acc)
  = Fin (acc + climb a alts).
Proof.
  revert a acc. induction alts as [| b alts IH]; intros a acc.
  - cbn. f_equal. lra.
  - change (np_diff (map Fin (a :: b :: alts)))
      with ((Fin b - Fin a)%num :: np_diff (map Fin (b :: alts))).
    cbn [map fold_left]. change (Fin b - Fin a)%num with (Fin (b - a)).
    rewrite np_maximum_zero_Fin.
    change (Fin acc + Fin (Rmax 0 (b - a)))%num
      with (Fin (acc + Rmax 0 (b - a))).
    change (Fin b :: map Fin alts) with (map Fin (b :: alts)). rewrite IH. cbn [climb]. f_equal. lra.
Qed.

Lemma elevation_gain_climb (pos : PosLog xreal) (a : R) (alts : list R) :
  has_altitude pos = true ->
  map (@altitude xreal) (rows pos) = map Fin (a :: alts) ->
  elevation_gain_m pos = Fin (climb a alts).
Proof.
  intros Halt Hrows. unfold elevation_gain_m. rewrite Halt, Hrows.
  destruct alts as [| b alts].
  - cbn. f_equal. lra.
  - change (np_diff (map Fin (a :: b :: alts)))
      with ((Fin b - Fin a)%num :: np_diff (map Fin (b :: alts))).
    cbn [map np_sum]. change (Fin b - Fin a)%num with (Fin (b - a)).
    rewrite np_maximum_zero_Fin.
    change (Fin b :: map Fin alts) with (map Fin (b :: alts)).
    rewrite fold_rises. reflexivity.
Qed.

Lemma last_cons (A : Type) (a d : A) (l : list A) :
  last (a :: l) d = last l a.
Proof.
  revert a d. induction l as [| b l IH]; intros a d; [reflexivity |].
  change (last (a :: b :: l) d) with (last (b :: l) d).
  now rewrite (IH b d), (IH b a).
Qed.

Lemma climb_bounds (a : R) (alts : list R) :
  0 <= climb a alts /\ last alts a - a <= climb a alts.
Proof.
  revert a. induction alts as [| b alts IH]; intros a; cbn [climb].
  - cbn [last]. split; lra.
  - destruct (IH b) as [H0 H1]. rewrite last_cons.
    pose proof (Rmax_l 0 (b - a)). pose proof (Rmax_r 0 (b - a)).
    split; lra.
Qed.

Lemma climb_ascending (a : R) (alts : list R) :
  Sorted Rle (a :: alts) -> climb a alts = last alts a - a.
Proof.
  revert a. induction alts as [| b alts IH]; intros a Hs; cbn [climb].
  - cbn [last]. lra.
  - inversion Hs as [| ? ? Hs' Hhd]; subst. inversion Hhd; subst.
    rewrite (IH b Hs'), Rmax_right, last_cons by lra. lra.
Qed.

Lemma climb_descending (a : R) (alts : list R) :
  Sorted Rge (a :: alts) -> climb a alts = 0.
Proof.
  revert a. induction alts as [| b alts IH]; intros a Hs; cbn [climb].
  - reflexivity.
  - inversion Hs as [| ? ? Hs' Hhd]; subst. inversion Hhd; subst.
    rewrite (IH b Hs'), Rmax_left by lra. lra.
Qed.


End ElevationGain.

(** ** Duration and average speed in exact arithmetic *)

Lemma wrap64_small (z : Z) :
  (- 2 ^ 63 <= z < 2 ^ 63)%Z -> wrap64 z = z.
Proof.
  intros Hz. unfold wrap64. rewrite Z.mod_small by lia. lia.
Qed.

Section Duration.
Local Open Scope R_scope.

Lemma last_app_one (A : Type) (l : list A) (x d : A) : last (l ++ [x]) d = x.
Proof. apply last_last. Qed.


End Duration.

(** ** The range of the life-expectancy estimate *)

Section GainRange.
Local Open Scope R_scope.

Lemma gain_range (w : xreal) :
  exists y : R,
    estimate_life_expectancy_gain w = Fin y /\ 0 <= y <= 6.7.
Proof.
  destruct w as [w | | |];
    try (exists 0; split; [cbn; f_equal; lra | lra]).
  unfold estimate_life_expectancy_gain, py_min.
  xauto; eexists; (split; [reflexivity | lra]).
Qed.

(** X6: without rounding, the years shown in the KPI header lie between 0
    and 6.7 whatever the summary holds, NaN and infinite entries
    included. *)
Theorem kpi_years_bounded (summary : list (SummaryRow xreal)) :
  exists y : R,
    k_years_gained (kpi_header summary) = Fin y /\ 0 <= y <= 6.7.
Proof. unfold kpi_header. cbn [k_years_gained]. apply gain_range. Qed.
End GainRange.

(** ** The range of the haversine distance *)

Section HaversineRange.
Local Open Scope R_scope.

Lemma Ratan2_quadrant (y x : R) :
  0 <= y -> 0 <= x -> 0 <= Ratan2 y x <= PI / 2.
Proof.
  intros Hy Hx. unfold Ratan2. pose proof PI_RGT_0 as Hpi.
  destruct (Rltb_spec 0 x) as [Hpos | Hzero].
  - pose proof (atan_bound (y / x)) as [_ Hub].
    assert (Hq : 0 <= y / x).
    { apply Rmult_le_pos; [assumption |].
      left. now apply Rinv_0_lt_compat. }
    split; [| lra]. destruct Hq as [Hq | <-].
    + apply atan_increasing in Hq. rewrite atan_0 in Hq. lra.
    + rewrite atan_0. lra.
  - destruct (Rltb_spec x 0) as [Hneg | _]; [exfalso; lra |].
    destruct (Rltb_spec 0 y) as [_ | _]; [lra |].
    destruct (Rltb_spec y 0) as [Hneg | _]; [exfalso; lra | lra].
Qed.

Lemma sin_sqr_bound (x : R) :
  0 <= Rtrigo_def.sin x * Rtrigo_def.sin x <= 1.
Proof.
  pose proof (sin2_cos2 x) as H. unfold Rsqr in H.
  pose proof (Rle_0_sqr (Rtrigo_def.sin x)) as Hs.
  pose proof (Rle_0_sqr (Rtrigo_def.cos x)) as Hc.
  unfold Rsqr in Hs, Hc. lra.
Qed.

(** The haversine term [a] of two latitudes in [-90, 90] lies in [0, 1]. *)
Lemma haversine_term_range (lat1 lon1 lat2 lon2 : R) :
  -90 <= lat1 <= 90 -> -90 <= lat2 <= 90 ->
  let x := (lat2 - lat1) * (PI / 180) / 2 in
  let y := (lon2 - lon1) * (PI / 180) / 2 in
  let a := Rtrigo_def.sin x * Rtrigo_def.sin x
           + Rtrigo_def.cos (lat1 * (PI / 180))
             * Rtrigo_def.cos (lat2 * (PI / 180))
             * (Rtrigo_def.sin y * Rtrigo_def.sin y) in
  0 <= a <= 1.
Proof.
  intros H1 H2 x y a. pose proof PI_RGT_0 as Hpi.
  set (p1 := lat1 * (PI / 180)) in *. set (p2 := lat2 * (PI / 180)) in *.
  assert (Hc1 : 0 <= Rtrigo_def.cos p1)
    by (apply cos_ge_0; unfold p1; nra).
  assert (Hc2 : 0 <= Rtrigo_def.cos p2)
    by (apply cos_ge_0; unfold p2; nra).
  pose proof (sin_sqr_bound x) as Hsx. pose proof (sin_sqr_bound y) as Hsy.
  assert (Hx : Rtrigo_def.sin x * Rtrigo_def.sin x
               = (1 - Rtrigo_def.cos (p2 - p1)) / 2).
  { pose proof (cos_2a_sin x) as H. replace (2 * x) with (p2 - p1) in H
      by (unfold x, p1, p2; lra). lra. }
  pose proof (cos_minus p2 p1) as Hminus.
  pose proof (cos_plus p2 p1) as Hplus.
  pose proof (COS_bound (p2 + p1)) as [_ Hb].
  assert (HC : 0 <= Rtrigo_def.cos p1 * Rtrigo_def.cos p2)
    by now apply Rmult_le_pos.
  unfold a. split; [nra |]. nra.
Qed.

Lemma haversine_exact_range (lat1 lon1 lat2 lon2 : R) :
  -90 <= lat1 <= 90 -> -90 <= lat2 <= 90 ->
  exists d : R,
    haversine_distance_km (Fin lat1) (Fin lon1) (Fin lat2) (Fin lon2) = Fin d
    /\ 0 <= d <= 6371 * PI.
Proof.
  intros H1 H2.
  pose proof (haversine_term_range lat1 lon1 lat2 lon2 H1 H2) as Ha.
  cbv zeta in Ha.
  set (a := Rtrigo_def.sin ((lat2 - lat1) * (PI / 180) / 2)
            * Rtrigo_def.sin ((lat2 - lat1) * (PI / 180) / 2)
            + Rtrigo_def.cos (lat1 * (PI / 180))
              * Rtrigo_def.cos (lat2 * (PI / 180))
              * (Rtrigo_def.sin ((lon2 - lon1) * (PI / 180) / 2)
                 * Rtrigo_def.sin ((lon2 - lon1) * (PI / 180) / 2))) in *.
  assert (Hdist : forall a' : R, a' = a ->
    (if Rltb a' 0 then Nan else Fin (R_sqrt.sqrt a')) = Fin (R_sqrt.sqrt a)
    /\ (if Rltb (1 - a') 0 then Nan else Fin (R_sqrt.sqrt (1 - a')))
       = Fin (R_sqrt.sqrt (1 - a))).
  { intros a' ->.
    destruct (Rltb_spec a 0); [exfalso; lra |].
    destruct (Rltb_spec (1 - a) 0); [exfalso; lra |]. split; reflexivity. }
  exists (6371 * (2 * Ratan2 (R_sqrt.sqrt a) (R_sqrt.sqrt (1 - a)))).
  assert (Hq : 0 <= Ratan2 (R_sqrt.sqrt a) (R_sqrt.sqrt (1 - a)) <= PI / 2)
    by (apply Ratan2_quadrant; apply R_sqrt.sqrt_pos).
  split; [| lra].
  unfold haversine_distance_km.
  cbn [np_radians np_sin np_cos np_sqrt np_arctan2 xreal_Trig].
  xnorm.
  match goal with
  | |- context [Rltb ?a' 0] =>
      destruct (Hdist a') as [-> Hs2];
      [unfold a; f_equal; [| f_equal]; f_equal; f_equal; lra |]
  end.
  xnorm. rewrite Hs2. cbn [xarctan2]. xnorm. f_equal. lra.
Qed.

(** The distance is the same in both directions, for all finite
    coordinates. *)
Lemma haversine_symmetric_exact (lat1 lon1 lat2 lon2 : R) :
  haversine_distance_km (Fin lat1) (Fin lon1) (Fin lat2) (Fin lon2)
  = haversine_distance_km (Fin lat2) (Fin lon2) (Fin lat1) (Fin lon1).
Proof.
  unfold haversine_distance_km.
  cbn [np_radians np_sin np_cos np_sqrt np_arctan2 xreal_Trig].
  xnorm.
  replace ((lat1 - lat2) * (PI / 180) / (20 * / 10))
    with (- ((lat2 - lat1) * (PI / 180) / (20 * / 10))) by lra.
  replace ((lon1 - lon2) * (PI / 180) / (20 * / 10))
    with (- ((lon2 - lon1) * (PI / 180) / (20 * / 10))) by lra.
  rewrite !sin_neg.
  set (sx := Rtrigo_def.sin ((lat2 - lat1) * (PI / 180) / (20 * / 10))).
  set (sy := Rtrigo_def.sin ((lon2 - lon1) * (PI / 180) / (20 * / 10))).
  set (c1 := Rtrigo_def.cos (lat1 * (PI / 180))).
  set (c2 := Rtrigo_def.cos (lat2 * (PI / 180))).
  replace (- sx * - sx + c2 * c1 * (- sy * - sy))
    with (sx * sx + c1 * c2 * (sy * sy)) by ring.
  reflexivity.
Qed.


End HaversineRange.

(** ** Distance and speeds of a track in exact arithmetic *)

Section TrackExact.
Local Open Scope R_scope.

Lemma haversine_steps_exact (lats lons : list R) :
  List.length lats = List.length lons ->
  Forall (fun la => -90 <= la <= 90) lats ->
  exists ds : list R,
    haversine_steps_km (map Fin lats) (map Fin lons) = map Fin ds
    /\ Forall (fun d => 0 <= d <= 6371 * PI) ds.
Proof.
  revert lons. induction lats as [| la0 lats IH]; intros lons Hlen Hall.
  - exists []. split; [reflexivity | constructor].
  - destruct lons as [| lo0 lons]; [discriminate Hlen |].
    injection Hlen as Hlen. inversion Hall as [| ? ? H0 Hall']; subst.
    destruct lats as [| la1 lats].
    + exists []. split; [| constructor].
      destruct lons; [reflexivity | discriminate Hlen].
    + destruct lons as [| lo1 lons]; [discriminate Hlen |].
      destruct (IH (lo1 :: lons) Hlen Hall') as (ds & Hds & Hrange).
      inversion Hall' as [| ? ? H1 _]; subst.
      destruct (haversine_exact_range la0 lo0 la1 lo1 H0 H1) as (d & Hd & Hd').
      exists (d :: ds). split; [| now constructor].
      unfold haversine_steps_km in *.
      change (map Fin (la0 :: la1 :: lats))
        with (Fin la0 :: map Fin (la1 :: lats)).
      change (map Fin (lo0 :: lo1 :: lons))
        with (Fin lo0 :: map Fin (lo1 :: lons)).
      change (removelast (Fin la0 :: map Fin (la1 :: lats)))
        with (Fin la0 :: removelast (map Fin (la1 :: lats))).
      change (removelast (Fin lo0 :: map Fin (lo1 :: lons)))
        with (Fin lo0 :: removelast (map Fin (lo1 :: lons))).
      cbn [tl]. change (map Fin (la1 :: lats)) with (Fin la1 :: map Fin lats) at 2.
      change (map Fin (lo1 :: lons)) with (Fin lo1 :: map Fin lons) at 2.
      cbn [combine zip_with fst snd map]. rewrite Hd. f_equal.
      exact Hds.
Qed.

Lemma fold_add_Fin (l : list R) (acc : R) :
  fold_left add (map Fin l) (Fin acc) = Fin (fold_left Rplus l acc).
Proof.
  revert acc. induction l as [| x l IH]; intros acc; [reflexivity |].
  cbn [map fold_left]. change (Fin acc + Fin x)%num with (Fin (acc + x)).
  apply IH.
Qed.

Lemma fold_plus_nonneg (l : list R) (acc : R) :
  Forall (fun d => 0 <= d) l -> acc <= fold_left Rplus l acc.
Proof.
  revert acc. induction l as [| x l IH]; intros acc Hall; cbn [fold_left];
    [lra |].
  inversion Hall as [| ? ? Hx Hall']; subst.
  specialize (IH (acc + x) Hall'). lra.
Qed.

Lemma np_nansum_exact (ds : list R) :
  Forall (fun d => 0 <= d) ds ->
  exists t : R, np_nansum (map Fin ds) = Fin t /\ 0 <= t.
Proof.
  intros Hall. unfold np_nansum. rewrite map_map. cbn [isnan xreal_Num xisnan].
  destruct ds as [| d ds].
  - exists (Q2R 0.0). split; [reflexivity |]. lit_norm. lra.
  - inversion Hall as [| ? ? Hd Hall']; subst.
    exists (fold_left Rplus ds d). cbn [map np_sum].
    change (map (fun x : R => Fin x) ds) with (map Fin ds).
    rewrite fold_add_Fin. split; [reflexivity |].
    pose proof (fold_plus_nonneg ds d Hall'). lra.
Qed.

Lemma np_maximum_Fin (a b : R) :
  np_maximum (Fin a) (Fin b) = Fin (Rmax a b).
Proof.
  unfold np_maximum, Rmax. xnorm.
  xsplit; destruct (Rle_dec a b); f_equal; lra.
Qed.

Lemma time_steps_exact (ts : list Z) :
  exists dts : list R,
    map (fun d => np_maximum (lit 1e-6) (of_int d / lit 1000.0)%num)
      (int64_diff ts) = map Fin dts
    /\ Forall (fun dt => 0 < dt) dts.
Proof.
  induction (int64_diff ts) as [| d l (dts & Heq & Hall)].
  - exists []. split; [reflexivity | constructor].
  - exists (Rmax (Q2R 1e-6) (IZR d / 1000) :: dts). cbn [map]. split.
    + rewrite Heq. f_equal. xnorm. rewrite np_maximum_Fin. f_equal.
      f_equal; lra.
    + constructor; [| assumption].
      pose proof (Rmax_l (Q2R 1e-6) (IZR d / 1000)) as H.
      assert (0 < Q2R 1e-6) by (lit_norm; lra). lra.
Qed.

Lemma speeds_exact (ds dts : list R) :
  Forall (fun d => 0 <= d) ds -> Forall (fun dt => 0 < dt) dts ->
  exists vs : list R,
    zip_with div (map (fun d => d * lit 1000.0)%num (map Fin ds)) (map Fin dts)
    = map Fin vs
    /\ Forall (fun v => 0 <= v) vs.
Proof.
  intros Hds. revert dts. induction Hds as [| d ds Hd Hds IH];
    intros dts Hdts.
  - exists []. split; [reflexivity | constructor].
  - destruct Hdts as [| dt dts Hdt Hdts].
    + exists []. split; [reflexivity | constructor].
    + destruct (IH dts Hdts) as (vs & Heq & Hvs).
      exists (d * 1000 / dt :: vs). cbn [map zip_with]. rewrite Heq. split.
      * f_equal. xnorm. f_equal. lra.
      * constructor; [| assumption].
        apply Rmult_le_pos; [lra |]. left. now apply Rinv_0_lt_compat.
Qed.


End TrackExact.

(** ** Signs of binary64 sums *)

(** The sum of two values [>= 0] is [>= 0]. *)
Lemma SFadd_nonneg (a b : spec_float) :
  SFleb sf_zero a = true -> SFleb sf_zero b = true ->
  SFadd prec emax a b = S754_nan
  \/ SFleb sf_zero (SFadd prec emax a b) = true.
Proof.
  destruct a as [[] | [] | | [] ma ea], b as [[] | [] | | [] mb eb];
    try discriminate; intros _ _; try (right; reflexivity).
  cbn [SFadd cond_Zopp Z.add]. unfold binary_normalize, binary_round.
  match goal with
  | |- context [shl_align ?m ?e ?e'] =>
      destruct (shl_align m e e') as [mz ez]
  end.
  apply binary_round_aux_nonneg.
Qed.

(** A value that is not a NaN and not below zero. *)
Lemma float_not_below_zero (d : float) :
  PrimFloat.ltb d 0 = false -> is_nan d = true \/ PrimFloat.leb 0 d = true.
Proof.
  rewrite ltb_spec, leb_spec, is_nan_spec.
  change (Prim2SF 0) with (S754_zero false).
  unfold SFltb, SFleb, SFcompare.
  destruct (Prim2SF d) as [[] | [] | | [] m e]; intros H;
    try discriminate H; auto.
Qed.

Section GainSign.
Local Open Scope num_scope.

(** NaN or at least zero. *)
Lemma nonneg_or_nan_add (a b : float) :
  is_nan a = true \/ PrimFloat.leb 0 a = true ->
  is_nan b = true \/ PrimFloat.leb 0 b = true ->
  is_nan (a + b)%float = true \/ PrimFloat.leb 0 (a + b)%float = true.
Proof.
  rewrite !is_nan_spec, !leb_spec, add_spec.
  change (Prim2SF 0) with sf_zero. unfold SF64add.
  intros [-> | Ha]; [now left |].
  intros [-> | Hb].
  - left. now destruct (Prim2SF a) as [[] | [] | | [] m e].
  - now apply SFadd_nonneg.
Qed.

Lemma nonneg_or_nan_fold (l : list float) (acc : float) :
  is_nan acc = true \/ PrimFloat.leb 0 acc = true ->
  Forall (fun x => is_nan x = true \/ PrimFloat.leb 0 x = true) l ->
  is_nan (fold_left add l acc) = true
  \/ PrimFloat.leb 0 (fold_left add l acc) = true.
Proof.
  revert acc. induction l as [| x l IH]; intros acc Hacc Hall;
    cbn [fold_left]; [assumption |].
  inversion Hall as [| ? ? Hx Hall']; subst.
  apply IH; [| assumption]. now apply nonneg_or_nan_add.
Qed.

Lemma np_maximum_zero_sign (d : float) :
  is_nan (np_maximum (lit 0.0) d) = true
  \/ PrimFloat.leb 0 (np_maximum (lit 0.0) d) = true.
Proof.
  unfold np_maximum. cbn [isnan ltb float_Num].
  change (lit 0.0 : float) with 0%float.
  change (is_nan 0) with false. cbn iota.
  destruct (PrimFloat.ltb d 0) eqn:Hd; [now right |].
  now apply float_not_below_zero.
Qed.

Lemma elevation_gain_sign (pos : PosLog float) :
  is_nan (elevation_gain_m pos) = true
  \/ PrimFloat.leb 0 (elevation_gain_m pos) = true.
Proof.
  unfold elevation_gain_m. destruct (has_altitude pos); [| now right].
  destruct (np_diff (map (@altitude float) (rows pos))) as [| d diffs];
    [now right |].
  cbn [map np_sum]. apply nonneg_or_nan_fold.
  - apply np_maximum_zero_sign.
  - apply Forall_forall. intros x Hx. apply in_map_iff in Hx.
    destruct Hx as (y & <- & _). apply np_maximum_zero_sign.
Qed.

(** X9: in binary64 the elevation gain of a log is never negative: it is
    NaN or at least zero, whatever the altitudes are, and so are the floors
    computed from it. *)
Theorem elevation_gain_never_negative (pos : PosLog float) :
  (is_nan (elevation_gain_m pos) = true
   \/ PrimFloat.leb 0 (elevation_gain_m pos) = true)
  /\ (is_nan (floors_from_gain (elevation_gain_m pos)) = true
      \/ PrimFloat.leb 0 (floors_from_gain (elevation_gain_m pos)) = true).
Proof.
  pose proof (elevation_gain_sign pos) as Hgain.
  split; [exact Hgain |]. unfold floors_from_gain.
  cbn [div float_Num]. revert Hgain.
  rewrite !is_nan_spec, !leb_spec, div_spec.
  change (Prim2SF 0) with sf_zero. unfold SF64div.
  intros [-> | Hg]; [now left |].
  apply SFdiv_nonneg; [assumption | reflexivity].
Qed.

(** X10: no summary row has negative calories when the weight is not
    negative: the calories are NaN or at least zero. *)
Theorem session_row_calories_sign
    (total_km gain_m avg_kmh minutes weight pred30 : float)
    (row : SummaryRow float) :
  session_row total_km gain_m avg_kmh minutes weight pred30 = Some row ->
  PrimFloat.leb 0 weight = true ->
  is_nan (r_calories_kcal row) = true
  \/ PrimFloat.leb 0 (r_calories_kcal row) = true.
Proof.
  intros Hrow Hw.
  assert (Hkcal : r_calories_kcal row
                  = calories_from_met (r_met row) minutes weight).
  { apply (session_row_fields _ _ _ _ _ _ _ _ _ Hrow). }
  assert (Hmet : PrimFloat.leb 0 (r_met row) = true).
  { destruct (session_row_activity_met _ _ _ _ _ _ _ _ _ Hrow) as [_ ->].
    destruct (met_overall_range (r_activity row) avg_kmh) as [H _].
    cbn [leb float_Num] in H.
    eapply float_leb_trans; [| exact H]. vm_compute. reflexivity. }
  rewrite Hkcal.
  destruct (is_nan (calories_from_met (r_met row) minutes weight)) eqn:Hn;
    [now left | right].
  now apply calories_nonneg_binary64.
Qed.

Lemma session_row_calories_sign_witness :
  exists row : SummaryRow float,
    (session_row 5 0 5 60 75 5)%float = Some row
    /\ PrimFloat.leb 0 (r_calories_kcal row) = true.
Proof.
  destruct (session_row 5 0 5 60 75 5)%float as [row |] eqn:Hrow;
    [| discriminate Hrow].
  exists row. split; [reflexivity |].
  destruct (session_row_calories_sign _ _ _ _ _ _ row Hrow eq_refl)
    as [Hn | Hle]; [| exact Hle].
  assert (Hc : option_map (fun r => is_nan (r_calories_kcal r))
                 (session_row 5 0 5 60 75 5)%float = Some false)
    by (vm_compute; reflexivity).
  rewrite Hrow in Hc. cbn [option_map] in Hc. congruence.
Defined.
End GainSign.

(** ** The smoothed series *)

Section Smoothing.
Local Open Scope R_scope.

Lemma ema_from_bounds (lo hi a : R) (values : list R) (prev : R) :
  0 <= a <= 1 -> lo <= prev <= hi ->
  Forall (fun v => lo <= v <= hi) values ->
  exists ys : list R,
    ema_from (Fin prev) (map Fin values) (Fin a) = map Fin ys
    /\ List.length ys = List.length values
    /\ Forall (fun y => lo <= y <= hi) ys.
Proof.
  intros Ha. revert prev. induction values as [| v values IH];
    intros prev Hprev Hall.
  - exists []. repeat split; constructor.
  - inversion Hall as [| ? ? Hv Hall']; subst.
    set (y := a * v + (1 - a) * prev).
    assert (Hy : lo <= y <= hi) by (unfold y; split; nra).
    destruct (IH y Hy Hall') as (ys & Heq & Hlen & Hys).
    exists (y :: ys). cbn [map ema_from List.length].
    split; [| split; [now rewrite Hlen | now constructor]].
    assert (Hstep : (Fin a * Fin v + (lit 1.0 - Fin a) * Fin prev)%num = Fin y).
    { xnorm. unfold y. f_equal. lra. }
    rewrite Hstep, Heq. reflexivity.
Qed.


End Smoothing.

(** ** The forecast in binary64 *)

Lemma float_leb_not_nan (a b : float) :
  PrimFloat.leb a b = true -> is_nan a = false /\ is_nan b = false.
Proof.
  intros Hle.
  assert (Ha : is_nan a <> true).
  { rewrite is_nan_spec. intros Hn. rewrite leb_spec, Hn in Hle.
    discriminate Hle. }
  assert (Hb : is_nan b <> true).
  { rewrite is_nan_spec. intros Hn. rewrite leb_spec, Hn in Hle.
    destruct (Prim2SF a) as [[] | [] | | [] ? ?]; discriminate Hle. }
  split; [now destruct (is_nan a) | now destruct (is_nan b)].
Qed.

(** [max(0.0, s)] is never negative and never NaN. *)
Lemma py_max_zero_nonneg (s : float) :
  PrimFloat.leb 0 (py_max (lit 0.0) s) = true.
Proof.
  unfold py_max. cbn [ltb float_Num].
  change (lit 0.0 : float) with 0%float.
  destruct (PrimFloat.ltb 0 s) eqn:Hs; [now apply float_ltb_leb |].
  reflexivity.
Qed.

(** [max(lo, x)] with [lo > 0] is not [<= 0]. *)
Lemma py_max_positive (lo x : float) :
  PrimFloat.ltb 0 lo = true -> PrimFloat.leb (py_max lo x) 0 = false.
Proof.
  intros Hlo. unfold py_max. cbn [ltb float_Num].
  assert (Hpos : forall y, PrimFloat.leb lo y = true ->
                           PrimFloat.leb y 0 = false).
  { intros y Hy. destruct (PrimFloat.leb y 0) eqn:Hy0; [| reflexivity].
    pose proof (float_leb_trans _ _ _ Hy Hy0) as H.
    apply float_leb_not_gt in H. congruence. }
  destruct (PrimFloat.ltb lo x) eqn:Hx.
  - apply Hpos. now apply float_ltb_leb.
  - apply Hpos. apply float_ltb_leb in Hlo.
    now destruct (float_leb_refl _ _ Hlo).
Qed.

Section Forecast.
Local Open Scope num_scope.

Lemma predict_cases (speed_kmh : list float) (dt_sec : float) (horizon_sec : Z)
    (r : float) :
  predict_speed_next_kmh speed_kmh dt_sec horizon_sec = Some r ->
  if (List.length speed_kmh <? 6)%nat || (dt_sec <=? lit 0)
  then r = nan
  else PrimFloat.leb 0 r = true.
Proof.
  unfold predict_speed_next_kmh.
  destruct ((List.length speed_kmh <? 6)%nat || (dt_sec <=? lit 0)).
  - intros H. now injection H as <-.
  - destruct (py_round _) as [steps |]; [| discriminate].
    intros H. injection H as <-. apply py_max_zero_nonneg.
Qed.

(** X12: a forecast that is returned is NaN exactly when there are fewer
    than six speeds or the time step is not positive; any other forecast is
    at least zero, a NaN or negative extrapolation being returned as
    [0.0]. *)
Theorem predict_nan_or_nonneg (speed_kmh : list float) (dt_sec : float)
    (horizon_sec : Z) (r : float) :
  predict_speed_next_kmh speed_kmh dt_sec horizon_sec = Some r ->
  (is_nan r = true
   <-> (List.length speed_kmh < 6)%nat \/ (dt_sec <=? lit 0) = true)
  /\ (is_nan r = false -> PrimFloat.leb 0 r = true).
Proof.
  intros Hr. apply predict_cases in Hr.
  destruct (Nat.ltb_spec (List.length speed_kmh) 6) as [Hshort | Hlong];
    cbn [orb] in Hr.
  - subst r. split; [split; [now left | reflexivity] | discriminate].
  - destruct (dt_sec <=? lit 0) eqn:Hdt.
    + subst r. split; [split; [now right | reflexivity] | discriminate].
    + destruct (float_leb_not_nan _ _ Hr) as [_ Hn]. rewrite Hn.
      split; [| intros _; exact Hr].
      split; [discriminate | intros [H | H]; [lia | discriminate]].
Qed.

Lemma predict_nan_or_nonneg_witness :
  exists r : float,
    predict_speed_next_kmh [5; 5.5; 6; 5; 4.5; 5; 5.5]%float 1%float 30
    = Some r
    /\ PrimFloat.leb 0 r = true.
Proof.
  destruct (predict_speed_next_kmh [5; 5.5; 6; 5; 4.5; 5; 5.5]%float
              1%float 30) as [r |] eqn:Hr;
    [| vm_compute in Hr; discriminate Hr].
  exists r. split; [reflexivity |].
  destruct (predict_nan_or_nonneg _ _ _ _ Hr) as [_ Hnonneg].
  apply Hnonneg. vm_compute in Hr. injection Hr as <-. reflexivity.
Defined.

(** The time step the session loop passes is at least [0.1]. *)
Lemma session_dt_positive (x : float) :
  (py_max (lit 0.1) x <=? lit 0) = false.
Proof.
  cbn [leb float_Num]. change (lit 0 : float) with 0%float.
  apply py_max_positive. vm_compute. reflexivity.
Qed.

(** X13: in a summary row the forecast is NaN exactly when the log has
    fewer than six rows, and at least zero otherwise. *)
Theorem summarize_forecast (G : Trig float) (pos : PosLog float)
    (weight : float) (row : SummaryRow float) :
  summarize pos weight = Some row ->
  (is_nan (r_pred_next_30s_speed_kmh row) = true
   <-> (List.length (rows pos) < 6)%nat)
  /\ ((6 <= List.length (rows pos))%nat ->
      PrimFloat.leb 0 (r_pred_next_30s_speed_kmh row) = true).
Proof.
  unfold summarize.
  pose proof (track_speed_length pos) as Hlen.
  destruct (track_distance_speed_from_gps pos) as [total_km speed_ms].
  cbn [snd] in Hlen.
  destruct (predict_speed_next_kmh _ _ 30) as [pred30 |] eqn:Hpred;
    [| discriminate].
  intros Hrow.
  assert (Hp : r_pred_next_30s_speed_kmh row = pred30).
  { apply (session_row_fields _ _ _ _ _ _ _ _ _ Hrow). }
  rewrite Hp. apply predict_cases in Hpred.
  rewrite session_dt_positive, orb_false_r, length_map, Hlen in Hpred.
  destruct (Nat.ltb_spec (List.length (rows pos)) 6) as [Hshort | Hlong].
  - subst pred30. split; [split; [intros _; exact Hshort | reflexivity] | lia].
  - destruct (float_leb_not_nan _ _ Hpred) as [_ Hn]. rewrite Hn.
    split; [split; [discriminate | lia] | intros _; exact Hpred].
Qed.

Lemma summarize_forecast_witness :
  exists row : SummaryRow float,
    @summarize float float_Num first_order_Trig two_sample_log 75%float
    = Some row
    /\ is_nan (r_pred_next_30s_speed_kmh row) = true.
Proof.
  destruct (@summarize float float_Num first_order_Trig two_sample_log
              75%float) as [row |] eqn:Hrow;
    [| vm_compute in Hrow; discriminate Hrow].
  exists row. split; [reflexivity |].
  apply (proj1 (summarize_forecast first_order_Trig two_sample_log 75%float
                  row Hrow)).
  cbn. lia.
Defined.
End Forecast.

(** ** Quotients that do not overflow *)

Section NoOverflowDiv.
Local Open Scope Z_scope.

(** Rounding a magnitude below [2^k * 2^e], [k <= 1024], gives a finite
    value when [e + 2 * k] stays below the largest exponent. *)
Lemma binary_round_aux_bounded (s : bool) (m e k : Z) (l : location) :
  0 <= m < 2 ^ k -> 0 <= k <= 1024 -> e + 2 * k <= 971 ->
  sf_is_finite (binary_round_aux prec emax s m e l) = true.
Proof.
  intros Hm Hk He. unfold binary_round_aux, shr_fexp.
  set (n1 := fexp prec emax (Zdigits2 m + e) - e).
  pose proof (shr_bound (shr_record_of_loc m l) e n1) as H1.
  rewrite shr_record_of_loc_m in H1. specialize (H1 (proj1 Hm)).
  destruct (shr (shr_record_of_loc m l) e n1) as [mrs1 e1].
  cbn [fst snd] in H1. destruct H1 as [Hm1 He1].
  set (m1 := round_nearest_even (shr_m mrs1) (loc_of_shr_record mrs1)).
  pose proof (round_nearest_even_bound (shr_m mrs1) (loc_of_shr_record mrs1))
    as Hr. fold m1 in Hr.
  set (n2 := fexp prec emax (Zdigits2 m1 + e1) - e1).
  pose proof (shr_bound (shr_record_of_loc m1 loc_Exact) e1 n2) as H2.
  rewrite shr_record_of_loc_m in H2.
  assert (Hm1' : 0 <= m1) by lia. specialize (H2 Hm1').
  destruct (shr (shr_record_of_loc m1 loc_Exact) e1 n2) as [mrs2 e2].
  cbn [fst snd] in H2. destruct H2 as [Hm2 He2].
  assert (Hd : Zdigits2 m <= k) by (apply Zdigits2_bound; lia).
  assert (Hd1 : Zdigits2 m1 <= k + 1).
  { apply Zdigits2_bound; [| lia].
    replace (k + 1) with (Z.succ k) by lia. rewrite Z.pow_succ_r by lia. lia. }
  assert (Hd0 : 0 <= Zdigits2 m) by (destruct m; cbn; lia).
  assert (Hd10 : 0 <= Zdigits2 m1) by (destruct m1; cbn; lia).
  unfold n1 in He1. unfold n2 in He2. rewrite fexp_binary64 in He1, He2.
  destruct (shr_m mrs2) as [| p | p]; [reflexivity | | lia].
  destruct (Z.leb_spec e2 (emax - prec)) as [_ | Hbig]; [reflexivity |].
  change (emax - prec) with 971 in Hbig. lia.
Qed.

(** A binary64 value above [0.1] is an infinity or has a full mantissa
    and an exponent of at least [-56]. *)
Lemma above_tenth (y : spec_float) :
  valid_binary y = true -> SFltb (Prim2SF 0.1) y = true ->
  y = S754_infinity false
  \/ exists m e, y = S754_finite false m e
                 /\ -56 <= e <= 971 /\ 2 ^ 52 <= Z.pos m.
Proof.
  intros Hv Hlt. destruct y as [[] | [] | | [] m e]; try discriminate Hlt.
  - now left.
  - right. exists m, e. split; [reflexivity |].
    assert (He : -56 <= e).
    { change (Prim2SF 0.1)
        with (S754_finite false 7205759403792794 (-56)) in Hlt.
      unfold SFltb, SFcompare in Hlt.
      destruct (Z.compare_spec (-56) e); [lia | lia | discriminate Hlt]. }
    cbn [SpecFloat.valid_binary] in Hv. unfold bounded, canonical_mantissa in Hv.
    apply andb_prop in Hv. destruct Hv as [Hc Hb].
    apply Z.eqb_eq in Hc. apply Z.leb_le in Hb.
    change (emax - prec) with 971 in Hb.
    rewrite fexp_binary64, digits2_pos_size in Hc.
    assert (Hs : Z.pos (Pos.size m) = 53) by lia.
    pose proof (Pos.size_le m) as Hle.
    apply Pos2Z.pos_le_pos in Hle. rewrite Pos2Z.inj_pow in Hle.
    rewrite Hs in Hle. change (Z.pos m~0) with (2 * Z.pos m) in Hle.
    change (Z.pos 2 ^ 53) with (2 * 2 ^ 52) in Hle. lia.
Qed.

Lemma SFdiv_thirty_finite (y : spec_float) :
  valid_binary y = true -> SFltb (Prim2SF 0.1) y = true ->
  sf_is_finite (SFdiv prec emax (Prim2SF 30) y) = true.
Proof.
  intros Hv Hlt.
  destruct (above_tenth y Hv Hlt) as [-> | (m & e & -> & He & Hm)];
    [reflexivity |].
  change (Prim2SF 30) with (S754_finite false 8444249301319680 (-48)).
  cbn [SFdiv xorb]. unfold SFdiv_core_binary.
  assert (Hd2 : Zdigits2 (Z.pos m) = 53).
  { apply valid_mantissa in Hv. cbn [Zdigits2].
    rewrite digits2_pos_size.
    pose proof (Pos.size_le m) as Hle. pose proof (Pos.size_gt m) as Hgt.
    apply Pos2Z.pos_le_pos in Hle. apply Pos2Z.pos_lt_pos in Hgt.
    rewrite Pos2Z.inj_pow in Hle, Hgt.
    change (Z.pos m~0) with (2 * Z.pos m) in Hle.
    assert (H1 : 2 ^ 52 < 2 ^ Z.pos (Pos.size m)) by lia.
    assert (H2 : 2 ^ Z.pos (Pos.size m) < 2 ^ 54).
    { change (2 ^ 54) with (2 * 2 ^ 53). lia. }
    apply Z.pow_lt_mono_r_iff in H1; [| lia | lia].
    apply Z.pow_lt_mono_r_iff in H2; lia. }
  rewrite Hd2.
  change (Zdigits2 (Z.pos 8444249301319680)) with 53.
  rewrite fexp_binary64.
  replace (Z.min (Z.max (53 + -48 - (53 + e) - 53) (-1074)) (-48 - e))
    with (-101 - e) by lia.
  replace (-48 - e - (-101 - e)) with 53 by lia.
  cbv beta iota zeta.
  destruct (Z.div_eucl (Z.shiftl (Z.pos 8444249301319680) 53) (Z.pos m))
    as [q r] eqn:Hqr.
  assert (Hq : 0 <= q < 2 ^ 54).
  { pose proof (Z.div_eucl_eq (Z.shiftl (Z.pos 8444249301319680) 53) (Z.pos m))
      as Heq.
    pose proof (Z.mod_pos_bound (Z.shiftl (Z.pos 8444249301319680) 53)
                  (Z.pos m)) as Hmod.
    unfold Z.modulo in Hmod. rewrite Hqr in Heq, Hmod.
    specialize (Heq ltac:(lia)). specialize (Hmod ltac:(lia)).
    change (Z.shiftl (Z.pos 8444249301319680) 53)
      with (8444249301319680 * 2 ^ 53) in Heq.
    assert (Hq0 : 0 <= q) by nia.
    split; [assumption |].
    assert (Hlt' : q * 2 ^ 52 < 2 ^ 54 * 2 ^ 52) by nia.
    nia. }
  apply (binary_round_aux_bounded false q (-101 - e) 54); lia.
Qed.
End NoOverflowDiv.

Lemma round_half_even_finite (x : float) :
  sf_is_finite (Prim2SF x) = true -> round_half_even x <> None.
Proof.
  unfold round_half_even.
  destruct (Prim2SF x) as [s | s | | s m e]; discriminate.
Qed.

Lemma round_half_even_none (x : float) :
  round_half_even x = None <-> sf_is_finite (Prim2SF x) = false.
Proof.
  unfold round_half_even.
  destruct (Prim2SF x) as [s | s | | s m e]; cbn; split;
    try discriminate; reflexivity.
Qed.

Section NeverRaises.
Local Open Scope num_scope.

Lemma steps_quotient_finite (dt_sec : float) :
  py_round (of_int 30 / py_max (lit 0.1) dt_sec) <> None.
Proof.
  cbn [py_round of_int div float_Num]. apply round_half_even_finite.
  unfold py_max. cbn [ltb float_Num].
  destruct (PrimFloat.ltb (lit 0.1) dt_sec) eqn:Hdt.
  - rewrite div_spec. change (Prim2SF (of_Z 30)) with (Prim2SF 30).
    apply SFdiv_thirty_finite; [apply Prim2SF_valid |].
    rewrite <- ltb_spec. exact Hdt.
  - vm_compute. reflexivity.
Qed.

(** X14: with the horizon of 30 seconds the session loop uses, the
    forecast raises no exception, whatever the speeds and the time step
    are. *)
Theorem predict_never_raises (speed_kmh : list float) (dt_sec : float) :
  exists r : float, predict_speed_next_kmh speed_kmh dt_sec 30 = Some r.
Proof.
  unfold predict_speed_next_kmh.
  destruct ((List.length speed_kmh <? 6)%nat || (dt_sec <=? lit 0));
    [eexists; reflexivity |].
  pose proof (steps_quotient_finite dt_sec) as Hsteps.
  destruct (py_round (of_int 30 / py_max (lit 0.1) dt_sec)) as [steps |];
    [eexists; reflexivity | contradiction].
Qed.
End NeverRaises.

(** ** When the loop body raises *)

Lemma is_finite_spec (x : float) :
  is_finite x = sf_is_finite (Prim2SF x).
Proof.
  destruct (is_finite x) eqn:Hf.
  - symmetry. now apply finite_cases.
  - unfold is_finite in Hf. apply negb_false_iff in Hf.
    destruct (Prim2SF x) as [s | s | | s m e] eqn:Hx; cbn [sf_is_finite];
      try reflexivity; exfalso.
    + apply orb_prop in Hf. destruct Hf as [Hf | Hf].
      * apply is_nan_spec in Hf. congruence.
      * unfold is_infinity in Hf. rewrite eqb_spec, abs_spec, Hx in Hf.
        discriminate Hf.
    + apply orb_prop in Hf. destruct Hf as [Hf | Hf].
      * apply is_nan_spec in Hf. congruence.
      * unfold is_infinity in Hf. rewrite eqb_spec, abs_spec, Hx in Hf.
        cbn in Hf. destruct (Z.compare_spec e 0), s; try discriminate Hf;
          cbn in Hf; try discriminate Hf.
Qed.

Section LoopBody.
Local Open Scope num_scope.

Lemma py_round_none (x : float) : py_round x = None <-> isfinite x = false.
Proof.
  cbn [py_round isfinite float_Num]. rewrite is_finite_spec.
  apply round_half_even_none.
Qed.

(** X15: the loop body raises exactly when the step estimate it rounds,
    the distance times 1300, 1000 or 1200 or the floors times 16 as the
    label says, is infinite or NaN. *)
Theorem summarize_raises_iff (G : Trig float) (pos : PosLog float)
    (weight : float) :
  let km := fst (track_distance_speed_from_gps pos) in
  let floors := floors_from_gain (elevation_gain_m pos) in
  let act :=
    normalize_activity
      (act_raw (avg_speed_kmh km pos)
         (floors_per_min floors (minutes_from_pos pos))) in
  summarize pos weight = None
  <-> isfinite
        (if String.eqb act "walking" then km * of_int 1300
         else if String.eqb act "running" then km * of_int 1000
         else if String.eqb act "stairs" then floors * of_int 16
         else km * of_int 1200) = false.
Proof.
  intros km floors act. unfold summarize. subst km.
  destruct (track_distance_speed_from_gps pos) as [total_km speed_ms].
  cbn [fst] in *.
  match goal with
  | |- context [predict_speed_next_kmh ?v ?dt 30] =>
      destruct (predict_speed_next_kmh v dt 30) as [pred30 |] eqn:Hpred;
      [| exfalso; revert Hpred; unfold predict_speed_next_kmh;
         destruct (_ || _); [discriminate |];
         pose proof (steps_quotient_finite dt) as Hq;
         destruct (py_round _); [discriminate | contradiction] ]
  end.
  unfold session_row. fold floors. fold act. unfold est_steps.
  destruct (String.eqb act "walking");
    [| destruct (String.eqb act "running");
       [| destruct (String.eqb act "stairs")]].
  all: rewrite <- py_round_none.
  all: match goal with
       | |- context [py_round ?x] => destruct (py_round x)
       end; split; congruence.
Qed.

(** X16: a log of one sample gives the row of a motionless session,
    whatever the sample is: label ["sitting"], MET 3.5, zero duration,
    distance, gain and steps, and no forecast. *)
Theorem summarize_single_sample (G : Trig float) (s : Sample float)
    (altitudes : bool) (weight : float) :
  exists row : SummaryRow float,
    summarize {| rows := [s]; has_altitude := altitudes |} weight = Some row
    /\ r_activity row = "sitting" /\ r_met row = 3.5%float
    /\ r_duration_min row = 0%float /\ r_distance_km row = 0%float
    /\ r_elevation_gain_m row = 0%float /\ r_floors row = 0%float
    /\ r_estimated_steps row = 0%Z
    /\ is_nan (r_avg_speed_kmh row) = true
    /\ is_nan (r_pred_next_30s_speed_kmh row) = true.
Proof.
  eexists. split.
  - destruct altitudes; vm_compute; reflexivity.
  - cbn. repeat split.
Qed.
End LoopBody.

(** ** Badges *)

(** X17: the badge of a summary row is one of three emoji badges, or the
    bare label ["sitting"]; the badges of ['cycling'] and ['sitting/idle']
    are never shown. *)
Theorem badge_of_row (T : Type) (N : Num T)
    (total_km gain_m avg_kmh minutes weight pred30 : T) (row : SummaryRow T) :
  session_row total_km gain_m avg_kmh minutes weight pred30 = Some row ->
  (badge (r_activity row) = badge "walking"
   \/ badge (r_activity row) = badge "stairs"
   \/ badge (r_activity row) = badge "running"
   \/ (r_activity row = "sitting" /\ badge (r_activity row) = "sitting"))
  /\ badge (r_activity row) <> badge "cycling"
  /\ badge (r_activity row) <> badge "sitting/idle".
Proof.
  intros Hrow.
  destruct (session_row_activity_met _ _ _ _ _ _ _ _ _ Hrow) as [Hact _].
  pose proof (normalize_activity_labels
    (act_raw avg_kmh (floors_per_min (floors_from_gain gain_m) minutes)))
    as Hin.
  rewrite <- Hact in Hin.
  destruct Hin as [H | [H | [H | [H | []]]]]; rewrite <- H;
    (split; [tauto || (right; right; right; split; reflexivity) |]);
    split; discriminate.
Qed.

Lemma badge_of_row_witness :
  exists row : SummaryRow float,
    (session_row 1 0 1 60 75 1)%float = Some row
    /\ badge (r_activity row) = "sitting".
Proof.
  destruct (session_row 1 0 1 60 75 1)%float as [row |] eqn:Hrow;
    [| discriminate Hrow].
  exists row. split; [reflexivity |].
  assert (Hact : option_map (@r_activity float) (session_row 1 0 1 60 75 1)%float
                 = Some "sitting") by (vm_compute; reflexivity).
  rewrite Hrow in Hact. cbn [option_map] in Hact.
  destruct (badge_of_row float float_Num _ _ _ _ _ _ row Hrow)
    as [[H | [H | [H | [_ H]]]] _]; try exact H;
    exfalso; replace (r_activity row) with "sitting" in H by congruence;
    discriminate H.
Defined.

(** ** The folders of the form *)

Lemma rstrip_idempotent (s : string) : rstrip (rstrip s) = rstrip s.
Proof.
  induction s as [| c s IH]; [reflexivity |]. cbn [rstrip].
  destruct (rstrip s) as [| d r] eqn:Hr.
  - destruct (is_space c) eqn:Hc; [reflexivity |]. cbn [rstrip].
    now rewrite Hc.
  - cbn [rstrip]. cbn [rstrip] in IH. rewrite IH. reflexivity.
Qed.

Lemma lstrip_head (s : string) :
  lstrip s = "" \/ exists c s', lstrip s = String c s' /\ is_space c = false.
Proof.
  induction s as [| c s IH]; [now left |]. cbn [lstrip].
  destruct (is_space c) eqn:Hc; [exact IH |]. right. now exists c, s.
Qed.

Lemma rstrip_head (c : ascii) (s : string) :
  is_space c = false -> exists r, rstrip (String c s) = String c r.
Proof.
  intros Hc. cbn [rstrip]. destruct (rstrip s); [rewrite Hc |];
    eexists; reflexivity.
Qed.

Lemma strip_idempotent (s : string) : strip (strip s) = strip s.
Proof.
  unfold strip.
  destruct (lstrip_head s) as [-> | (c & s' & -> & Hc)]; [reflexivity |].
  destruct (rstrip_head c s' Hc) as [r Hr]. rewrite Hr.
  cbn [lstrip]. rewrite Hc, <- Hr. apply rstrip_idempotent.
Qed.

Lemma splitlines_line (line rest : string) :
  forallb (fun c => negb (is_linebreak c)) (list_ascii_of_string line) = true ->
  splitlines (line ++ String "010" rest) = line :: splitlines rest.
Proof.
  induction line as [| d line IH]; intros Hline.
  - cbn [append splitlines]. change (is_linebreak "010") with true. cbn iota.
    destruct rest; reflexivity.
  - cbn [list_ascii_of_string forallb] in Hline.
    apply andb_prop in Hline. destruct Hline as [Hd Hline].
    apply negb_true_iff in Hd. cbn [append splitlines]. rewrite Hd.
    now rewrite IH.
Qed.

Lemma splitlines_single (line : string) :
  line <> "" ->
  forallb (fun c => negb (is_linebreak c)) (list_ascii_of_string line) = true ->
  splitlines line = [line].
Proof.
  induction line as [| d line IH]; intros Hne Hline; [contradiction |].
  cbn [list_ascii_of_string forallb] in Hline.
  apply andb_prop in Hline. destruct Hline as [Hd Hline].
  apply negb_true_iff in Hd. cbn [splitlines]. rewrite Hd.
  destruct line as [| e line]; [reflexivity |].
  rewrite IH; [reflexivity | discriminate | assumption].
Qed.

(** X18: every folder read from the form is non-empty and has no blank at
    either end; and a list of such folders, one per line, is read back
    as it is. *)
Theorem parse_folders_clean :
  (forall folder_text,
     Forall (fun folder => folder <> "" /\ strip folder = folder)
       (parse_folders folder_text))
  /\ (forall folders,
        Forall (fun folder =>
                  folder <> "" /\ strip folder = folder
                  /\ forallb (fun c => negb (is_linebreak c))
                       (list_ascii_of_string folder) = true) folders ->
        parse_folders (String.concat (String "010" "") folders) = folders).
Proof.
  split.
  - intros folder_text. unfold parse_folders. apply Forall_forall.
    intros folder Hin. apply in_map_iff in Hin.
    destruct Hin as (line & <- & Hline). apply filter_In in Hline.
    destruct Hline as [_ Hne]. apply negb_true_iff in Hne.
    split; [now apply String.eqb_neq | apply strip_idempotent].
  - intros folders Hall.
    assert (Hlines :
      splitlines (String.concat (String "010" "") folders) = folders).
    { induction Hall as [| f fs (Hne & _ & Hbr) Hall IH]; [reflexivity |].
      cbn [String.concat]. destruct fs as [| g fs].
      - now apply splitlines_single.
      - change (f ++ String "010" "" ++ String.concat (String "010" "") (g :: fs))
          with (f ++ String "010" (String.concat (String "010" "") (g :: fs))).
        rewrite splitlines_line by assumption. now rewrite IH. }
    unfold parse_folders. rewrite Hlines. clear Hlines.
    induction Hall as [| f fs (Hne & Hs & _) Hall IH]; [reflexivity |].
    cbn [filter]. rewrite Hs.
    destruct (String.eqb_spec f ""); [contradiction |].
    cbn [negb map]. now rewrite Hs, IH.
Qed.

Lemma parse_folders_clean_witness :
  parse_folders
    (String.concat (String "010" "") ["/data/walks"; "C:\Users\me\runs"])
  = ["/data/walks"; "C:\Users\me\runs"].
Proof.
  apply (proj2 parse_folders_clean).
  repeat constructor; discriminate.
Defined.

Example parse_folders_blank_lines :
  parse_folders
    (" /data/walks " ++ String "013" (String "010" "")
     ++ String "009" "" ++ String "010" ""
     ++ "/data/runs" ++ String "010" "")
  = ["/data/walks"; "/data/runs"].
Proof. reflexivity. Qed.

(** ** Labels whatever the case and the blanks *)

Lemma is_space_lower_char (c : ascii) : is_space (lower_char c) = is_space c.
Proof.
  destruct c as [[] [] [] [] [] [] [] []]; reflexivity.
Qed.

Lemma lower_char_idempotent (c : ascii) :
  lower_char (lower_char c) = lower_char c.
Proof.
  destruct c as [[] [] [] [] [] [] [] []]; reflexivity.
Qed.

Lemma lower_idempotent (s : string) : lower (lower s) = lower s.
Proof.
  induction s as [| c s IH]; [reflexivity |]. cbn [lower].
  now rewrite lower_char_idempotent, IH.
Qed.

Lemma lstrip_lower (s : string) : lstrip (lower s) = lower (lstrip s).
Proof.
  induction s as [| c s IH]; [reflexivity |]. cbn [lower lstrip].
  rewrite is_space_lower_char. destruct (is_space c); [exact IH | reflexivity].
Qed.

Lemma rstrip_lower (s : string) : rstrip (lower s) = lower (rstrip s).
Proof.
  induction s as [| c s IH]; [reflexivity |]. cbn [lower rstrip].
  rewrite IH, is_space_lower_char.
  destruct (rstrip s) as [| d r]; cbn [lower]; [| reflexivity].
  destruct (is_space c); reflexivity.
Qed.

Lemma strip_lower (s : string) : strip (lower s) = lower (strip s).
Proof. unfold strip. now rewrite lstrip_lower, rstrip_lower. Qed.

(** X19: [normalize_activity] always answers one of its four labels,
    keeps each of them, and reads a name the same with or without blanks
    around it and in any letter case. *)
Theorem normalize_activity_robust (name : string) :
  In (normalize_activity name) ["stairs"; "running"; "walking"; "sitting"]
  /\ normalize_activity (normalize_activity name) = normalize_activity name
  /\ normalize_activity (strip name) = normalize_activity name
  /\ normalize_activity (lower name) = normalize_activity name.
Proof.
  pose proof (normalize_activity_labels name) as Hin.
  split; [exact Hin |]. split; [| split].
  - destruct Hin as [H | [H | [H | [H | []]]]]; rewrite <- H; reflexivity.
  - unfold normalize_activity. now rewrite strip_idempotent.
  - unfold normalize_activity. now rewrite strip_lower, lower_idempotent.
Qed.

Example normalize_activity_spellings :
  normalize_activity "  Stair Climbing " = "stairs"
  /\ normalize_activity "JOGGING" = "running"
  /\ normalize_activity "Rest" = "sitting"
  /\ normalize_activity "swimming" = "walking"
  /\ normalize_activity "" = "walking".
Proof. repeat split. Qed.

(** ** The series of the plots *)

Lemma int64_sub_diag (t : Z) : int64_sub t t = 0%Z.
Proof. unfold int64_sub. now rewrite Z.sub_diag. Qed.

Section PlotSeries.
Context {T : Type} {N : Num T}.
Local Open Scope num_scope.

Lemma seconds_since_start_some (ts : list Z) (t_s : list T) :
  seconds_since_start ts = Some t_s ->
  List.length t_s = List.length ts
  /\ hd_error t_s = Some (of_int 0 / lit 1000.0).
Proof.
  destruct ts as [| t0 ts]; [discriminate |]. cbn [seconds_since_start].
  intros H. injection H as <-. split; [cbn [List.length]; f_equal; apply length_map |].
  cbn [map hd_error]. now rewrite int64_sub_diag.
Qed.

Lemma px_line_some (x y : list T) (labels : string * string) (title : string)
    (fig : LineFigure T) :
  px_line x y labels title = Some fig ->
  fig_x fig = x /\ fig_y fig = y /\ List.length x = List.length y.
Proof.
  unfold px_line. destruct (Nat.eqb_spec (List.length x) (List.length y));
    [| discriminate].
  intros H. injection H as <-. auto.
Qed.

(** The two arrays as [plot_speed_time] cuts them. *)
Lemma plot_speed_time_cut (pos : PosLog T) (speed_kmh : list T) :
  let n := Nat.min (List.length (rows pos)) (List.length speed_kmh) in
  plot_speed_time pos speed_kmh
  = match seconds_since_start (firstn n (map (@timestamp T) (rows pos))) with
    | None => None
    | Some t_s =>
        px_line t_s (firstn n speed_kmh) ("Time (s)", "Speed (km/h)")
          "Speed vs Time"
    end.
Proof.
  intros n. unfold plot_speed_time. rewrite length_map. fold n.
  destruct (Nat.eqb_spec (List.length (rows pos)) (List.length speed_kmh))
    as [Heq | Hne]; cbn [negb]; [| reflexivity].
  replace (firstn n speed_kmh) with speed_kmh
    by (symmetry; apply firstn_all2; unfold n; lia).
  replace (firstn n (map (@timestamp T) (rows pos)))
    with (map (@timestamp T) (rows pos))
    by (symmetry; apply firstn_all2; rewrite length_map; unfold n; lia).
  reflexivity.
Qed.

Lemma firstn_nil_iff (A : Type) (n : nat) (l : list A) :
  firstn n l = [] <-> n = 0%nat \/ l = [].
Proof.
  destruct n, l; cbn; split; auto; try discriminate.
  intros [H | H]; discriminate.
Qed.

Lemma plot_speed_time_outcome (pos : PosLog T) (speed_kmh : list T) :
  let n := Nat.min (List.length (rows pos)) (List.length speed_kmh) in
  match plot_speed_time pos speed_kmh with
  | None => rows pos = [] \/ speed_kmh = []
  | Some fig =>
      rows pos <> [] /\ speed_kmh <> []
      /\ fig_y fig = firstn n speed_kmh
      /\ List.length (fig_x fig) = n /\ List.length (fig_y fig) = n
      /\ hd_error (fig_x fig) = Some (of_int 0 / lit 1000.0)
  end.
Proof.
  intros n. rewrite plot_speed_time_cut. fold n.
  set (ts := firstn n (map (@timestamp T) (rows pos))).
  assert (Hts : List.length ts = n).
  { unfold ts. rewrite length_firstn, length_map. unfold n. lia. }
  assert (Hy : List.length (firstn n speed_kmh) = n).
  { rewrite length_firstn. unfold n. lia. }
  destruct (seconds_since_start ts) as [t_s |] eqn:Hsec.
  - destruct (seconds_since_start_some _ _ Hsec) as [Hlen Hhd].
    unfold px_line. rewrite Hlen, Hts, Hy, Nat.eqb_refl. cbn [fig_x fig_y].
    assert (Hn : n <> 0%nat).
    { intros Hn0. rewrite Hn0 in Hts.
      destruct ts; [discriminate Hsec | discriminate Hts]. }
    repeat split; try congruence.
    + intros Hrows. apply Hn. unfold n. rewrite Hrows. reflexivity.
    + intros Hspeed. apply Hn. unfold n. rewrite Hspeed. cbn. lia.
  - destruct ts as [| t0 ts']; [| discriminate Hsec].
    cbn in Hts. unfold n in Hts.
    destruct (rows pos); [now left |].
    destruct speed_kmh; [now right | cbn in Hts; lia].
Qed.

(** X20: [plot_speed_time] raises exactly when the log or the speed array
    is empty; otherwise both series are cut to the shorter of the two
    lengths, the speeds from the front, and the time axis starts at
    zero. *)
Theorem plot_speed_time_series (pos : PosLog T) (speed_kmh : list T) :
  (plot_speed_time pos speed_kmh = None
   <-> rows pos = [] \/ speed_kmh = [])
  /\ (forall fig : LineFigure T,
        plot_speed_time pos speed_kmh = Some fig ->
        let n := Nat.min (List.length (rows pos)) (List.length speed_kmh) in
        fig_y fig = firstn n speed_kmh
        /\ List.length (fig_x fig) = n /\ List.length (fig_y fig) = n
        /\ hd_error (fig_x fig) = Some (of_int 0 / lit 1000.0)).
Proof.
  pose proof (plot_speed_time_outcome pos speed_kmh) as Hout.
  cbv zeta in Hout.
  destruct (plot_speed_time pos speed_kmh) as [fig |]; split.
  - split; [discriminate |]. intros [H | H]; tauto.
  - intros fig' Hfig. injection Hfig as <-. tauto.
  - tauto.
  - discriminate.
Qed.
End PlotSeries.

Lemma plot_speed_time_series_witness :
  exists fig : LineFigure float,
    plot_speed_time two_sample_log [0; 4.5; 7]%float = Some fig
    /\ fig_y fig = [0; 4.5]%float
    /\ fig_x fig = [0; 2.5]%float.
Proof.
  destruct (plot_speed_time two_sample_log [0; 4.5; 7]%float)
    as [fig |] eqn:Hfig; [| vm_compute in Hfig; discriminate Hfig].
  exists fig. split; [reflexivity |].
  destruct (@plot_speed_time_series float float_Num two_sample_log
              [0; 4.5; 7]%float) as [_ Hser].
  destruct (Hser fig Hfig) as (Hy & _). split; [exact Hy |].
  vm_compute in Hfig. injection Hfig as <-. reflexivity.
Defined.

Section PlotsOfLog.
Context {T : Type} {N : Num T}.
Local Open Scope num_scope.

(** X21: the speeds the session loop hands to [plot_speed_time] are
    plotted whole: one point per row of a non-empty log, no cut, no
    exception. *)
Theorem speed_plot_of_track {G : Trig T} (pos : PosLog T) :
  rows pos <> [] ->
  let speed_kmh :=
    map (fun v => v * lit 3.6) (snd (track_distance_speed_from_gps pos)) in
  exists fig : LineFigure T,
    plot_speed_time pos speed_kmh = Some fig
    /\ fig_y fig = speed_kmh
    /\ List.length (fig_x fig) = List.length (rows pos)
    /\ List.length (fig_y fig) = List.length (rows pos).
Proof.
  intros Hrows speed_kmh.
  assert (Hlen : List.length speed_kmh = List.length (rows pos)).
  { unfold speed_kmh. rewrite length_map. apply track_speed_length. }
  pose proof (plot_speed_time_outcome pos speed_kmh) as Hout.
  cbv zeta in Hout.
  destruct (plot_speed_time pos speed_kmh) as [fig |].
  - exists fig. split; [reflexivity |].
    destruct Hout as (_ & _ & Hy & Hlx & Hly & _).
    rewrite Hlen, Nat.min_id in Hy, Hlx, Hly.
    rewrite <- Hlen in Hy at 1. rewrite firstn_all in Hy. auto.
  - exfalso. destruct Hout as [H | H]; [contradiction |].
    rewrite H in Hlen. destruct (rows pos); [contradiction | discriminate].
Qed.

(** X22: [plot_elevation] returns [None] exactly for a log without
    altitude column and raises exactly for an empty log that has one;
    a figure plots every altitude against a time axis of the same
    length that starts at zero. *)
Theorem plot_elevation_cases (pos : PosLog T) :
  (plot_elevation pos = Some None <-> has_altitude pos = false)
  /\ (plot_elevation pos = None
      <-> has_altitude pos = true /\ rows pos = [])
  /\ (forall fig : LineFigure T,
        plot_elevation pos = Some (Some fig) ->
        fig_y fig = map (@altitude T) (rows pos)
        /\ List.length (fig_x fig) = List.length (rows pos)
        /\ hd_error (fig_x fig) = Some (of_int 0 / lit 1000.0)).
Proof.
  unfold plot_elevation.
  destruct (has_altitude pos); cbn [negb].
  2: { split; [tauto |]. split; [| discriminate].
       split; [discriminate | intros [H _]; discriminate H]. }
  destruct (seconds_since_start (map (@timestamp T) (rows pos)))
    as [t_s |] eqn:Hsec.
  - destruct (seconds_since_start_some _ _ Hsec) as [Hlen Hhd].
    unfold px_line. rewrite Hlen, !length_map, Nat.eqb_refl.
    cbn [option_map]. split; [split; discriminate |]. split.
    + split; [discriminate |]. intros [_ Hrows]. rewrite Hrows in Hsec.
      discriminate Hsec.
    + intros fig Hfig. injection Hfig as <-. cbn [fig_x fig_y].
      rewrite Hlen, length_map. auto.
  - split; [split; discriminate |]. split; [| discriminate].
    split; [intros _ | reflexivity]. split; [reflexivity |].
    destruct (rows pos); [reflexivity | discriminate Hsec].
Qed.
End PlotsOfLog.

Lemma speed_plot_of_track_witness :
  exists fig : LineFigure float,
    @plot_speed_time float float_Num two_sample_log
      (map (fun v => v * lit 3.6)%num
         (snd (@track_distance_speed_from_gps float float_Num
                 first_order_Trig two_sample_log))) = Some fig
    /\ List.length (fig_x fig) = 2%nat.
Proof.
  assert (Hrows : rows two_sample_log <> []) by discriminate.
  destruct (@speed_plot_of_track float float_Num first_order_Trig
              two_sample_log Hrows) as (fig & Hfig & _ & Hlen & _).
  exists fig. split; [exact Hfig | exact Hlen].
Defined.

Lemma plot_elevation_cases_witness :
  exists fig : LineFigure float,
    plot_elevation two_sample_log = Some (Some fig)
    /\ fig_y fig = [35; 36]%float.
Proof.
  destruct (plot_elevation two_sample_log) as [[fig |] |] eqn:Hfig;
    try (vm_compute in Hfig; discriminate Hfig).
  exists fig. split; [reflexivity |].
  destruct (@plot_elevation_cases float float_Num two_sample_log)
    as (_ & _ & Hser).
  destruct (Hser fig Hfig) as (Hy & _). exact Hy.
Defined.

(** ** Grouping paths by key *)

Lemma str_in_In (k : string) (names : list string) :
  str_in k names = true <-> In k names.
Proof.
  unfold str_in. rewrite existsb_exists. split.
  - intros (x & Hx & Heq). apply String.eqb_eq in Heq. now subst.
  - intros Hin. exists k. split; [assumption | apply String.eqb_refl].
Qed.

Lemma setdefault_append_keys (g : list (string * list string)) (k x : string) :
  map fst (setdefault_append g k x)
  = if str_in k (map fst g) then map fst g else (map fst g ++ [k])%list.
Proof.
  induction g as [| [k0 ps] g IH]; [reflexivity |].
  cbn [setdefault_append map fst str_in existsb].
  rewrite (String.eqb_sym k k0).
  destruct (String.eqb k0 k) eqn:Hk; cbn [orb map fst]; [reflexivity |].
  fold (str_in k (map fst g)). rewrite IH.
  destruct (str_in k (map fst g)); reflexivity.
Qed.

Lemma setdefault_append_In (g : list (string * list string)) (k x k' : string)
    (fs' : list string) :
  NoDup (map fst g) ->
  In (k', fs') (setdefault_append g k x)
  <-> (k' <> k /\ In (k', fs') g)
      \/ (k' = k
          /\ ((exists fs0, In (k, fs0) g /\ fs' = (fs0 ++ [x])%list)
              \/ (~ In k (map fst g) /\ fs' = [x]))).
Proof.
  induction g as [| [k0 ps] g IH]; intros Hnd.
  - cbn. split.
    + intros [H | []]. injection H as <- <-. right. split; [reflexivity |].
      right. split; [tauto | reflexivity].
    + intros [[_ []] | [-> [(fs0 & [] & _) | [_ ->]]]]. now left.
  - cbn [map fst] in Hnd. inversion Hnd as [| ? ? Hnotin Hnd']; subst.
    specialize (IH Hnd'). cbn [setdefault_append].
    destruct (String.eqb_spec k0 k) as [-> | Hne].
    + cbn [In map fst]. split.
      * intros [H | H].
        -- injection H as <- <-. right. split; [reflexivity |]. left.
           exists ps. split; [now left | reflexivity].
        -- left. split; [| now right].
           intros ->. apply Hnotin. now apply (in_map fst) in H.
      * intros [[Hne H] | [-> [(fs0 & H & ->) | [Hnot _]]]].
        -- destruct H as [H | H]; [injection H as <- _; contradiction |].
           now right.
        -- destruct H as [H | H]; [injection H as <-; now left |].
           exfalso. apply Hnotin. now apply (in_map fst) in H.
        -- exfalso. apply Hnot. now left.
    + cbn [In map fst]. rewrite IH. split.
      * intros [H | [[Hne' H] | [-> [(fs0 & H & ->) | [Hnot ->]]]]].
        -- injection H as <- <-. left. split; [assumption | now left].
        -- left. split; [assumption | now right].
        -- right. split; [reflexivity |]. left. exists fs0.
           split; [now right | reflexivity].
        -- right. split; [reflexivity |]. right.
           split; [| reflexivity]. intros [H | H]; [contradiction | tauto].
      * intros [[Hne' [H | H]] | [-> [(fs0 & [H | H] & ->) | [Hnot ->]]]].
        -- now left.
        -- right. left. tauto.
        -- injection H as H _. contradiction.
        -- right. right. split; [reflexivity |]. left. now exists fs0.
        -- right. right. split; [reflexivity |]. right. tauto.
Qed.

Section Grouping.
Variable f : string -> string.

Lemma filter_none (l : list string) (k : string) :
  (forall p, In p l -> f p <> k) ->
  filter (fun p => String.eqb (f p) k) l = [].
Proof.
  induction l as [| p l IH]; intros Hl; [reflexivity |]. cbn [filter].
  destruct (String.eqb_spec (f p) k) as [Heq | _].
  - exfalso. apply (Hl p); [now left | assumption].
  - apply IH. intros q Hq. apply Hl. now right.
Qed.

Lemma grouped_step (l : list string) (g : list (string * list string))
    (x : string) :
  grouped f l g -> grouped f (l ++ [x]) (setdefault_append g (f x) x).
Proof.
  intros (Hnd & Hgroups & Hkeys).
  assert (Hfst := setdefault_append_keys g (f x) x).
  split; [| split].
  - rewrite Hfst. destruct (str_in (f x) (map fst g)) eqn:Hin; [assumption |].
    apply NoDup_app; [assumption | repeat constructor; tauto |].
    intros k Hk [<- | []].
    apply str_in_In in Hk. congruence.
  - intros k fs Hin. apply setdefault_append_In in Hin; [| assumption].
    rewrite filter_app. cbn [filter].
    destruct Hin as [[Hne Hin] | [-> [(fs0 & Hin & ->) | [Hnot ->]]]].
    + destruct (Hgroups k fs Hin) as [Hnil ->].
      destruct (String.eqb_spec (f x) k) as [Heq | _]; [congruence |].
      rewrite app_nil_r. split; [assumption | reflexivity].
    + destruct (Hgroups _ _ Hin) as [_ ->]. rewrite String.eqb_refl.
      split; [| reflexivity]. intros H. now apply app_eq_nil in H as [_ H].
    + rewrite String.eqb_refl. split; [discriminate |].
      rewrite filter_none; [reflexivity |].
      intros p Hp Heq. apply Hnot. rewrite <- Heq. now apply Hkeys.
  - intros p Hp. rewrite Hfst. apply in_app_or in Hp.
    destruct (str_in (f x) (map fst g)) eqn:Hin.
    + destruct Hp as [Hp | [<- | []]]; [now apply Hkeys |].
      now apply str_in_In.
    + apply in_or_app. destruct Hp as [Hp | [<- | []]];
        [left; now apply Hkeys | right; now left].
Qed.

Lemma grouped_fold (l2 l1 : list string) (g : list (string * list string)) :
  grouped f l1 g ->
  grouped f (l1 ++ l2)
    (fold_left (fun groups path => setdefault_append groups (f path) path)
       l2 g).
Proof.
  revert l1 g. induction l2 as [| x l2 IH]; intros l1 g Hg; cbn [fold_left].
  - now rewrite app_nil_r.
  - replace (l1 ++ x :: l2)%list with ((l1 ++ [x]) ++ l2)%list
      by now rewrite <- app_assoc.
    apply IH. now apply grouped_step.
Qed.
End Grouping.

Lemma group_by_session_grouped (P : OsPath) (csvs : list string) :
  grouped session_key_of csvs (_group_by_session csvs).
Proof.
  apply (grouped_fold session_key_of csvs [] []). split; [constructor |].
  split; [intros k fs [] | intros p []].
Qed.

(** X23: [_group_by_session] partitions the paths by their key: no key
    twice, no empty group, each group the paths with its key in the order
    of the input, and every path in the group of its key. *)
Theorem group_by_session_partition (P : OsPath) (csvs : list string) :
  NoDup (map fst (_group_by_session csvs))
  /\ (forall key files,
        In (key, files) (_group_by_session csvs) ->
        files <> []
        /\ files
           = filter (fun path => String.eqb (session_key_of path) key) csvs)
  /\ (forall path,
        In path csvs ->
        exists files,
          In (session_key_of path, files) (_group_by_session csvs)
          /\ In path files).
Proof.
  destruct (group_by_session_grouped P csvs) as (Hnd & Hgroups & Hkeys).
  split; [assumption |]. split; [assumption |].
  intros path Hpath. specialize (Hkeys path Hpath).
  apply in_map_iff in Hkeys. destruct Hkeys as ([k files] & Hk & Hin).
  cbn [fst] in Hk. subst k. exists files. split; [assumption |].
  destruct (Hgroups _ _ Hin) as [_ ->].
  apply filter_In. split; [assumption | apply String.eqb_refl].
Qed.

Lemma group_by_session_partition_witness :
  exists files : list string,
    In ("b_c", files)
       (@_group_by_session posix_OsPath ["/d/x_b_c.csv"; "/d/n.csv"; "y_b_c.csv"])
    /\ In "y_b_c.csv" files.
Proof.
  destruct (group_by_session_partition posix_OsPath
              ["/d/x_b_c.csv"; "/d/n.csv"; "y_b_c.csv"]) as (_ & _ & Hin).
  apply (Hin "y_b_c.csv"). cbn. tauto.
Defined.

(** ** The sessions of [load_sessions] *)

Lemma insert_string_In (x y : string) (l : list string) :
  In y (insert_string x l) <-> y = x \/ In y l.
Proof.
  induction l as [| z l IH]; cbn [insert_string In]; [intuition |].
  destruct (String.leb x z); cbn [In]; [intuition |].
  rewrite IH. intuition.
Qed.

Lemma sorted_set_In (y : string) (l : list string) :
  In y (sorted_set l) <-> In y l.
Proof.
  unfold sorted_set. rewrite <- (nodup_In string_dec l y).
  induction (nodup string_dec l) as [| x l' IH]; cbn [fold_right In];
    [tauto |].
  rewrite insert_string_In, IH. intuition.
Qed.

Section LoadInvariants.
Context {P : OsPath} {FS D : Type} {W : FileSystem FS D}.

Lemma collect_paths_In (fs : FS) (roots csvs : list string) (path : string) :
  collect_paths fs roots = Some csvs ->
  In path csvs ->
  exists root names name,
    In root roots /\ os_path_isdir fs root = true
    /\ os_listdir fs root = Some names /\ In name names
    /\ is_sensorlog_csv name = true /\ path = os_path_join root name.
Proof.
  revert csvs. induction roots as [| root roots IH]; intros csvs Hc Hin;
    cbn [collect_paths] in Hc.
  - injection Hc as <-. destruct Hin.
  - destruct (os_path_isdir fs root) eqn:Hdir; cbn [negb] in Hc.
    + destruct (os_listdir fs root) as [names |] eqn:Hls; [| discriminate].
      destruct (collect_paths fs roots) as [rest |]; [| discriminate].
      injection Hc as <-. apply in_app_or in Hin. destruct Hin as [Hin | Hin].
      * apply in_map_iff in Hin. destruct Hin as (name & <- & Hname).
        apply filter_In in Hname. destruct Hname as [Hname Hcsv].
        exists root, names, name. cbn [In]. tauto.
      * destruct (IH rest eq_refl Hin) as (r & ns & n & Hr & H).
        exists r, ns, n. cbn [In]. tauto.
    + destruct (IH csvs Hc Hin) as (r & ns & n & Hr & H).
      exists r, ns, n. cbn [In]. tauto.
Qed.

Lemma add_session_ok (Q : Session D -> Prop) (fs : FS) (folder : string)
    (st : list string * list (Session D)) (key : string) (files : list string) :
  sessions_ok Q st ->
  (forall s, s_folder s = folder ->
             s_session_key s = folder ++ " | " ++ key ->
             s_files s = files -> Q s) ->
  sessions_ok Q (add_session fs folder st (key, files)).
Proof.
  destruct st as [seen sessions]. intros [Hnd Hall] Hnew.
  unfold add_session.
  destruct (str_in (folder ++ " | " ++ key) seen) eqn:Hseen;
    [split; assumption |].
  cbn [fst snd] in *. split; cbn [fst snd].
  - rewrite map_app. cbn [map s_session_key].
    apply NoDup_app; [assumption | repeat constructor; tauto |].
    intros k Hk [<- | []]. apply in_map_iff in Hk.
    destruct Hk as (s & Hs & Hin). destruct (Hall s Hin) as [Hin' _].
    rewrite Hs in Hin'. apply str_in_In in Hin'. congruence.
  - intros s Hin. apply in_app_or in Hin. destruct Hin as [Hin | [<- | []]].
    + destruct (Hall s Hin) as [Hk Hq]. split; [now right | assumption].
    + cbn [s_session_key]. split; [now left |]. now apply Hnew.
Qed.

Lemma add_sessions_ok (Q : Session D -> Prop) (fs : FS) (folder : string)
    (groups : list (string * list string))
    (st : list string * list (Session D)) :
  sessions_ok Q st ->
  (forall key files s,
     In (key, files) groups -> s_folder s = folder ->
     s_session_key s = folder ++ " | " ++ key -> s_files s = files -> Q s) ->
  sessions_ok Q (fold_left (add_session fs folder) groups st).
Proof.
  revert st. induction groups as [| [key files] groups IH]; intros st Hst Hnew;
    cbn [fold_left]; [assumption |].
  apply IH.
  - apply add_session_ok; [assumption |].
    intros s. apply Hnew. now left.
  - intros k fs' s Hin. apply Hnew. now right.
Qed.

Lemma unzipped_roots_In (fs : FS) (folder root : string) (names : list string) :
  In root (unzipped_roots fs folder names) ->
  exists d, endswith d "_unzipped" = true /\ root = os_path_join folder d.
Proof.
  unfold unzipped_roots. intros Hin. apply in_map_iff in Hin.
  destruct Hin as (d & <- & Hd). apply filter_In in Hd.
  destruct Hd as [_ Hd]. apply andb_prop in Hd. exists d. tauto.
Qed.

Lemma load_folder_ok (folders : list string) (fs fs' : FS) (folder : string)
    (st st' : list string * list (Session D)) :
  In folder folders ->
  sessions_ok (session_wf folders) st ->
  load_folder fs st folder = Some (fs', st') ->
  sessions_ok (session_wf folders) st'.
Proof.
  intros Hfolder Hst. unfold load_folder.
  destruct (os_path_isdir fs folder); cbn [negb];
    [| intros H; injection H as <- <-; assumption].
  destruct (_ensure_unzipped fs folder) as [fs1 |]; [| discriminate].
  destruct (os_listdir fs1 folder) as [names |]; [| discriminate].
  unfold _collect_csvs.
  destruct (collect_paths fs1 (folder :: unzipped_roots fs1 folder names))
    as [paths |] eqn:Hpaths; cbn [option_map]; [| discriminate].
  destruct (sorted_set paths) as [| c0 cs] eqn:Hcsvs;
    intros H; injection H as <- <-; [assumption |].
  apply add_sessions_ok; [assumption |].
  intros key files s Hin Hf Hk Hfiles.
  destruct (group_by_session_grouped P (c0 :: cs)) as (_ & Hgroups & _).
  destruct (Hgroups key files Hin) as [Hne Hfilter].
  unfold session_wf. rewrite Hf, Hfiles.
  split; [assumption |]. split; [assumption |]. split.
  - exists key. split; [assumption |]. intros path Hpath.
    rewrite Hfilter in Hpath. apply filter_In in Hpath.
    now apply String.eqb_eq.
  - intros path Hpath. rewrite Hfilter in Hpath. apply filter_In in Hpath.
    destruct Hpath as [Hpath _]. rewrite <- Hcsvs in Hpath.
    apply (proj1 (sorted_set_In _ _)) in Hpath.
    destruct (collect_paths_In _ _ _ _ Hpaths Hpath)
      as (root & ns & name & Hroot & _ & _ & _ & Hcsv & ->).
    apply andb_prop in Hcsv. exists root, name.
    split; [reflexivity |]. split; [tauto |]. split; [tauto |].
    destruct Hroot as [<- | Hroot]; [now left | right].
    now apply unzipped_roots_In in Hroot.
Qed.

Lemma load_loop_ok (folders rest : list string) (fs fs' : FS)
    (st : list string * list (Session D)) (sessions : list (Session D)) :
  incl rest folders ->
  sessions_ok (session_wf folders) st ->
  load_loop fs st rest = Some (fs', sessions) ->
  NoDup (map (@s_session_key D) sessions)
  /\ Forall (session_wf folders) sessions.
Proof.
  revert fs st. induction rest as [| folder rest IH]; intros fs st Hincl Hst;
    cbn [load_loop].
  - intros H. injection H as <- <-. destruct Hst as [Hnd Hall].
    split; [assumption |]. apply Forall_forall. intros s Hs.
    now apply Hall.
  - destruct (load_folder fs st folder) as [[fs1 st1] |] eqn:Hfolder;
      [| discriminate].
    apply IH.
    + intros x Hx. apply Hincl. now right.
    + apply (load_folder_ok folders fs fs1 folder st st1);
        [apply Hincl; now left | assumption | assumption].
Qed.

End LoadInvariants.

(** ** The listing of the CSV files *)

Lemma string_leb_ltb (x y : string) :
  String.leb x y = true -> x <> y -> String.ltb x y = true.
Proof.
  unfold String.leb, String.ltb. intros Hle Hne.
  destruct (String.compare x y) eqn:Hc; try reflexivity; try discriminate.
  apply String.compare_eq_iff in Hc. contradiction.
Qed.

Lemma string_not_leb_ltb (x y : string) :
  String.leb x y = false -> String.ltb y x = true.
Proof.
  unfold String.leb, String.ltb. rewrite (String.compare_antisym y x).
  destruct (String.compare x y); cbn; congruence.
Qed.

Lemma insert_string_sorted (x : string) (l : list string) :
  ~ In x l ->
  Sorted (fun a b => String.ltb a b = true) l ->
  Sorted (fun a b => String.ltb a b = true) (insert_string x l).
Proof.
  induction l as [| y l IH]; intros Hnot Hs; cbn [insert_string].
  - repeat constructor.
  - inversion Hs as [| ? ? Hs' Hhd]; subst.
    destruct (String.leb x y) eqn:Hle.
    + constructor; [assumption |]. constructor.
      apply string_leb_ltb; [assumption |]. intros ->. apply Hnot. now left.
    + constructor.
      * apply IH; [| assumption]. intros H. apply Hnot. now right.
      * destruct l as [| z l]; cbn [insert_string].
        -- constructor. now apply string_not_leb_ltb.
        -- destruct (String.leb x z); constructor;
             [now apply string_not_leb_ltb |].
           now inversion Hhd.
Qed.

Lemma insert_string_NoDup (x : string) (l : list string) :
  ~ In x l -> NoDup l -> NoDup (insert_string x l).
Proof.
  induction l as [| y l IH]; intros Hnot Hnd; cbn [insert_string].
  - repeat constructor. tauto.
  - destruct (String.leb x y); [now constructor |].
    inversion Hnd as [| ? ? Hy Hnd']; subst. constructor.
    + rewrite insert_string_In. intros [-> | H]; [| contradiction].
      apply Hnot. now left.
    + apply IH; [| assumption]. intros H. apply Hnot. now right.
Qed.

Lemma sorted_set_sorted (l : list string) :
  Sorted (fun a b => String.ltb a b = true) (sorted_set l)
  /\ NoDup (sorted_set l).
Proof.
  unfold sorted_set. pose proof (NoDup_nodup string_dec l) as Hnd.
  induction (nodup string_dec l) as [| x l' IH]; cbn [fold_right].
  - split; constructor.
  - inversion Hnd as [| ? ? Hx Hnd']; subst. destruct (IH Hnd') as [Hs Hn].
    assert (Hnot : ~ In x (fold_right insert_string [] l')).
    { intros H. apply Hx. clear - H.
      induction l' as [| y l' IH]; [destruct H |]. cbn [fold_right] in H.
      apply insert_string_In in H. destruct H as [-> | H];
        [now left | right; now apply IH]. }
    split; [now apply insert_string_sorted | now apply insert_string_NoDup].
Qed.

Section Listing.
Context {P : OsPath} {FS D : Type} {W : FileSystem FS D}.

Lemma collect_paths_complete (fs : FS) (roots csvs names : list string)
    (root name : string) :
  collect_paths fs roots = Some csvs ->
  In root roots -> os_path_isdir fs root = true ->
  os_listdir fs root = Some names -> In name names ->
  is_sensorlog_csv name = true ->
  In (os_path_join root name) csvs.
Proof.
  revert csvs. induction roots as [| r roots IH];
    intros csvs Hc Hroot Hdir Hls Hname Hcsv; [destruct Hroot |].
  cbn [collect_paths] in Hc.
  destruct (os_path_isdir fs r) eqn:Hr; cbn [negb] in Hc.
  - destruct (os_listdir fs r) as [ns |] eqn:Hns; [| discriminate].
    destruct (collect_paths fs roots) as [rest |]; [| discriminate].
    injection Hc as <-. apply in_or_app.
    destruct Hroot as [-> | Hroot].
    + left. apply in_map. apply filter_In. split; [| assumption].
      congruence.
    + right. now apply (IH rest eq_refl).
  - destruct Hroot as [-> | Hroot]; [congruence |]. now apply IH.
Qed.

(** X25: [_collect_csvs] lists each [sensorlog_*.csv] entry of the roots
    that are directories once, in strictly increasing order, and nothing
    else. *)
Theorem collect_csvs_sorted (fs : FS) (roots csvs : list string) :
  _collect_csvs fs roots = Some csvs ->
  Sorted (fun a b => String.ltb a b = true) csvs
  /\ NoDup csvs
  /\ (forall path,
        In path csvs
        <-> exists root names name,
              In root roots /\ os_path_isdir fs root = true
              /\ os_listdir fs root = Some names /\ In name names
              /\ startswith name "sensorlog_" = true
              /\ endswith name ".csv" = true
              /\ path = os_path_join root name).
Proof.
  unfold _collect_csvs.
  destruct (collect_paths fs roots) as [paths |] eqn:Hpaths; [| discriminate].
  cbn [option_map]. intros H. injection H as <-.
  destruct (sorted_set_sorted paths) as [Hs Hn].
  split; [assumption |]. split; [assumption |].
  intros path. rewrite sorted_set_In. split.
  - intros Hin.
    destruct (collect_paths_In _ _ _ _ Hpaths Hin)
      as (root & names & name & Hroot & Hdir & Hls & Hname & Hcsv & ->).
    apply andb_prop in Hcsv. exists root, names, name. tauto.
  - intros (root & names & name & Hroot & Hdir & Hls & Hname & H1 & H2 & ->).
    apply (collect_paths_complete fs roots paths names); try assumption.
    unfold is_sensorlog_csv. now rewrite H1, H2.
Qed.

(** *** Reading one kind of file *)

Lemma prefix_app_substr_in (a sub s : string) :
  String.prefix (a ++ sub) s = true -> substr_in sub s = true.
Proof.
  revert s. induction a as [| c a IH]; intros s Hp.
  - cbn in Hp. destruct s; cbn [substr_in]; now rewrite Hp.
  - destruct s as [| d s]; [discriminate Hp |].
    cbn [append String.prefix] in Hp.
    destruct (ascii_dec c d); [| discriminate Hp].
    cbn [substr_in]. rewrite (IH s Hp). apply orb_true_r.
Qed.

Lemma substr_in_app (a sub s : string) :
  substr_in (a ++ sub) s = true -> substr_in sub s = true.
Proof.
  induction s as [| d s IH]; cbn [substr_in]; intros H;
    apply orb_prop in H; destruct H as [H | H].
  - apply prefix_app_substr_in in H. exact H.
  - discriminate H.
  - apply prefix_app_substr_in in H. exact H.
  - rewrite (IH H). apply orb_true_r.
Qed.

(** X26: the first file whose name holds [_<kind>_] decides: the second
    test of [_read_if_exists] never adds a file, a file that cannot be read
    is not replaced by a later one, and no match gives [None]. *)
Theorem read_if_exists_first_match (fs : FS) (files : list string)
    (kind : string) :
  (forall path,
     matches_kind kind path
     = substr_in ("_" ++ kind ++ "_") (os_path_basename path))
  /\ _read_if_exists fs files kind
     = match find (matches_kind kind) files with
       | Some path => pd_read_csv fs path
       | None => None
       end.
Proof.
  split.
  - intros path. unfold matches_kind.
    destruct (substr_in ("_" ++ kind ++ "_") (os_path_basename path)) eqn:H1;
      [reflexivity |].
    destruct (substr_in ("sensorlog_" ++ kind ++ "_") (os_path_basename path))
      eqn:H2; [| reflexivity].
    change ("sensorlog_" ++ kind ++ "_")
      with ("sensorlog" ++ ("_" ++ kind ++ "_")) in H2.
    apply substr_in_app in H2. congruence.
  - induction files as [| path files IH]; [reflexivity |].
    cbn [_read_if_exists find]. now destruct (matches_kind kind path).
Qed.

(** *** No exception *)

Lemma unzip_keeps_dir (folder d : string) (names : list string) (fs : FS) :
  (forall fs z o d, os_path_isdir fs d = true ->
                    os_path_isdir (zip_extractall fs z o) d = true) ->
  os_path_isdir fs d = true ->
  os_path_isdir (fold_left (unzip_one folder) names fs) d = true.
Proof.
  intros Hkeep. revert fs. induction names as [| name names IH]; intros fs Hd;
    cbn [fold_left]; [assumption |].
  apply IH. unfold unzip_one.
  destruct (endswith (lower name) ".zip"); [| assumption].
  destruct (os_path_isdir fs (os_path_join folder (name ++ "_unzipped")));
    cbn [negb]; [assumption |].
  now apply Hkeep.
Qed.

Lemma collect_paths_total (fs : FS) (roots : list string) :
  (forall fs d, os_path_isdir fs d = true -> os_listdir fs d <> None) ->
  exists csvs, collect_paths fs roots = Some csvs.
Proof.
  intros Hls. induction roots as [| root roots [rest IH]];
    cbn [collect_paths]; [now exists [] |].
  destruct (os_path_isdir fs root) eqn:Hdir; cbn [negb];
    [| now exists rest].
  destruct (os_listdir fs root) as [names |] eqn:Hnames.
  - rewrite IH. eexists. reflexivity.
  - exfalso. now apply (Hls fs root).
Qed.

Lemma load_folder_total (fs : FS) (st : list string * list (Session D))
    (folder : string) :
  (forall fs d, os_path_isdir fs d = true -> os_listdir fs d <> None) ->
  (forall fs z o d, os_path_isdir fs d = true ->
                    os_path_isdir (zip_extractall fs z o) d = true) ->
  exists r, load_folder fs st folder = Some r.
Proof.
  intros Hls Hkeep. unfold load_folder.
  destruct (os_path_isdir fs folder) eqn:Hdir; cbn [negb];
    [| eexists; reflexivity].
  unfold _ensure_unzipped.
  destruct (os_listdir fs folder) as [names |] eqn:Hnames;
    [| exfalso; now apply (Hls fs folder)].
  pose proof (unzip_keeps_dir folder folder names fs Hkeep Hdir) as Hdir1.
  set (fs1 := fold_left (unzip_one folder) names fs) in *.
  destruct (os_listdir fs1 folder) as [names1 |] eqn:Hnames1;
    [| exfalso; now apply (Hls fs1 folder)].
  unfold _collect_csvs.
  destruct (collect_paths_total fs1
              (folder :: unzipped_roots fs1 folder names1) Hls) as [paths ->].
  cbn [option_map]. destruct (sorted_set paths); eexists; reflexivity.
Qed.

(** X27: [load_sessions] raises nothing when every directory can be
    listed and an extraction removes no directory. *)
Theorem load_sessions_total (fs : FS) (input_folders : list string) :
  (forall fs d, os_path_isdir fs d = true -> os_listdir fs d <> None) ->
  (forall fs z o d, os_path_isdir fs d = true ->
                    os_path_isdir (zip_extractall fs z o) d = true) ->
  exists fs' sessions, load_sessions fs input_folders = Some (fs', sessions).
Proof.
  intros Hls Hkeep. unfold load_sessions.
  generalize (@nil string, @nil (Session D)). revert fs.
  induction input_folders as [| folder rest IH]; intros fs st;
    cbn [load_loop]; [eexists; eexists; reflexivity |].
  destruct (load_folder_total fs st folder Hls Hkeep) as [[fs1 st1] ->].
  apply IH.
Qed.
End Listing.

(** ** The key of a file name *)

Lemma string_app_assoc (a b c : string) : (a ++ b) ++ c = a ++ (b ++ c).
Proof. induction a as [| x a IH]; cbn; [reflexivity | now rewrite IH]. Qed.

Lemma list_ascii_app (a b : string) :
  list_ascii_of_string (a ++ b)
  = (list_ascii_of_string a ++ list_ascii_of_string b)%list.
Proof. induction a as [| x a IH]; cbn; [reflexivity | now rewrite IH]. Qed.

Lemma free_of_lacks (chars s : string) (c : ascii) :
  free_of chars s = true -> In c (list_ascii_of_string chars) ->
  ~ In c (list_ascii_of_string s).
Proof.
  unfold free_of. rewrite forallb_forall. intros Hfree Hc Hs.
  specialize (Hfree c Hs). apply negb_true_iff in Hfree.
  assert (Hex : existsb (Ascii.eqb c) (list_ascii_of_string chars) = true).
  { apply existsb_exists. exists c. split; [assumption | apply Ascii.eqb_refl]. }
  congruence.
Qed.

Lemma lacks_app (c : ascii) (a b : string) :
  ~ In c (list_ascii_of_string (a ++ b))
  <-> ~ In c (list_ascii_of_string a) /\ ~ In c (list_ascii_of_string b).
Proof. rewrite list_ascii_app, in_app_iff. tauto. Qed.

Lemma rsplit1_lacks (sep : ascii) (s : string) :
  ~ In sep (list_ascii_of_string s) -> rsplit1 sep s = None.
Proof.
  induction s as [| c s IH]; cbn; [reflexivity |]. intros Hnot.
  rewrite IH by tauto.
  destruct (Ascii.eqb_spec c sep); [exfalso; tauto | reflexivity].
Qed.

Lemma rsplit1_app (sep : ascii) (a b : string) :
  ~ In sep (list_ascii_of_string b) ->
  rsplit1 sep (a ++ String sep b) = Some (a, b).
Proof.
  intros Hb. induction a as [| c a IH]; cbn.
  - now rewrite rsplit1_lacks, Ascii.eqb_refl.
  - now rewrite IH.
Qed.

Lemma split_on_lacks (sep : ascii) (s : string) :
  ~ In sep (list_ascii_of_string s) -> split_on sep s = [s].
Proof.
  induction s as [| c s IH]; cbn; [reflexivity |]. intros Hnot.
  destruct (Ascii.eqb_spec c sep); [exfalso; tauto |].
  now rewrite IH by tauto.
Qed.

Lemma split_on_cons (sep : ascii) (s : string) :
  exists p ps, split_on sep s = p :: ps.
Proof.
  induction s as [| c s (p & ps & IH)]; cbn; [now exists "", [] |].
  destruct (Ascii.eqb c sep); [eexists; eexists; reflexivity |].
  rewrite IH. eexists; eexists; reflexivity.
Qed.

Lemma split_on_app (sep : ascii) (a b : string) :
  split_on sep (a ++ String sep b)
  = (split_on sep a ++ split_on sep b)%list.
Proof.
  induction a as [| c a IH]; cbn.
  - now rewrite Ascii.eqb_refl.
  - destruct (Ascii.eqb c sep); [now rewrite IH |].
    rewrite IH. destruct (split_on_cons sep a) as (p & ps & ->).
    reflexivity.
Qed.

Lemma all_dots_lacks (c : ascii) (s : string) :
  c <> "."%char -> In c (list_ascii_of_string s) -> all_dots s = false.
Proof.
  intros Hc. induction s as [| d s IH]; cbn; [tauto |].
  intros [-> | Hin].
  - destruct (Ascii.eqb_spec c "."); [contradiction | reflexivity].
  - rewrite (IH Hin). apply andb_false_r.
Qed.

(** The last two parts of a stem [pre_a_b]. *)
Lemma key_of_parts (pre a b : string) :
  ~ In "_"%char (list_ascii_of_string a) ->
  ~ In "_"%char (list_ascii_of_string b) ->
  let parts := split_on "_" (pre ++ "_" ++ a ++ "_" ++ b) in
  let n := List.length parts in
  (n <? 3)%nat = false
  /\ nth (n - 2) parts "" = a /\ nth (n - 1) parts "" = b.
Proof.
  intros Ha Hb.
  change (pre ++ "_" ++ a ++ "_" ++ b)
    with (pre ++ String "_" (a ++ String "_" b)).
  rewrite !split_on_app, (split_on_lacks "_" a Ha), (split_on_lacks "_" b Hb).
  destruct (split_on_cons "_" pre) as (p & ps & ->).
  cbn zeta. rewrite !length_app. cbn [List.length].
  split; [apply Nat.ltb_ge; lia |].
  replace (S (List.length ps) + (1 + 1) - 2)%nat
    with (List.length (p :: ps) + 0)%nat by (cbn; lia).
  replace (S (List.length ps) + (1 + 1) - 1)%nat
    with (List.length (p :: ps) + 1)%nat by (cbn; lia).
  rewrite !app_nth2_plus. split; reflexivity.
Qed.

Lemma posix_basename_join (dir name : string) :
  ~ In "/"%char (list_ascii_of_string name) ->
  posix_basename (dir ++ "/" ++ name) = name.
Proof.
  intros Hname. unfold posix_basename.
  change (dir ++ "/" ++ name) with (dir ++ String "/" name).
  now rewrite rsplit1_app.
Qed.

Lemma posix_splitext_name (stem ext : string) :
  ~ In "/"%char (list_ascii_of_string stem) ->
  ~ In "/"%char (list_ascii_of_string ext) ->
  ~ In "."%char (list_ascii_of_string ext) ->
  all_dots stem = false ->
  posix_splitext (stem ++ "." ++ ext) = (stem, "." ++ ext).
Proof.
  intros Hs He Hd Hdots. unfold posix_splitext.
  change (stem ++ "." ++ ext) with (stem ++ String "." ext).
  rewrite rsplit1_lacks.
  2: { apply lacks_app. split; [assumption |]. cbn. intros [H | H];
       [discriminate H | contradiction]. }
  now rewrite rsplit1_app, Hdots.
Qed.

Ltac lacks_chars :=
  repeat match goal with
  | |- ~ In _ (list_ascii_of_string (_ ++ _)) => apply lacks_app; split
  | |- ~ In _ (list_ascii_of_string ?s) =>
      first [ eapply free_of_lacks; [eassumption | cbn; tauto]
            | cbn; intuition discriminate ]
  end.



(** ** The sample file system *)

Lemma toy_listable (D : Type) (read : string -> option D)
    (fs : list (string * list string)) (d : string) :
  @os_path_isdir _ _ (toy_FileSystem read) fs d = true ->
  @os_listdir _ _ (toy_FileSystem read) fs d <> None.
Proof.
  cbn [os_path_isdir os_listdir toy_FileSystem].
  induction fs as [| e fs IH]; cbn [existsb find]; [discriminate |].
  destruct (String.eqb (fst e) d); cbn [orb option_map]; [discriminate |].
  exact IH.
Qed.

Lemma toy_keeps_dirs (D : Type) (read : string -> option D)
    (fs : list (string * list string)) (z o d : string) :
  @os_path_isdir _ _ (toy_FileSystem read) fs d = true ->
  @os_path_isdir _ _ (toy_FileSystem read)
    (@zip_extractall _ _ (toy_FileSystem read) fs z o) d = true.
Proof.
  cbn [os_path_isdir zip_extractall toy_FileSystem].
  rewrite existsb_app. intros ->. reflexivity.
Qed.

Lemma load_sessions_total_witness :
  exists fs' sessions,
    @load_sessions posix_OsPath _ _ (toy_FileSystem read_two_samples)
      toy_disk ["/data"; "/nowhere"; "/data"] = Some (fs', sessions).
Proof.
  apply (@load_sessions_total posix_OsPath _ _
           (toy_FileSystem read_two_samples)).
  - apply toy_listable.
  - apply toy_keeps_dirs.
Defined.


Lemma collect_csvs_sorted_witness :
  exists csvs,
    @_collect_csvs posix_OsPath _ _ (toy_FileSystem read_two_samples)
      toy_disk ["/data"; "/data"; "/nowhere"] = Some csvs
    /\ NoDup csvs /\ List.length csvs = 3%nat.
Proof.
  destruct (@_collect_csvs posix_OsPath _ _ (toy_FileSystem read_two_samples)
              toy_disk ["/data"; "/data"; "/nowhere"])
    as [csvs |] eqn:Hc; [| vm_compute in Hc; discriminate].
  exists csvs. split; [reflexivity |].
  split; [apply (collect_csvs_sorted _ _ _ Hc) |].
  vm_compute in Hc. injection Hc as <-. reflexivity.
Defined.

(** ** The rows of the sessions *)

Section SessionRows.
Context {T : Type} {N : Num T} {G : Trig T}.

Lemma summary_rows_keys (sessions : list (Session (PosLog T))) (weight : T)
    (summary : list (string * SummaryRow T)) :
  summary_rows sessions weight = Some summary ->
  incl (map fst summary) (map (@s_session_key _) sessions).
Proof.
  revert summary. induction sessions as [| sess sessions IH];
    intros summary; cbn [summary_rows].
  - intros H. injection H as <-. intros x [].
  - destruct (s_pos sess) as [pos |].
    2: { intros H x Hx. right. now apply (IH summary H). }
    destruct (rows pos) as [| r0 rs].
    { intros H x Hx. right. now apply (IH summary H). }
    destruct (summarize pos weight) as [row |]; [| discriminate].
    destruct (summary_rows sessions weight) as [rest |]; [| discriminate].
    cbn [option_map]. intros H. injection H as <-.
    intros x [<- | Hx]; [now left | right; now apply (IH rest eq_refl)].
Qed.

Lemma row_of_own_session (sessions : list (Session (PosLog T))) (weight : T)
    (summary : list (string * SummaryRow T)) :
  NoDup (map (@s_session_key _) sessions) ->
  summary_rows sessions weight = Some summary ->
  forall sess pos,
    In sess sessions -> s_pos sess = Some pos -> rows pos <> [] ->
    exists row,
      summarize pos weight = Some row
      /\ row_of_session summary (s_session_key sess) = Some row.
Proof.
  revert summary. induction sessions as [| s0 sessions IH];
    intros summary Hnd Hsum sess pos Hin Hpos Hrows; [destruct Hin |].
  cbn [map] in Hnd. inversion Hnd as [| ? ? Hnot Hnd']; subst.
  cbn [summary_rows] in Hsum.
  destruct Hin as [-> | Hin].
  - rewrite Hpos in Hsum. destruct (rows pos) as [| r0 rs] eqn:Hr;
      [contradiction |].
    destruct (summarize pos weight) as [row |]; [| discriminate].
    destruct (summary_rows sessions weight) as [rest |]; [| discriminate].
    injection Hsum as <-. exists row. split; [reflexivity |].
    unfold row_of_session. cbn [find fst]. now rewrite String.eqb_refl.
  - assert (Hne : s_session_key s0 <> s_session_key sess).
    { intros Heq. apply Hnot. rewrite Heq. now apply in_map. }
    assert (Hskip : forall rest,
              summary_rows sessions weight = Some rest ->
              exists row,
                summarize pos weight = Some row
                /\ row_of_session rest (s_session_key sess) = Some row).
    { intros rest Hrest. now apply (IH rest Hnd' Hrest sess pos). }
    destruct (s_pos s0) as [pos0 |]; [| now apply Hskip].
    destruct (rows pos0) as [| r0 rs]; [now apply Hskip |].
    destruct (summarize pos0 weight) as [row0 |]; [| discriminate].
    destruct (summary_rows sessions weight) as [rest |]; [| discriminate].
    injection Hsum as <-. destruct (Hskip rest eq_refl) as (row & Hrow & Hfind).
    exists row. split; [assumption |].
    unfold row_of_session. cbn [find fst].
    destruct (String.eqb_spec (s_session_key s0) (s_session_key sess));
      [contradiction | exact Hfind].
Qed.

(** X29: every loaded session with a non-empty position log finds its own
    row in the summary when the row is looked up by the session key; the
    summary has no key twice and no more rows than there are sessions. *)
Theorem session_row_lookup {P : OsPath} {FS : Type}
    {W : FileSystem FS (PosLog T)} (fs fs' : FS) (input_folders : list string)
    (sessions : list (Session (PosLog T))) (weight : T)
    (summary : list (string * SummaryRow T)) :
  load_sessions fs input_folders = Some (fs', sessions) ->
  summary_rows sessions weight = Some summary ->
  (forall sess pos,
     In sess sessions -> s_pos sess = Some pos -> rows pos <> [] ->
     exists row,
       summarize pos weight = Some row
       /\ row_of_session summary (s_session_key sess) = Some row)
  /\ NoDup (map fst summary)
  /\ (List.length summary <= List.length sessions)%nat.
Proof.
  intros Hload Hsum.
  assert (Hnd : NoDup (map (@s_session_key _) sessions)).
  { apply (load_loop_ok input_folders input_folders fs fs' ([], []) sessions);
      [apply incl_refl | split; [constructor | intros s []] | exact Hload]. }
  split; [now apply (row_of_own_session sessions weight) |].
  clear Hload. revert summary Hsum Hnd.
  induction sessions as [| s0 sessions IH]; intros summary Hsum Hnd;
    cbn [summary_rows] in Hsum.
  - injection Hsum as <-. split; [constructor | cbn; lia].
  - cbn [map] in Hnd. inversion Hnd as [| ? ? Hnot Hnd']; subst.
    assert (Hskip : summary_rows sessions weight = Some summary ->
              NoDup (map fst summary)
              /\ (List.length summary <= List.length (s0 :: sessions))%nat).
    { intros H. destruct (IH summary H Hnd'). split; [assumption | cbn; lia]. }
    destruct (s_pos s0) as [pos0 |]; [| now apply Hskip].
    destruct (rows pos0) as [| r0 rs]; [now apply Hskip |].
    destruct (summarize pos0 weight) as [row0 |]; [| discriminate].
    destruct (summary_rows sessions weight) as [rest |] eqn:Hrest;
      [| discriminate].
    injection Hsum as <-. destruct (IH rest eq_refl Hnd') as [Hn Hl].
    split; [| cbn; lia]. cbn [map fst]. constructor; [| assumption].
    intros Hin. apply Hnot. now apply (summary_rows_keys _ _ _ Hrest).
Qed.
End SessionRows.

Lemma session_row_lookup_witness :
  exists fs' sessions summary row,
    @load_sessions posix_OsPath _ _ (toy_FileSystem read_two_samples)
      toy_disk ["/data"] = Some (fs', sessions)
    /\ @summary_rows float float_Num first_order_Trig sessions 75%float
       = Some summary
    /\ row_of_session summary "/data | 20240102_080000" = Some row
    /\ NoDup (map fst summary).
Proof.
  destruct (@load_sessions posix_OsPath _ _ (toy_FileSystem read_two_samples)
              toy_disk ["/data"])
    as [[fs' sessions] |] eqn:Hload; [| vm_compute in Hload; discriminate].
  destruct (@summary_rows float float_Num first_order_Trig sessions 75%float)
    as [summary |] eqn:Hsum.
  2: { vm_compute in Hload. injection Hload as _ <-.
       vm_compute in Hsum. discriminate Hsum. }
  destruct (@session_row_lookup float float_Num first_order_Trig
              posix_OsPath _ (toy_FileSystem read_two_samples)
              _ _ _ _ _ _ Hload Hsum) as (Hrow & Hnd & _).
  assert (Hlast :
    exists sess, In sess sessions /\ s_pos sess = Some two_sample_log
                 /\ s_session_key sess = "/data | 20240102_080000").
  { vm_compute in Hload. injection Hload as _ <-.
    eexists. split; [right; left; reflexivity |]. split; reflexivity. }
  destruct Hlast as (sess & Hin & Hpos & Hkey).
  destruct (Hrow sess two_sample_log Hin Hpos) as (row & _ & Hfind);
    [discriminate |].
  exists fs', sessions, summary, row. rewrite <- Hkey. auto.
Defined.
